(** * Turbopack hot reloader: build tracking, issue ledger and HMR fan-out

    A shallow embedding of
    [packages/next/src/server/dev/hot-reloader-turbopack.ts].

    The closure state of [createHotReloaderTurbopack] (the [Map]s and [Set]s
    declared with [const] and the [let] variables next to them) is one record,
    [World]; every function of the closure is a computation in a state and
    exception monad over it.  JavaScript [Map] and [Set] iterate in insertion
    order, and that order decides the order of the messages sent, so both are
    association lists kept in insertion order.  What leaves the process (a
    message on a client socket, a call into the build engine, the console
    store) is appended to the [effects] log of the world.

    Each function is run to completion: the model has the [await] points of
    the source as plain sequencing.  File I/O on manifests ([load*Manifest],
    [writeManifests], [propagateServerField], [handleRequireCacheClearing],
    which returns its argument) touches nothing the properties below read and
    is left out; it is taken to succeed.

    Three parts stand on their own after the closure: the change detection
    of [handleRequireCacheClearing] over its [serverPathState], the message
    listener of a client, and the manifest merges of
    [packages/next/src/server/dev/turbopack-utils.ts]. *)

From Stdlib Require Import String Ascii List Bool Arith Lia DecimalString.
Import ListNotations.
Open Scope list_scope.
Open Scope string_scope.

Set Implicit Arguments.
Set Warnings "-register-all".

(** ** Keys with a decidable equality *)

Class EqKey (K : Type) : Type := {
  keqb : K -> K -> bool;
  keqb_eq : forall x y, keqb x y = true <-> x = y
}.

#[export] Instance EqKey_string : EqKey string :=
  {| keqb := String.eqb; keqb_eq := String.eqb_eq |}.

#[export] Instance EqKey_nat : EqKey nat :=
  {| keqb := Nat.eqb; keqb_eq := Nat.eqb_eq |}.

(** ** JavaScript [Map]: insertion-ordered, one entry per key *)

Module JsMap.
Section Defs.
Context {K V : Type} `{EqKey K}.

Definition t := list (K * V).

Definition empty : t := [].

Fixpoint get (k : K) (m : t) : option V :=
  match m with
  | [] => None
  | (k', v) :: m' => if keqb k k' then Some v else get k m'
  end.

Definition has (k : K) (m : t) : bool :=
  match get k m with Some _ => true | None => false end.

(** [set] on a present key keeps its position and replaces its value; a new
    key goes last. *)
Fixpoint set (k : K) (v : V) (m : t) : t :=
  match m with
  | [] => [(k, v)]
  | (k', v') :: m' =>
      if keqb k k' then (k, v) :: m' else (k', v') :: set k v m'
  end.

Fixpoint delete (k : K) (m : t) : t :=
  match m with
  | [] => []
  | (k', v') :: m' =>
      if keqb k k' then delete k m' else (k', v') :: delete k m'
  end.

Definition keys (m : t) : list K := map fst m.
Definition values (m : t) : list V := map snd m.
Definition size (m : t) : nat := length m.
End Defs.
Arguments t : clear implicits.
End JsMap.

(** ** JavaScript [Set]: insertion-ordered, no duplicates *)

Module JsSet.
Section Defs.
Context {K : Type} `{EqKey K}.

Definition t := list K.

Definition empty : t := [].

Fixpoint has (k : K) (s : t) : bool :=
  match s with
  | [] => false
  | k' :: s' => keqb k k' || has k s'
  end.

Definition add (k : K) (s : t) : t := if has k s then s else (s ++ [k])%list.

Fixpoint delete (k : K) (s : t) : t :=
  match s with
  | [] => []
  | k' :: s' => if keqb k k' then delete k s' else k' :: delete k s'
  end.

Definition size (s : t) : nat := length s.
End Defs.
Arguments t : clear implicits.
End JsSet.

(** ** String operations of the source *)

Definition nl : string := String "010"%char "".

(** [hay.includes(needle)] *)
Fixpoint includes (needle hay : string) : bool :=
  String.prefix needle hay ||
  match hay with
  | EmptyString => false
  | String _ hay' => includes needle hay'
  end.

Fixpoint drop (n : nat) (s : string) : string :=
  match n, s with
  | S n', String _ s' => drop n' s'
  | _, _ => s
  end.

(** [s.replace(pat, rep)] with a string pattern: the first occurrence only. *)
Fixpoint replace_first (pat rep s : string) : string :=
  if String.prefix pat s then rep ++ drop (String.length pat) s
  else match s with
       | EmptyString => EmptyString
       | String c s' => String c (replace_first pat rep s')
       end.

(** [s.replaceAll(pat, rep)]: every occurrence, left to right, without
    overlap; [skip] counts the characters of a match still to pass over. *)
Fixpoint replace_all_from (skip : nat) (pat rep s : string) : string :=
  match s with
  | EmptyString => EmptyString
  | String c s' =>
      match skip with
      | S k => replace_all_from k pat rep s'
      | O =>
          if String.prefix pat s
          then rep ++ replace_all_from (String.length pat - 1) pat rep s'
          else String c (replace_all_from 0 pat rep s')
      end
  end.

Definition replaceAll (pat rep s : string) : string :=
  replace_all_from 0 pat rep s.

(** [s.replace(/\n/g, rep)] *)
Fixpoint replace_newlines (rep s : string) : string :=
  match s with
  | EmptyString => EmptyString
  | String c s' =>
      if Ascii.eqb c "010"%char then rep ++ replace_newlines rep s'
      else String c (replace_newlines rep s')
  end.

(** [/(^|\/)node_modules(\/|$)/.test(s)]: [boundary] says that the position
    is the start of the string or follows a slash. *)
Fixpoint node_modules_from (boundary : bool) (s : string) : bool :=
  (boundary && String.prefix "node_modules" s &&
     match drop 12 s with
     | EmptyString => true
     | String c _ => Ascii.eqb c "/"%char
     end)
  || match s with
     | EmptyString => false
     | String c s' => node_modules_from (Ascii.eqb c "/"%char) s'
     end.

Definition in_node_modules (filePath : string) : bool :=
  node_modules_from true filePath.

(** [key.replace(/ \((?:client|server)\)$/, '')] *)
Fixpoint strip_phase (key : string) : string :=
  if String.eqb key " (client)" || String.eqb key " (server)" then EmptyString
  else match key with
       | EmptyString => EmptyString
       | String c key' => String c (strip_phase key')
       end.

Definition number_to_string (n : nat) : string :=
  NilZero.string_of_uint (Nat.to_uint n).

(** ** Issues *)

Inductive StyledString : Type :=
| SText (value : string)
| SStrong (value : string)
| SCode (value : string)
| SLine (value : list StyledString)
| SStack (value : list StyledString).

Record Position := { line : nat; column : nat }.

Record IssueSource := {
  content : option string;
  range : option (Position * Position)
}.

Record Issue := {
  severity : string;
  filePath : string;
  title : StyledString;
  description : option StyledString;
  detail : option StyledString;
  source : option IssueSource;
  documentationLink : string
}.

(** ** Routes of the entrypoint graph *)

Definition Endpoint := nat.
Definition Client := nat.

Record AppPage := {
  ap_originalName : string;
  ap_htmlEndpoint : Endpoint;
  ap_rscEndpoint : Endpoint
}.

Inductive Route : Type :=
| RoutePage (htmlEndpoint dataEndpoint : Endpoint)
| RoutePageApi (endpoint : Endpoint)
| RouteAppPage (pages : list AppPage)
| RouteAppRoute (originalName : string) (endpoint : Endpoint)
| RouteOther (type : string).

Inductive EndpointType := Edge | NodeJs.

(** [TurbopackResult<WrittenEndpoint>]; [serverPaths] is read by
    [handleRequireCacheClearing] only. *)
Record WrittenEndpoint := {
  we_issues : list Issue;
  we_type : EndpointType
}.

Record Entrypoints := {
  routes : list (string * Route);
  middleware : option Endpoint;
  instrumentation : option (Endpoint * Endpoint);
  pagesAppEndpoint : option Endpoint;
  pagesDocumentEndpoint : option Endpoint;
  pagesErrorEndpoint : option Endpoint
}.

(** An item of [project.hmrEvents(id)]. *)
Record TurbopackUpdate := {
  tu_type : string;
  tu_issues : list Issue;
  tu_body : string
}.

(** ** Messages and effects *)

Inductive HMR_ACTION : Type :=
| TURBOPACK_CONNECTED
| SYNC (errors : list string)
| BUILDING
| BUILT (hash : nat) (errors : list string)
| SERVER_ONLY_CHANGES (pages : list string)
| CLIENT_CHANGES
| SERVER_COMPONENT_CHANGES
| MIDDLEWARE_CHANGES
| RELOAD_PAGE
| TURBOPACK_MESSAGE (data : list TurbopackUpdate).

Inductive Phase := Server | Client_.

Definition phase_name (p : Phase) : string :=
  match p with Server => "server" | Client_ => "client" end.

(** The iterator a subscription holds. *)
Inductive Subscription : Type :=
| ChangeStream (e : Endpoint) (p : Phase) (includeIssues : bool)
| HmrStream (id : string) (c : Client).

Inductive Effect : Type :=
| WriteToDisk (e : Endpoint)
| ClientSend (c : Client) (a : HMR_ACTION)
| ClientClose (c : Client)
| IterReturn (s : Subscription)
| SetLoading (loading : bool) (trigger : option string) (url : option string)
| LogInfo (msg : string).

Inductive Exn : Type :=
| ModuleBuildError (msg : string)
| PageNotFoundError (msg : string)
| TypeError (msg : string)
| Error (msg : string)
| RangeError
| SyntaxError.

(** ** What the file imports

    Collaborators that are declared outside this file: the build engine, the
    terminal colours, the code frame printer, [JSON.stringify], the constant
    [BLOCKED_PAGES], the page resolver and the configuration flag read by
    [handleEntries]. *)

Record Env := {
  bold : string -> string;
  red : string -> string;
  green : string -> string;
  (** [str.replaceAll(MAGIC_IDENTIFIER_REGEX, ...)] *)
  decodeMagicIdentifiers : string -> string;
  (** [codeFrameColumns(content, {start, end}, {forceColor: true}).trim()],
      the positions already one-based *)
  codeFrame : string -> Position -> Position -> string;
  JSON_stringify : StyledString -> string;
  BLOCKED_PAGES : list string;
  (** [findPagePathData(dir, page, ...)]: the resolved page, or the error it
      throws *)
  findPagePathData : string -> Exn + string;
  writeToDisk : Endpoint -> WrittenEndpoint;
  instrumentationHook : bool
}.

Definition Issues := JsMap.t string (JsMap.t string Issue).

(** ** The closure state *)

Record World := {
  curEntries : JsMap.t string Route;
  curAppEntries : JsMap.t string Route;
  changeSubscriptions : JsMap.t string Subscription;
  prevMiddleware : option bool;
  globalEntries_app : option Endpoint;
  globalEntries_document : option Endpoint;
  globalEntries_error : option Endpoint;
  hmrPayloads : JsMap.t string HMR_ACTION;
  turbopackUpdates : list TurbopackUpdate;
  issues : Issues;
  buildingIds : JsSet.t string;
  readyIds : JsSet.t string;
  hmrEventHappened : bool;
  clientToHmrSubscription : JsMap.t Client (JsMap.t string Subscription);
  clients : JsSet.t Client;
  effects : list Effect
}.

Definition initial : World :=
  {| curEntries := []; curAppEntries := []; changeSubscriptions := [];
     prevMiddleware := None; globalEntries_app := None;
     globalEntries_document := None; globalEntries_error := None;
     hmrPayloads := []; turbopackUpdates := []; issues := [];
     buildingIds := []; readyIds := []; hmrEventHappened := false;
     clientToHmrSubscription := []; clients := []; effects := [] |}.

Definition set_entries (e a : JsMap.t string Route) (w : World) : World :=
  {| curEntries := e; curAppEntries := a;
     changeSubscriptions := changeSubscriptions w;
     prevMiddleware := prevMiddleware w;
     globalEntries_app := globalEntries_app w;
     globalEntries_document := globalEntries_document w;
     globalEntries_error := globalEntries_error w;
     hmrPayloads := hmrPayloads w; turbopackUpdates := turbopackUpdates w;
     issues := issues w; buildingIds := buildingIds w;
     readyIds := readyIds w; hmrEventHappened := hmrEventHappened w;
     clientToHmrSubscription := clientToHmrSubscription w;
     clients := clients w; effects := effects w |}.

Definition set_changeSubscriptions (s : JsMap.t string Subscription)
  (w : World) : World :=
  {| curEntries := curEntries w; curAppEntries := curAppEntries w;
     changeSubscriptions := s;
     prevMiddleware := prevMiddleware w;
     globalEntries_app := globalEntries_app w;
     globalEntries_document := globalEntries_document w;
     globalEntries_error := globalEntries_error w;
     hmrPayloads := hmrPayloads w; turbopackUpdates := turbopackUpdates w;
     issues := issues w; buildingIds := buildingIds w;
     readyIds := readyIds w; hmrEventHappened := hmrEventHappened w;
     clientToHmrSubscription := clientToHmrSubscription w;
     clients := clients w; effects := effects w |}.

Definition set_prevMiddleware (p : option bool) (w : World) : World :=
  {| curEntries := curEntries w; curAppEntries := curAppEntries w;
     changeSubscriptions := changeSubscriptions w;
     prevMiddleware := p;
     globalEntries_app := globalEntries_app w;
     globalEntries_document := globalEntries_document w;
     globalEntries_error := globalEntries_error w;
     hmrPayloads := hmrPayloads w; turbopackUpdates := turbopackUpdates w;
     issues := issues w; buildingIds := buildingIds w;
     readyIds := readyIds w; hmrEventHappened := hmrEventHappened w;
     clientToHmrSubscription := clientToHmrSubscription w;
     clients := clients w; effects := effects w |}.

Definition set_globalEntries (a d e : option Endpoint) (w : World) : World :=
  {| curEntries := curEntries w; curAppEntries := curAppEntries w;
     changeSubscriptions := changeSubscriptions w;
     prevMiddleware := prevMiddleware w;
     globalEntries_app := a;
     globalEntries_document := d;
     globalEntries_error := e;
     hmrPayloads := hmrPayloads w; turbopackUpdates := turbopackUpdates w;
     issues := issues w; buildingIds := buildingIds w;
     readyIds := readyIds w; hmrEventHappened := hmrEventHappened w;
     clientToHmrSubscription := clientToHmrSubscription w;
     clients := clients w; effects := effects w |}.

Definition set_queue (p : JsMap.t string HMR_ACTION)
  (u : list TurbopackUpdate) (happened : bool) (w : World) : World :=
  {| curEntries := curEntries w; curAppEntries := curAppEntries w;
     changeSubscriptions := changeSubscriptions w;
     prevMiddleware := prevMiddleware w;
     globalEntries_app := globalEntries_app w;
     globalEntries_document := globalEntries_document w;
     globalEntries_error := globalEntries_error w;
     hmrPayloads := p; turbopackUpdates := u;
     issues := issues w; buildingIds := buildingIds w;
     readyIds := readyIds w; hmrEventHappened := happened;
     clientToHmrSubscription := clientToHmrSubscription w;
     clients := clients w; effects := effects w |}.

Definition set_issues (i : Issues) (w : World) : World :=
  {| curEntries := curEntries w; curAppEntries := curAppEntries w;
     changeSubscriptions := changeSubscriptions w;
     prevMiddleware := prevMiddleware w;
     globalEntries_app := globalEntries_app w;
     globalEntries_document := globalEntries_document w;
     globalEntries_error := globalEntries_error w;
     hmrPayloads := hmrPayloads w; turbopackUpdates := turbopackUpdates w;
     issues := i; buildingIds := buildingIds w;
     readyIds := readyIds w; hmrEventHappened := hmrEventHappened w;
     clientToHmrSubscription := clientToHmrSubscription w;
     clients := clients w; effects := effects w |}.

Definition set_build (b r : JsSet.t string) (w : World) : World :=
  {| curEntries := curEntries w; curAppEntries := curAppEntries w;
     changeSubscriptions := changeSubscriptions w;
     prevMiddleware := prevMiddleware w;
     globalEntries_app := globalEntries_app w;
     globalEntries_document := globalEntries_document w;
     globalEntries_error := globalEntries_error w;
     hmrPayloads := hmrPayloads w; turbopackUpdates := turbopackUpdates w;
     issues := issues w; buildingIds := b;
     readyIds := r; hmrEventHappened := hmrEventHappened w;
     clientToHmrSubscription := clientToHmrSubscription w;
     clients := clients w; effects := effects w |}.

Definition set_clients (c : JsSet.t Client)
  (m : JsMap.t Client (JsMap.t string Subscription)) (w : World) : World :=
  {| curEntries := curEntries w; curAppEntries := curAppEntries w;
     changeSubscriptions := changeSubscriptions w;
     prevMiddleware := prevMiddleware w;
     globalEntries_app := globalEntries_app w;
     globalEntries_document := globalEntries_document w;
     globalEntries_error := globalEntries_error w;
     hmrPayloads := hmrPayloads w; turbopackUpdates := turbopackUpdates w;
     issues := issues w; buildingIds := buildingIds w;
     readyIds := readyIds w; hmrEventHappened := hmrEventHappened w;
     clientToHmrSubscription := m;
     clients := c; effects := effects w |}.

Definition emit (e : list Effect) (w : World) : World :=
  {| curEntries := curEntries w; curAppEntries := curAppEntries w;
     changeSubscriptions := changeSubscriptions w;
     prevMiddleware := prevMiddleware w;
     globalEntries_app := globalEntries_app w;
     globalEntries_document := globalEntries_document w;
     globalEntries_error := globalEntries_error w;
     hmrPayloads := hmrPayloads w; turbopackUpdates := turbopackUpdates w;
     issues := issues w; buildingIds := buildingIds w;
     readyIds := readyIds w; hmrEventHappened := hmrEventHappened w;
     clientToHmrSubscription := clientToHmrSubscription w;
     clients := clients w; effects := (effects w ++ e)%list |}.

(** ** The monad of the closure's functions: state and exceptions *)

Inductive Result (A : Type) : Type :=
| Ok (a : A)
| Throw (e : Exn).
Arguments Ok {A} a.
Arguments Throw {A} e.

Definition M (A : Type) : Type := World -> Result A * World.

Definition ret {A} (a : A) : M A := fun w => (Ok a, w).

Definition bind {A B} (m : M A) (f : A -> M B) : M B :=
  fun w =>
    match m w with
    | (Ok a, w') => f a w'
    | (Throw e, w') => (Throw e, w')
    end.

Definition throw {A} (e : Exn) : M A := fun w => (Throw e, w).

Definition modify (f : World -> World) : M unit := fun w => (Ok tt, f w).

Definition gets {A} (f : World -> A) : M A := fun w => (Ok (f w), w).

(** [try { body } finally { fin }] *)
Definition try_finally {A} (body : M A) (fin : M unit) : M A :=
  fun w =>
    match body w with
    | (r, w') =>
        match fin w' with
        | (Ok _, w'') => (r, w'')
        | (Throw e, w'') => (Throw e, w'')
        end
    end.

Definition when (b : bool) (m : M unit) : M unit :=
  if b then m else ret tt.

Notation "x <- m ;; k" := (bind m (fun x => k))
  (at level 61, m at next level, right associativity).
Notation "m ;; k" := (bind m (fun _ => k))
  (at level 61, right associativity).

Fixpoint for_each {A} (l : list A) (body : A -> M unit) : M unit :=
  match l with
  | [] => ret tt
  | x :: l' => body x ;; for_each l' body
  end.

(** ** The program *)

Section Program.

Variable env : Env.

(** *** Formatting of issues *)

Fixpoint renderStyledStringToErrorAnsi (s : StyledString) : string :=
  match s with
  | SText v => decodeMagicIdentifiers env v
  | SStrong v => bold env (red env (decodeMagicIdentifiers env v))
  | SCode v => green env (decodeMagicIdentifiers env v)
  | SLine vs => String.concat "" (map renderStyledStringToErrorAnsi vs)
  | SStack vs => String.concat nl (map renderStyledStringToErrorAnsi vs)
  end.

(** [JSON.stringify(undefined)] is [undefined], which [join] prints as the
    empty string. *)
Definition issueKey (issue : Issue) : string :=
  String.concat "-"
    [ severity issue;
      filePath issue;
      JSON_stringify env (title issue);
      match description issue with
      | Some d => JSON_stringify env d
      | None => ""
      end ].

Definition formatIssue (issue : Issue) : string :=
  let formattedTitle :=
    replace_newlines (nl ++ "    ")
      (renderStyledStringToErrorAnsi (title issue)) in
  let documentationLink' :=
    if includes "Module not found" formattedTitle
    then "https://nextjs.org/docs/messages/module-not-found"
    else documentationLink issue in
  let formattedFilePath :=
    replace_first "\\?\" ""
      (replaceAll "/./" "/"
         (replace_first "[project]/" "./" (filePath issue))) in
  let range' :=
    match source issue with
    | Some src => range src
    | None => None
    end in
  let message :=
    match range' with
    | Some (start, _) =>
        formattedFilePath ++ ":" ++ number_to_string (line start + 1) ++ ":"
          ++ number_to_string (column start + 1) ++ nl ++ formattedTitle
    | None =>
        if String.eqb formattedFilePath "" then formattedTitle
        else formattedFilePath ++ nl ++ formattedTitle
    end ++ nl in
  let message :=
    match source issue with
    | Some {| content := Some c; range := Some (start, end_) |} =>
        if String.eqb c "" then message
        else
          message ++
          codeFrame env c
            {| line := line start + 1; column := column start + 1 |}
            {| line := line end_ + 1; column := column end_ + 1 |}
          ++ nl ++ nl
    | _ => message
    end in
  let message :=
    match description issue with
    | Some d => message ++ renderStyledStringToErrorAnsi d ++ nl ++ nl
    | None => message
    end in
  if String.eqb documentationLink' "" then message
  else message ++ documentationLink' ++ nl ++ nl.

(** *** Issue ledger *)

Definition is_error_or_fatal (issue : Issue) : bool :=
  String.eqb (severity issue) "error" || String.eqb (severity issue) "fatal".

(** The [for] loop of [processIssues] over [result.issues]; [newIssues] is
    the fresh bucket and [relevantIssues] the set of formatted messages to
    throw. *)
Fixpoint processIssues_loop (result_issues : list Issue)
  (newIssues : JsMap.t string Issue) (relevantIssues : JsSet.t string)
  : JsMap.t string Issue * JsSet.t string :=
  match result_issues with
  | [] => (newIssues, relevantIssues)
  | issue :: rest =>
      if negb (is_error_or_fatal issue)
      then processIssues_loop rest newIssues relevantIssues
      else
        let newIssues' := JsMap.set (issueKey issue) issue newIssues in
        if in_node_modules (filePath issue)
        then processIssues_loop rest newIssues' relevantIssues
        else processIssues_loop rest newIssues'
               (JsSet.add (formatIssue issue) relevantIssues)
  end.

(** [processIssues(issues, name, result, throwIssue)]; the bucket stored
    under [name] is the object the loop fills, so it is stored filled. *)
Definition processIssues (name : string) (result_issues : list Issue)
  (throwIssue : bool) : M unit :=
  let '(newIssues, relevantIssues) :=
    processIssues_loop result_issues JsMap.empty JsSet.empty in
  modify (fun w => set_issues (JsMap.set name newIssues (issues w)) w) ;;
  if negb (Nat.eqb (JsSet.size relevantIssues) 0) && throwIssue
  then throw (ModuleBuildError (String.concat (nl ++ nl) relevantIssues))
  else ret tt.

(** *** Build trigger and readiness tracker *)

(** What [startBuilding] returns: the inert [() => {}] or the closure
    [finishBuilding] over [id]. *)
Inductive Handle : Type :=
| Inert
| FinishBuilding (id : string).

Definition startBuilding (id : string) (requestUrl : option string)
  (forceRebuild : bool) : M Handle :=
  fun w =>
    if negb forceRebuild && JsSet.has id (readyIds w) then (Ok Inert, w)
    else
      let w1 :=
        if Nat.eqb (JsSet.size (buildingIds w)) 0
        then emit [SetLoading true (Some id) requestUrl] w
        else w in
      (Ok (FinishBuilding id),
       set_build (JsSet.add id (buildingIds w1)) (readyIds w1) w1).

Definition finishBuilding (id : string) : M unit :=
  fun w =>
    if Nat.eqb (JsSet.size (buildingIds w)) 0 then (Ok tt, w)
    else
      let w1 := set_build (buildingIds w) (JsSet.add id (readyIds w)) w in
      let w2 := set_build (JsSet.delete id (buildingIds w1)) (readyIds w1) w1 in
      (Ok tt,
       if Nat.eqb (JsSet.size (buildingIds w2)) 0
       then emit [SetLoading false None None] w2
       else w2).

Definition call (h : Handle) : M unit :=
  match h with
  | Inert => ret tt
  | FinishBuilding id => finishBuilding id
  end.

(** *** Client fan-out and the event coalescer *)

(** [hotReloader.send(action)] *)
Definition send (action : HMR_ACTION) : M unit :=
  fun w => (Ok tt, emit (map (fun c => ClientSend c action) (clients w)) w).

Definition bucket_nonempty (issueMap : JsMap.t string Issue) : bool :=
  negb (Nat.eqb (JsMap.size issueMap) 0).

Definition sendEnqueuedMessages : M unit :=
  fun w =>
    if existsb bucket_nonempty (JsMap.values (issues w)) then (Ok tt, w)
    else
      (for_each (JsMap.values (hmrPayloads w)) send ;;
       modify (fun w => set_queue JsMap.empty (turbopackUpdates w)
                          (hmrEventHappened w) w) ;;
       updates <- gets turbopackUpdates ;;
       when (negb (Nat.eqb (length updates) 0))
         (send (TURBOPACK_MESSAGE updates) ;;
          modify (fun w => set_queue (hmrPayloads w) []
                             (hmrEventHappened w) w))) w.

(** [sendHmr] and [sendTurbopackMessage] end with the debounced call, which
    arms a timer; the flush itself is [sendEnqueuedMessages], run when the
    timer fires. *)
Definition sendHmr (key id : string) (payload : HMR_ACTION) : M unit :=
  modify (fun w =>
    set_queue (JsMap.set (key ++ ":" ++ id) payload (hmrPayloads w))
      (turbopackUpdates w) true w).

Definition sendTurbopackMessage (payload : TurbopackUpdate) : M unit :=
  modify (fun w =>
    set_queue (hmrPayloads w) (turbopackUpdates w ++ [payload])%list true w).

(** What the stream of [project.hmrEvents(id)] yields next: an item, or an
    exception raised by the iteration. *)
Inductive StreamItem : Type :=
| Yield (data : TurbopackUpdate)
| Raise.

Definition reload_and_close (client : Client) : M unit :=
  modify (emit [ClientSend client RELOAD_PAGE; ClientClose client]).

(** The [for await] loop of [subscribeToHmrEvents]. *)
Fixpoint hmr_loop (id : string) (client : Client) (stream : list StreamItem)
  : M unit :=
  match stream with
  | [] => ret tt
  | Raise :: _ => reload_and_close client
  | Yield data :: rest =>
      processIssues id (tu_issues data) false ;;
      when (negb (String.eqb (tu_type data) "issues"))
        (sendTurbopackMessage data) ;;
      hmr_loop id client rest
  end.

(** [subscribeToHmrEvents(id, client)], with the items the engine's stream
    goes on to yield. *)
Definition subscribeToHmrEvents (id : string) (client : Client)
  (stream : list StreamItem) : M unit :=
  mapping0 <- gets (fun w => JsMap.get client (clientToHmrSubscription w)) ;;
  let mapping :=
    match mapping0 with Some m => m | None => JsMap.empty end in
  modify (fun w =>
    match mapping0 with
    | Some _ => w
    | None =>
        set_clients (clients w)
          (JsMap.set client mapping (clientToHmrSubscription w)) w
    end) ;;
  if JsMap.has id mapping then ret tt
  else
    modify (fun w =>
      set_clients (clients w)
        (JsMap.set client (JsMap.set id (HmrStream id client) mapping)
           (clientToHmrSubscription w)) w) ;;
    match stream with
    | [] => ret tt
    | Raise :: _ => reload_and_close client
    | Yield _ :: rest => hmr_loop id client rest
    end.

Definition unsubscribeToHmrEvents (id : string) (client : Client) : M unit :=
  fun w =>
    match JsMap.get client (clientToHmrSubscription w) with
    | Some mapping =>
        match JsMap.get id mapping with
        | Some subscription => (Ok tt, emit [IterReturn subscription] w)
        | None => (Ok tt, w)
        end
    | None => (Ok tt, w)
    end.

(** The flattened ledger: one formatted message per issue, bucket after
    bucket. *)
Definition ledger_errors (i : Issues) : list string :=
  flat_map (fun pageIssues => map formatIssue (JsMap.values pageIssues))
    (JsMap.values i).

(** The callback of [wsServer.handleUpgrade] in [onHMR]. *)
Definition onHMR (client : Client) : M unit :=
  modify (fun w =>
    set_clients (JsSet.add client (clients w)) (clientToHmrSubscription w) w) ;;
  modify (emit [ClientSend client TURBOPACK_CONNECTED]) ;;
  errors <- gets (fun w => ledger_errors (issues w)) ;;
  send (SYNC errors).

(** The [close] listener installed by [onHMR]. *)
Definition onClose (client : Client) : M unit :=
  modify (fun w =>
    set_clients (JsSet.delete client (clients w))
      (clientToHmrSubscription w) w).

(** *** Change subscriptions *)

Definition subscription_key (page : string) (type : Phase) : string :=
  page ++ " (" ++ phase_name type ++ ")".

(** [changeSubscription(page, type, includeIssues, endpoint, makePayload)] up
    to its first [await]: the registration.  The loop after it runs once per
    change the engine reports later. *)
Definition changeSubscription (page : string) (type : Phase)
  (includeIssues : bool) (endpoint : option Endpoint) : M unit :=
  fun w =>
    let key := subscription_key page type in
    match endpoint with
    | None => (Ok tt, w)
    | Some e =>
        if JsMap.has key (changeSubscriptions w) then (Ok tt, w)
        else
          (Ok tt,
           set_changeSubscriptions
             (JsMap.set key (ChangeStream e type includeIssues)
                (changeSubscriptions w)) w)
    end.

Definition clearChangeSubscription (page : string) (type : Phase) : M unit :=
  fun w =>
    let key := subscription_key page type in
    let w1 :=
      match JsMap.get key (changeSubscriptions w) with
      | Some subscription =>
          set_changeSubscriptions (JsMap.delete key (changeSubscriptions w))
            (emit [IterReturn subscription] w)
      | None => w
      end in
    (Ok tt, set_issues (JsMap.delete key (issues w1)) w1).

(** *** The entrypoint directory *)

(** [engine.writeToDisk()] through [handleRequireCacheClearing] *)
Definition materialize (e : Endpoint) : M WrittenEndpoint :=
  modify (emit [WriteToDisk e]) ;; ret (writeToDisk env e).

Definition route_type (r : Route) : string :=
  match r with
  | RoutePage _ _ => "page"
  | RoutePageApi _ => "page-api"
  | RouteAppPage _ => "app-page"
  | RouteAppRoute _ _ => "app-route"
  | RouteOther t => t
  end.

(** The body of the loop over [entrypoints.routes]. *)
Definition add_route (pathname : string) (route : Route) : M unit :=
  match route with
  | RoutePage _ _ | RoutePageApi _ =>
      modify (fun w =>
        set_entries (JsMap.set pathname route (curEntries w))
          (curAppEntries w) w)
  | RouteAppPage pages =>
      modify (fun w =>
        set_entries (JsMap.set pathname route (curEntries w))
          (curAppEntries w) w) ;;
      for_each pages (fun page =>
        modify (fun w =>
          set_entries (curEntries w)
            (JsMap.set (ap_originalName page) route (curAppEntries w)) w))
  | RouteAppRoute originalName _ =>
      modify (fun w =>
        set_entries (JsMap.set pathname route (curEntries w))
          (JsMap.set originalName route (curAppEntries w)) w)
  | RouteOther t =>
      modify (emit [LogInfo ("skipping " ++ pathname ++ " (" ++ t ++ ")")])
  end.

(** The body of the loop over [changeSubscriptions]. *)
Definition prune_subscription (entry : string * Subscription) : M unit :=
  fun w =>
    let '(pathname, subscription) := entry in
    let rawPathname := strip_phase pathname in
    if String.eqb rawPathname "" then (Ok tt, w)
    else if negb (JsMap.has rawPathname (curEntries w))
            && negb (JsMap.has rawPathname (curAppEntries w))
    then
      (Ok tt,
       set_changeSubscriptions (JsMap.delete pathname (changeSubscriptions w))
         (emit [IterReturn subscription] w))
    else (Ok tt, w).

(** The body of the loop over [issues]. *)
Definition prune_issue_bucket (page : string) : M unit :=
  fun w =>
    if negb (JsMap.has page (curEntries w))
    then (Ok tt, set_issues (JsMap.delete page (issues w)) w)
    else (Ok tt, w).

(** One round of [handleEntries], from the new snapshot to the end of the
    two pruning loops.  An entry deleted while a [Map] is iterated is the
    current one, so the loops see the entries present when they start. *)
Definition rebuild_and_diff (entrypoints : Entrypoints) : M unit :=
  modify (set_globalEntries (pagesAppEndpoint entrypoints)
            (pagesDocumentEndpoint entrypoints)
            (pagesErrorEndpoint entrypoints)) ;;
  modify (set_entries JsMap.empty JsMap.empty) ;;
  for_each (routes entrypoints) (fun '(pathname, route) =>
    add_route pathname route) ;;
  subscriptions <- gets changeSubscriptions ;;
  for_each subscriptions prune_subscription ;;
  buckets <- gets issues ;;
  for_each (JsMap.keys buckets) prune_issue_bucket.

Definition processMiddleware (endpoint : Endpoint) : M unit :=
  writtenEndpoint <- materialize endpoint ;;
  processIssues "middleware" (we_issues writtenEndpoint) false.

Definition processInstrumentation (name : string) (endpoint : Endpoint)
  : M unit :=
  writtenEndpoint <- materialize endpoint ;;
  processIssues name (we_issues writtenEndpoint) false.

(** The rest of the round: middleware and instrumentation. *)
Definition handle_middleware (entrypoints : Entrypoints) : M unit :=
  prev <- gets prevMiddleware ;;
  match prev, middleware entrypoints with
  | Some true, None =>
      clearChangeSubscription "middleware" Server ;;
      sendHmr "entrypoint-change" "middleware" MIDDLEWARE_CHANGES
  | Some false, Some _ =>
      sendHmr "endpoint-change" "middleware" MIDDLEWARE_CHANGES
  | _, _ => ret tt
  end ;;
  match instrumentationHook env, instrumentation entrypoints with
  | true, Some (nodeJs, edge) =>
      processInstrumentation "instrumentation.nodeJs" nodeJs ;;
      processInstrumentation "instrumentation.edge" edge
  | _, _ => ret tt
  end ;;
  match middleware entrypoints with
  | Some endpoint =>
      processMiddleware endpoint ;;
      changeSubscription "middleware" Server false (Some endpoint) ;;
      modify (set_prevMiddleware (Some true))
  | None => modify (set_prevMiddleware (Some false))
  end.

Definition handleEntries (entrypoints : Entrypoints) : M unit :=
  rebuild_and_diff entrypoints ;;
  handle_middleware entrypoints.

(** *** Ensuring a page *)

Definition find_page (page : string) (pages : list AppPage) : option AppPage :=
  match find (fun p => String.eqb (ap_originalName p) page) pages with
  | Some p => Some p
  | None => hd_error pages
  end.

Definition handleRouteType (page pathname : string) (route : Route)
  (requestUrl : option string) : M unit :=
  match route with
  | RoutePage htmlEndpoint dataEndpoint =>
      finish <- startBuilding pathname requestUrl false ;;
      try_finally
        (try_finally
           (app <- gets globalEntries_app ;;
            match app with
            | Some e =>
                writtenEndpoint <- materialize e ;;
                processIssues "_app" (we_issues writtenEndpoint) false
            | None => ret tt
            end ;;
            document <- gets globalEntries_document ;;
            match document with
            | Some e =>
                writtenEndpoint <- materialize e ;;
                processIssues "_document" (we_issues writtenEndpoint) false
            | None => ret tt
            end ;;
            writtenEndpoint <- materialize htmlEndpoint ;;
            processIssues page (we_issues writtenEndpoint) false)
           (changeSubscription page Server false (Some dataEndpoint) ;;
            changeSubscription page Client_ false (Some htmlEndpoint) ;;
            document <- gets globalEntries_document ;;
            match document with
            | Some e => changeSubscription "_document" Server false (Some e)
            | None => ret tt
            end))
        (call finish)
  | RoutePageApi endpoint =>
      finish <- startBuilding pathname requestUrl false ;;
      try_finally
        (writtenEndpoint <- materialize endpoint ;;
         processIssues page (we_issues writtenEndpoint) false)
        (call finish)
  | RouteAppPage pages =>
      let pageRoute := find_page page pages in
      finish <- startBuilding pathname requestUrl false ;;
      try_finally
        (match pageRoute with
         | None =>
             throw (TypeError
               "Cannot read properties of undefined (reading 'htmlEndpoint')")
         | Some pageRoute =>
             writtenEndpoint <- materialize (ap_htmlEndpoint pageRoute) ;;
             changeSubscription page Server true
               (Some (ap_rscEndpoint pageRoute)) ;;
             processIssues page (we_issues writtenEndpoint) true
         end)
        (call finish)
  | RouteAppRoute _ endpoint =>
      finish <- startBuilding pathname requestUrl false ;;
      try_finally
        (writtenEndpoint <- materialize endpoint ;;
         processIssues page (we_issues writtenEndpoint) true)
        (call finish)
  | RouteOther t =>
      throw (Error ("unknown route type " ++ t ++ " for " ++ page))
  end.

Record RouteDefinition := {
  rd_page : string;
  rd_pathname : option string
}.

(** The branch of [ensurePage] for [page === '/_error']. *)
Definition ensure_error_page (page pathname : string)
  (requestUrl : option string) : M unit :=
  finish <- startBuilding pathname requestUrl false ;;
  try_finally
    (app <- gets globalEntries_app ;;
     match app with
     | Some e =>
         writtenEndpoint <- materialize e ;;
         processIssues "_app" (we_issues writtenEndpoint) false
     | None => ret tt
     end ;;
     document <- gets globalEntries_document ;;
     match document with
     | Some e =>
         writtenEndpoint <- materialize e ;;
         changeSubscription "_document" Server false (Some e) ;;
         processIssues "_document" (we_issues writtenEndpoint) false
     | None => ret tt
     end ;;
     error <- gets globalEntries_error ;;
     match error with
     | Some e =>
         writtenEndpoint <- materialize e ;;
         processIssues page (we_issues writtenEndpoint) false
     | None => ret tt
     end)
    (call finish).

Definition optional_pages : list string :=
  [ "/_app"; "/_document"; "/middleware"; "/src/middleware";
    "/instrumentation"; "/src/instrumentation" ].

(** The directory lookup of [ensurePage]. *)
Definition lookup_route (definition : option RouteDefinition) (isApp : bool)
  (page : string) (w : World) : option Route :=
  match match definition with Some d => rd_pathname d | None => None end with
  | Some pathname =>
      if String.eqb pathname ""
      then if isApp then JsMap.get page (curAppEntries w)
           else JsMap.get page (curEntries w)
      else JsMap.get pathname (curEntries w)
  | None =>
      if isApp then JsMap.get page (curAppEntries w)
      else JsMap.get page (curEntries w)
  end.

(** The first test of [ensurePage]:
    [inputPage !== '/_error' && BLOCKED_PAGES.indexOf(inputPage) !== -1]. *)
Definition blocked (inputPage : string) : bool :=
  negb (String.eqb inputPage "/_error")
  && existsb (String.eqb inputPage) (BLOCKED_PAGES env).

(** [(definition ?? (await findPagePathData(...))).page] *)
Definition resolve_page (inputPage : string)
  (definition : option RouteDefinition) : Exn + string :=
  match definition with
  | Some d => inr (rd_page d)
  | None => findPagePathData env inputPage
  end.

(** [definition?.pathname ?? inputPage] *)
Definition request_pathname (inputPage : string)
  (definition : option RouteDefinition) : string :=
  match match definition with Some d => rd_pathname d | None => None end with
  | Some p => p
  | None => inputPage
  end.

Definition ensurePage (inputPage : string)
  (definition : option RouteDefinition) (isApp : bool)
  (requestUrl : option string) : M unit :=
  if blocked inputPage then ret tt
  else
    page <- match resolve_page inputPage definition with
            | inl e => throw e
            | inr p => ret p
            end ;;
    let pathname := request_pathname inputPage definition in
    if String.eqb page "/_error"
    then ensure_error_page page pathname requestUrl
    else
      route <- gets (lookup_route definition isApp page) ;;
      match route with
      | None =>
          if existsb (String.eqb page) optional_pages then ret tt
          else throw (PageNotFoundError ("route not found " ++ page))
      | Some route =>
          if isApp && String.eqb (route_type route) "page"
          then throw (Error
                 ("mis-matched route type: isApp && page for " ++ page))
          else handleRouteType page pathname route requestUrl
      end.

(** *** Changes reported by the engine *)

(** The [makePayload] closures handed to [changeSubscription]. *)
Inductive MakePayload : Type :=
| PageServerChanged (page : string)
| PageClientChanged
| DocumentChanged
| AppPageServerChanged (page : string)
| MiddlewareChanged (endpoint : Endpoint).

Definition makePayload (cb : MakePayload) (pageName : string)
  (change_issues : list Issue) : M (option HMR_ACTION) :=
  match cb with
  | PageServerChanged page =>
      modify (fun w =>
        set_build (buildingIds w) (JsSet.delete page (readyIds w)) w) ;;
      ret (Some (SERVER_ONLY_CHANGES [pageName]))
  | PageClientChanged => ret (Some CLIENT_CHANGES)
  | DocumentChanged => ret (Some RELOAD_PAGE)
  | AppPageServerChanged page =>
      if existsb (fun issue => String.eqb (severity issue) "error")
           change_issues
      then ret None
      else
        modify (fun w =>
          set_build (buildingIds w) (JsSet.delete page (readyIds w)) w) ;;
        ret (Some SERVER_COMPONENT_CHANGES)
  | MiddlewareChanged endpoint =>
      finish <- startBuilding "middleware" None true ;;
      processMiddleware endpoint ;;
      call finish ;;
      ret (Some MIDDLEWARE_CHANGES)
  end.

(** The body of the [for await] loop of [changeSubscription], for one
    change. *)
Definition on_change (page : string) (type : Phase) (cb : MakePayload)
  (change_issues : list Issue) : M unit :=
  processIssues page change_issues false ;;
  payload <- makePayload cb page change_issues ;;
  match payload with
  | Some payload =>
      sendHmr "endpoint-change" (subscription_key page type) payload
  | None => ret tt
  end.

End Program.

(** ** Vocabulary of the properties *)

(** *** Interleavings of the build tracker

    A run of the tracker is a list of events: a [startBuilding] call, or a
    call of the [n]-th completion handle returned so far (a handle can be
    called late, or more than once). *)

Inductive TrackerEvent : Type :=
| StartBuilding (id : string) (requestUrl : option string) (forceRebuild : bool)
| CallHandle (n : nat).

Definition forced (ev : TrackerEvent) : bool :=
  match ev with
  | StartBuilding _ _ forceRebuild => forceRebuild
  | CallHandle _ => false
  end.

Fixpoint run_tracker (evs : list TrackerEvent) (handles : list Handle)
  (w : World) : World :=
  match evs with
  | [] => w
  | StartBuilding id requestUrl forceRebuild :: rest =>
      match startBuilding id requestUrl forceRebuild w with
      | (Ok h, w') => run_tracker rest (handles ++ [h])%list w'
      | (Throw _, w') => run_tracker rest handles w'
      end
  | CallHandle n :: rest =>
      match nth_error handles n with
      | Some h => run_tracker rest handles (snd (call h w))
      | None => run_tracker rest handles w
      end
  end.

(** No key is in "building" and in "ready" at once. *)
Definition exclusive (w : World) : Prop :=
  forall id,
    ~ (JsSet.has id (buildingIds w) = true /\ JsSet.has id (readyIds w) = true).

(** *** The notification queue *)

(** [send] of each action in turn: every action goes to every client. *)
Definition broadcast (cs : JsSet.t Client) (actions : list HMR_ACTION)
  : list Effect :=
  flat_map (fun a => map (fun c => ClientSend c a) cs) actions.

(** The message that carries the batch of engine updates, if there is one. *)
Definition update_batch (updates : list TurbopackUpdate) : list HMR_ACTION :=
  match updates with
  | [] => []
  | _ => [TURBOPACK_MESSAGE updates]
  end.

Definition ledger_blocked (w : World) : bool :=
  existsb bucket_nonempty (JsMap.values (issues w)).

Definition coalescing_key (key id : string) : string := key ++ ":" ++ id.

Definition Enqueue : Type := string * string * HMR_ACTION.

Definition enqueue_key (e : Enqueue) : string :=
  let '(key, id, _) := e in coalescing_key key id.

(** The payload of the last enqueue made under the coalescing key [k]. *)
Fixpoint last_payload (k : string) (enqueues : list Enqueue)
  : option HMR_ACTION :=
  match enqueues with
  | [] => None
  | (key, id, payload) :: rest =>
      match last_payload k rest with
      | Some p => Some p
      | None =>
          if String.eqb k (coalescing_key key id) then Some payload else None
      end
  end.

(** The keyed enqueues of a burst, in order. *)
Definition enqueue_all (enqueues : list Enqueue) : M unit :=
  for_each enqueues (fun '(key, id, payload) => sendHmr key id payload).

(** The map the enqueues build, one [Map.set] each. *)
Definition coalesce (enqueues : list Enqueue) (m : JsMap.t string HMR_ACTION)
  : JsMap.t string HMR_ACTION :=
  fold_left (fun m e => JsMap.set (enqueue_key e) (snd e) m) enqueues m.

(** Whether [client] holds a raw subscription for [id]. *)
Definition subscribed (id : string) (client : Client) (w : World) : bool :=
  match JsMap.get client (clientToHmrSubscription w) with
  | Some mapping => JsMap.has id mapping
  | None => false
  end.

(** Events on the queue between two flushes that go through. *)
Inductive QueueEvent : Type :=
| Keyed (key id : string) (payload : HMR_ACTION)
| Unkeyed (payload : TurbopackUpdate)
| LedgerBecomes (i : Issues)
| FlushFires.

Definition is_flush (ev : QueueEvent) : bool :=
  match ev with FlushFires => true | _ => false end.

Definition queue_event (ev : QueueEvent) : M unit :=
  match ev with
  | Keyed key id payload => sendHmr key id payload
  | Unkeyed payload => sendTurbopackMessage payload
  | LedgerBecomes i => modify (set_issues i)
  | FlushFires => sendEnqueuedMessages
  end.

Definition run_queue (evs : list QueueEvent) (w : World) : World :=
  snd (for_each evs queue_event w).

(** Every flush of the run fires while some bucket is non-empty. *)
Fixpoint flushes_gated (evs : list QueueEvent) (i : Issues) : bool :=
  match evs with
  | [] => true
  | LedgerBecomes i' :: rest => flushes_gated rest i'
  | FlushFires :: rest =>
      existsb bucket_nonempty (JsMap.values i) && flushes_gated rest i
  | _ :: rest => flushes_gated rest i
  end.

(** *** The steps of a directory round

    What each of the three loops of [rebuild_and_diff] may change. *)

(** Populating the directory leaves registry and ledger alone. *)
Definition directory_populated (w w1 : World) : Prop :=
  changeSubscriptions w1 = changeSubscriptions w /\
  issues w1 = issues w /\
  (forall e, In e (effects w) -> In e (effects w1)).

(** Pruning the registry only removes subscriptions and adds effects. *)
Definition registry_pruned (w w1 : World) : Prop :=
  curEntries w1 = curEntries w /\ curAppEntries w1 = curAppEntries w /\
  issues w1 = issues w /\
  (forall key, JsMap.has key (changeSubscriptions w) = false ->
               JsMap.has key (changeSubscriptions w1) = false) /\
  (forall e, In e (effects w) -> In e (effects w1)).

(** The registry as the calls of [changeSubscription] make it: every key
    is [page (type)] for a page name that is not empty (the call sites pass
    ['middleware'], ['_document'] and the page of a route). *)
Definition registry_named (w : World) : Prop :=
  forall key,
    JsMap.has key (changeSubscriptions w) = true ->
    exists page type, key = subscription_key page type /\ page <> "".

(** A step that keeps the registry as the call sites make it. *)
Definition named_step (w w' : World) : Prop :=
  registry_named w -> registry_named w'.

(** Pruning the ledger only removes buckets. *)
Definition ledger_pruned (w w1 : World) : Prop :=
  curEntries w1 = curEntries w /\ curAppEntries w1 = curAppEntries w /\
  changeSubscriptions w1 = changeSubscriptions w /\
  effects w1 = effects w /\
  (forall page, JsMap.has page (issues w) = false ->
                JsMap.has page (issues w1) = false).

(** The world after each loop of [rebuild_and_diff]. *)
Definition populated (entrypoints : Entrypoints) (w : World) : World :=
  snd (for_each (routes entrypoints)
         (fun '(pathname, route) => add_route pathname route)
         (set_entries JsMap.empty JsMap.empty
            (set_globalEntries (pagesAppEndpoint entrypoints)
               (pagesDocumentEndpoint entrypoints)
               (pagesErrorEndpoint entrypoints) w))).

Definition subscriptions_pruned (entrypoints : Entrypoints) (w : World)
  : World :=
  let w1 := populated entrypoints w in
  snd (for_each (changeSubscriptions w1) prune_subscription w1).

(** *** Materializations *)

(** The endpoint [handleRouteType] writes to disk for the unit itself. *)
Definition unit_endpoint (page : string) (route : Route) : option Endpoint :=
  match route with
  | RoutePage htmlEndpoint _ => Some htmlEndpoint
  | RoutePageApi endpoint => Some endpoint
  | RouteAppPage pages =>
      match find_page page pages with
      | Some p => Some (ap_htmlEndpoint p)
      | None => None
      end
  | RouteAppRoute _ endpoint => Some endpoint
  | RouteOther _ => None
  end.

Definition effect_eqb (a b : Effect) : bool :=
  match a, b with
  | WriteToDisk e, WriteToDisk e' => Nat.eqb e e'
  | _, _ => false
  end.

(** How many times [endpoint.writeToDisk()] was called. *)
Definition materializations (e : Endpoint) (w : World) : nat :=
  length (filter (effect_eqb (WriteToDisk e)) (effects w)).

Definition is_set_loading (e : Effect) : bool :=
  match e with SetLoading _ _ _ => true | _ => false end.

(** A step is quiet when it leaves the build sets, the directory and the
    global entries as they are, sets no loading indicator and takes no
    materialization back. *)
Definition quiet (w w' : World) : Prop :=
  readyIds w' = readyIds w /\ buildingIds w' = buildingIds w /\
  curEntries w' = curEntries w /\ curAppEntries w' = curAppEntries w /\
  globalEntries_app w' = globalEntries_app w /\
  globalEntries_document w' = globalEntries_document w /\
  filter is_set_loading (effects w') = filter is_set_loading (effects w) /\
  forall e, materializations e w <= materializations e w'.

Definition runs_quiet {A} (m : M A) : Prop :=
  forall w, quiet w (snd (m w)).

Definition returns {A} (m : M A) : Prop :=
  forall w, exists a, fst (m w) = Ok a.

(** A quiet computation that materializes [e] at least once. *)
Definition writes {A} (e : Endpoint) (m : M A) : Prop :=
  forall w,
    quiet w (snd (m w)) /\
    S (materializations e w) <= materializations e (snd (m w)).

(** The kinds that throw on issues. *)
Definition throws_on_issue (route : Route) : bool :=
  match route with
  | RouteAppPage _ | RouteAppRoute _ _ => true
  | _ => false
  end.

(** ** Concrete inputs *)

Module Demo.

Definition boom : Issue :=
  {| severity := "error";
     filePath := "[project]/app/broken/route.ts";
     title := SText "boom";
     description := None; detail := None; source := None;
     documentationLink := "" |}.

Definition unused_import : Issue :=
  {| severity := "warning";
     filePath := "[project]/pages/about.tsx";
     title := SText "unused import";
     description := None; detail := None; source := None;
     documentationLink := "" |}.

(** An engine whose endpoint 1 reports [boom] and whose other endpoints
    report nothing. *)
Definition env : Env :=
  {| bold := fun s => s; red := fun s => s; green := fun s => s;
     decodeMagicIdentifiers := fun s => s;
     codeFrame := fun c _ _ => c;
     JSON_stringify := fun _ => "{}";
     BLOCKED_PAGES := ["/_document"; "/_app"; "/_error"];
     findPagePathData := fun p => inr p;
     writeToDisk := fun e =>
       {| we_issues := if Nat.eqb e 1 then [boom] else [];
          we_type := NodeJs |};
     instrumentationHook := false |}.

(** A directory with the app route [/broken] on endpoint 1 and the API
    route [/api/hello] on endpoint 2. *)
Definition directory : World :=
  set_entries
    [("/broken", RouteAppRoute "/broken/route" 1);
     ("/api/hello", RoutePageApi 2)]
    [("/broken/route", RouteAppRoute "/broken/route" 1)]
    initial.

(** [/api/hello] has been built once. *)
Definition hello_ready : World :=
  snd (ensurePage env "/api/hello" None false None directory).


Definition update (body : string) : TurbopackUpdate :=
  {| tu_type := "partial"; tu_issues := []; tu_body := body |}.

(** Clients 1 and 2 have connected, in this order. *)
Definition two_clients : World := snd (onHMR env 2 (snd (onHMR env 1 initial))).

(** Client 1 then subscribes to the raw updates of [/x]; the engine yields
    its initial item and one change; the debounced flush fires. *)
Definition raw_update_flushed : World :=
  snd (sendEnqueuedMessages
         (snd (subscribeToHmrEvents env "/x" 1
                 [Yield (update "initial"); Yield (update "change")]
                 two_clients))).

(** A registry holding one subscription, made for the empty page name. *)
Definition empty_name_subscribed : World :=
  snd (changeSubscription "" Server false (Some 3) initial).

(** The page [/about] (endpoints 4 and 5) has been built, which armed its
    two change subscriptions and recorded its bucket. *)
Definition about_built : World :=
  snd (ensurePage env "/about" None false None
         (set_entries [("/about", RoutePage 4 5)] [] initial)).

Definition no_entrypoints : Entrypoints :=
  {| routes := []; middleware := None; instrumentation := None;
     pagesAppEndpoint := None; pagesDocumentEndpoint := None;
     pagesErrorEndpoint := None |}.

(** Client 1 is connected and the build of [/broken] has failed, which left
    its issue in the ledger. *)
Definition broken_failed : World :=
  snd (ensurePage env "/broken" None false None (snd (onHMR env 1 directory))).

(** A change is enqueued and the flush fires, an update is enqueued and the
    flush fires again, and then the ledger is cleared. *)
Definition held_back : list QueueEvent :=
  [ Keyed "endpoint-change" "/about (server)" (SERVER_ONLY_CHANGES ["/about"]);
    FlushFires;
    Unkeyed (update "change");
    FlushFires;
    LedgerBecomes [] ].

(** A snapshot without routes whose middleware is endpoint 9. *)
Definition middleware_only : Entrypoints :=
  {| routes := []; middleware := Some 9; instrumentation := None;
     pagesAppEndpoint := None; pagesDocumentEndpoint := None;
     pagesErrorEndpoint := None |}.

(** The engine has reported one change of the middleware, and the callback
    of its subscription has run. *)
Definition middleware_rebuilt : World :=
  snd (on_change env "middleware" Server (MiddlewareChanged 9) [] initial).

(** Fifty enqueues that use five keys: the [n]-th is made for page
    [n mod 5] and carries [n] as its payload. *)
Definition page_name (n : nat) : string := "/p" ++ number_to_string n.

Definition fifty : list Enqueue :=
  map (fun n =>
         ("endpoint-change", page_name (n mod 5),
          SERVER_ONLY_CHANGES [number_to_string n]))
      (seq 0 50).

End Demo.

(** ** More of the hot reloader *)

(** *** Require-cache clearing

    [serverPathState] maps a server path, and the same path prefixed with
    the id of a unit, to the content hash last seen for it. *)

Record ServerPath := { sp_path : string; sp_contentHash : string }.

Inductive CacheEffect : Type :=
| DeleteAppClientCache
| ClearModuleContext (file : string)
| DeleteCache (file : string).

(** [s.endsWith(suffix)] *)
Fixpoint ends_with (suffix s : string) : bool :=
  String.eqb s suffix ||
  match s with
  | EmptyString => false
  | String _ s' => ends_with suffix s'
  end.

(** Truthiness of a hash read from the map: defined and not empty. *)
Definition truthy (h : option string) : bool :=
  match h with
  | Some s => negb (String.eqb s "")
  | None => false
  end.

Definition differs (h : option string) (contentHash : string) : bool :=
  match h with
  | Some s => negb (String.eqb s contentHash)
  | None => true
  end.

(** The loop of [handleRequireCacheClearing] over [result.serverPaths]. *)
Fixpoint record_server_paths (id : string) (serverPaths : list ServerPath)
  (hasChange : bool) (serverPathState : JsMap.t string string)
  : bool * JsMap.t string string :=
  match serverPaths with
  | [] => (hasChange, serverPathState)
  | {| sp_path := path; sp_contentHash := contentHash |} :: rest =>
      if ends_with ".map" path
      then record_server_paths id rest hasChange serverPathState
      else
        let key := id ++ ":" ++ path in
        let localHash := JsMap.get key serverPathState in
        let globalHash := JsMap.get path serverPathState in
        if (truthy localHash && differs localHash contentHash)
           || (truthy globalHash && differs globalHash contentHash)
        then
          record_server_paths id rest true
            (JsMap.set path contentHash
               (JsMap.set key contentHash serverPathState))
        else
          let st1 :=
            if truthy localHash then serverPathState
            else JsMap.set key contentHash serverPathState in
          let st2 :=
            if truthy globalHash then st1
            else JsMap.set path contentHash st1 in
          record_server_paths id rest hasChange st2
  end.

Section RequireCache.

(** [join] of the [path] module. *)
Variable join : string -> string -> string.
Variable distDir : string.

(** [handleRequireCacheClearing(id, result)]: the cache calls it makes and
    the new [serverPathState]; [result] is returned as it came. *)
Definition handleRequireCacheClearing (id : string)
  (serverPaths : list ServerPath) (serverPathState : JsMap.t string string)
  : list CacheEffect * JsMap.t string string :=
  let '(hasChange, st) :=
    record_server_paths id serverPaths false serverPathState in
  if negb hasChange then ([], st)
  else
    ((if existsb (fun p => String.prefix "server/app" (sp_path p)) serverPaths
      then [DeleteAppClientCache] else [])
     ++ flat_map (fun p =>
                    let file := join distDir (sp_path p) in
                    [ClearModuleContext file; DeleteCache file])
          serverPaths,
     st)%list.

End RequireCache.

(** The entries of a result that are no source maps. *)
Definition tracked (serverPaths : list ServerPath) : list ServerPath :=
  filter (fun p => negb (ends_with ".map" (sp_path p))) serverPaths.

(** The hash of [p] is the one recorded under both of its keys. *)
Definition settled (id : string) (st : JsMap.t string string)
  (p : ServerPath) : Prop :=
  JsMap.get (sp_path p) st = Some (sp_contentHash p) /\
  JsMap.get (id ++ ":" ++ sp_path p) st = Some (sp_contentHash p).

(** No path of the result occurs twice, and none reads as another one
    prefixed with the id. *)
Definition separate_keys (id : string) (serverPaths : list ServerPath)
  : Prop :=
  NoDup (map sp_path (tracked serverPaths)) /\
  forall p q, In p (tracked serverPaths) -> In q (tracked serverPaths) ->
              id ++ ":" ++ sp_path p <> sp_path q.

(** *** The loading indicator *)

(** The [loading] field of the console store after the effects [es], when
    it was [current] before. *)
Fixpoint loading_after (es : list Effect) (current : bool) : bool :=
  match es with
  | [] => current
  | SetLoading loading _ _ :: rest => loading_after rest loading
  | _ :: rest => loading_after rest current
  end.

Definition loading (w : World) : bool := loading_after (effects w) false.

(** *** Compilation errors *)

Section Errors.

Variable env : Env.

(** [hotReloader.getCompilationErrors(page)]: the messages of the errors
    it returns. *)
Definition getCompilationErrors (page : string) (w : World) : list string :=
  match JsMap.get page (issues w) with
  | Some thisPageIssues =>
      if negb (Nat.eqb (JsMap.size thisPageIssues) 0)
      then map (formatIssue env) (JsMap.values thisPageIssues)
      else ledger_errors env (issues w)
  | None => ledger_errors env (issues w)
  end.

Record CompilationError := {
  ce_message : string;
  ce_details : option string
}.

(** The loop of the [end] branch over one bucket. *)
Fixpoint built_errors_bucket (issueMap : list (string * Issue))
  (errors : JsMap.t string CompilationError)
  : JsMap.t string CompilationError :=
  match issueMap with
  | [] => errors
  | (key, issue) :: rest =>
      if JsMap.has key errors then built_errors_bucket rest errors
      else
        built_errors_bucket rest
          (JsMap.set key
             {| ce_message := formatIssue env issue;
                ce_details :=
                  match detail issue with
                  | Some d => Some (renderStyledStringToErrorAnsi env d)
                  | None => None
                  end |}
             errors)
  end.

(** The [errors] map the [end] branch of the update loop builds for its
    [BUILT] action. *)
Definition built_errors (i : Issues) : JsMap.t string CompilationError :=
  fold_left (fun errors issueMap => built_errors_bucket issueMap errors)
    (JsMap.values i) JsMap.empty.

End Errors.

(** The error the [end] branch makes of an issue. *)
Definition compilation_error (env : Env) (issue : Issue) : CompilationError :=
  {| ce_message := formatIssue env issue;
     ce_details :=
       match detail issue with
       | Some d => Some (renderStyledStringToErrorAnsi env d)
       | None => None
       end |}.

(** All entries of the ledger, bucket after bucket. *)
Definition ledger_entries (i : Issues) : list (string * Issue) :=
  flat_map (fun issueMap => issueMap) (JsMap.values i).

(** *** Raw subscriptions over a whole stream *)

Definition is_raise (item : StreamItem) : bool :=
  match item with Raise => true | Yield _ => false end.

(** The items the loop of [subscribeToHmrEvents] gets to see: those before
    the first exception. *)
Fixpoint before_raise (stream : list StreamItem) : list TurbopackUpdate :=
  match stream with
  | Yield data :: rest => data :: before_raise rest
  | _ => []
  end.

Definition forwarded (data : TurbopackUpdate) : bool :=
  negb (String.eqb (tu_type data) "issues").

(** *** Registry growth *)

(** The relation of a step that may add subscriptions, record issues, call
    the engine and touch nothing else of the notification queue. *)
Definition registry_grows (w w' : World) : Prop :=
  forall key, JsMap.has key (changeSubscriptions w) = true ->
              JsMap.has key (changeSubscriptions w') = true.

Definition runs {A} (R : World -> World -> Prop) (m : M A) : Prop :=
  forall w, R w (snd (m w)).

(** The relation of a step that leaves the registry as it is. *)
Definition registry_kept (w w' : World) : Prop :=
  changeSubscriptions w' = changeSubscriptions w.

(** What a directory round leaves alone. *)
Definition round_keeps (w w' : World) : Prop :=
  hmrPayloads w' = hmrPayloads w /\
  turbopackUpdates w' = turbopackUpdates w /\
  buildingIds w' = buildingIds w /\ readyIds w' = readyIds w /\
  clients w' = clients w /\ prevMiddleware w' = prevMiddleware w.

Definition has_middleware (entrypoints : Entrypoints) : bool :=
  match middleware entrypoints with Some _ => true | None => false end.

(** *** Messages of a client

    The [message] listener installed by [onHMR].  [JSON.parse] throws a
    [SyntaxError] on text that is no JSON; it gives [null], on which
    reading a property throws a [TypeError], or another value.  A property
    the listener reads is a string or another value, of which only the
    truthiness counts (an absent property is [undefined], which is falsy).
    Of a time only this counts: whether [Math.floor] of it is an integer,
    since [BigInt] throws a [RangeError] on [NaN] and on the infinities.
    The tracer that [span-end] and [client-hmr-latency] report to keeps no
    state of the hot reloader and is taken to return; [path] is taken to be
    a string. *)

Inductive JsValue : Type :=
| JsString (s : string)
| JsTruthy
| JsFalsy.

Definition is_truthy (v : JsValue) : bool :=
  match v with
  | JsString s => negb (String.eqb s "")
  | JsTruthy => true
  | JsFalsy => false
  end.

Record ParsedData := {
  pd_event : JsValue;
  pd_type : JsValue;
  pd_path : string;
  pd_startTime_floors : bool;
  pd_endTime_floors : bool
}.

Inductive Parsed : Type :=
| NotJson
| ParsedNull
| ParsedValue (parsedData : ParsedData).

(** [case] labels: a [switch] compares with [===]. *)
Definition is_case (labels : list string) (value : JsValue) : bool :=
  match value with
  | JsString v => existsb (String.eqb v) labels
  | _ => false
  end.

(** The events that report a span to the tracer. *)
Definition traced_events : list string :=
  [ "span-end"; "client-hmr-latency" ].

(** The events the first [switch] only breaks on. *)
Definition silent_events : list string :=
  [ "ping"; "client-error"; "client-warning"; "client-success";
    "server-component-reload-page"; "client-reload-page";
    "client-removed-page"; "client-full-reload"; "client-added-page" ].

Definition quoted (data : string) : string :=
  String (ascii_of_nat 34) (data ++ String (ascii_of_nat 34) "").

(** [msToNs(ms)], for what it does to the control flow. *)
Definition msToNs (floors : bool) : M unit :=
  if floors then ret tt else throw RangeError.

Definition onMessage (env : Env) (client : Client) (data : string)
  (parsed : Parsed) (stream : list StreamItem) : M unit :=
  match parsed with
  | NotJson => throw SyntaxError
  | ParsedNull =>
      throw (TypeError "Cannot read properties of null (reading 'event')")
  | ParsedValue parsedData =>
      (if is_case silent_events (pd_event parsedData) then ret tt
       else if is_case traced_events (pd_event parsedData)
       then msToNs (pd_startTime_floors parsedData) ;;
            msToNs (pd_endTime_floors parsedData)
       else if negb (is_truthy (pd_type parsedData))
       then throw (Error ("unrecognized HMR message " ++ quoted data))
       else ret tt) ;;
      if is_case ["turbopack-subscribe"] (pd_type parsedData)
      then subscribeToHmrEvents env (pd_path parsedData) client stream
      else if is_case ["turbopack-unsubscribe"] (pd_type parsedData)
      then unsubscribeToHmrEvents (pd_path parsedData) client
      else if negb (is_truthy (pd_event parsedData))
      then throw
             (Error ("unrecognized Turbopack HMR message " ++ quoted data))
      else ret tt
  end.

(** The messages the listener throws on. *)
Definition unrecognized (parsed : Parsed) : bool :=
  match parsed with
  | NotJson | ParsedNull => true
  | ParsedValue parsedData =>
      is_case traced_events (pd_event parsedData)
      && negb (pd_startTime_floors parsedData
               && pd_endTime_floors parsedData)
      || negb (is_case (silent_events ++ traced_events)%list
                 (pd_event parsedData))
         && negb (is_truthy (pd_type parsedData))
      || negb (is_case ["turbopack-subscribe"; "turbopack-unsubscribe"]
                 (pd_type parsedData))
         && negb (is_truthy (pd_event parsedData))
  end.

(** The messages that ask for a raw subscription or for its end. *)
Definition is_turbopack_request (parsed : Parsed) : bool :=
  match parsed with
  | ParsedValue parsedData =>
      is_case ["turbopack-subscribe"; "turbopack-unsubscribe"]
        (pd_type parsedData)
  | _ => false
  end.

Definition is_throw {A : Type} (r : Result A) : bool :=
  match r with Throw _ => true | Ok _ => false end.

(** ** Manifests: [turbopack-utils.ts]

    The merge functions of
    [packages/next/src/server/dev/turbopack-utils.ts] fold the manifests of
    the units into the one that is written to disk.  A manifest is a plain
    object used as a dictionary: [Object.assign] and an assignment to a
    property keep the place of a key that is present and add a new key
    last, as [JsMap.set] does.  An iterable of manifests is the list of its
    items.  The values of a dictionary that the code copies and never
    inspects are of any type. *)

Module TurbopackUtils.

Definition Dict (V : Type) : Type := JsMap.t string V.

(** [Object.assign(target, source)] *)
Definition Object_assign {V : Type} (target source : Dict V) : Dict V :=
  fold_left (fun acc kv => JsMap.set (fst kv) (snd kv) acc) source target.

(** *** Build manifests *)

Record BuildManifest : Type := {
  bm_pages : Dict (list string);
  devFiles : list string;
  ampDevFiles : list string;
  polyfillFiles : list string;
  lowPriorityFiles : list string;
  rootMainFiles : list string;
  ampFirstPages : list string
}.

Definition mergeBuildManifests (manifests : list BuildManifest)
  : BuildManifest :=
  fold_left
    (fun manifest m =>
       {| bm_pages := Object_assign (bm_pages manifest) (bm_pages m);
          devFiles := devFiles manifest;
          ampDevFiles := ampDevFiles manifest;
          polyfillFiles := polyfillFiles manifest;
          lowPriorityFiles := lowPriorityFiles manifest;
          rootMainFiles :=
            if Nat.eqb (length (rootMainFiles m)) 0
            then rootMainFiles manifest
            else rootMainFiles m;
          ampFirstPages := ampFirstPages manifest |})
    manifests
    {| bm_pages := [("/_app", [])];
       devFiles := [];
       ampDevFiles := [];
       polyfillFiles := [];
       lowPriorityFiles :=
         ["static/development/_ssgManifest.js";
          "static/development/_buildManifest.js"];
       rootMainFiles := [];
       ampFirstPages := [] |}.

Record AppBuildManifest : Type := {
  abm_pages : Dict (list string)
}.

Definition mergeAppBuildManifests (manifests : list AppBuildManifest)
  : AppBuildManifest :=
  fold_left
    (fun manifest m =>
       {| abm_pages := Object_assign (abm_pages manifest) (abm_pages m) |})
    manifests {| abm_pages := [] |}.

(** *** Pages and loadable manifests *)

Definition PagesManifest : Type := Dict string.

Definition mergePagesManifests (manifests : list PagesManifest)
  : PagesManifest :=
  fold_left (fun manifest m => Object_assign manifest m) manifests [].

Definition mergeLoadableManifests {V : Type} (manifests : list (Dict V))
  : Dict V :=
  fold_left (fun manifest m => Object_assign manifest m) manifests [].

(** *** Middleware manifests

    Of a matcher and of a function definition, the fields the merge reads
    or writes, and the name and page that identify a definition; the
    others ride along in the spread. *)

Record MiddlewareMatcher : Type := {
  regexp : option string;
  originalSource : string
}.

Record EdgeFunctionDefinition : Type := {
  files : list string;
  name : string;
  page : string;
  matchers : list MiddlewareMatcher
}.

Record InstrumentationDefinition : Type := {
  instrumentation_files : list string
}.

Record MiddlewareManifest : Type := {
  version : nat;
  middleware : Dict EdgeFunctionDefinition;
  sortedMiddleware : list string;
  functions : Dict EdgeFunctionDefinition
}.

Record TurbopackMiddlewareManifest : Type := {
  base : MiddlewareManifest;
  instrumentation : option InstrumentationDefinition
}.

(** [for (const key of Object.keys(d)) d[key] = f(d[key])] *)
Definition update_each {V : Type} (f : V -> V) (d : Dict V) : Dict V :=
  fold_left
    (fun acc key =>
       match JsMap.get key acc with
       | Some value => JsMap.set key (f value) acc
       | None => acc
       end)
    (JsMap.keys d) d.

Definition updateFunctionDefinition
  (instrumentation : option InstrumentationDefinition)
  (fun_ : EdgeFunctionDefinition) : EdgeFunctionDefinition :=
  {| files :=
       (match instrumentation with
        | Some i => instrumentation_files i
        | None => []
        end ++ files fun_)%list;
     name := name fun_;
     page := page fun_;
     matchers := matchers fun_ |}.

Section Middleware.

(** [pathToRegexp(source, [], { delimiter: '/', sensitive: false,
    strict: true }).source] *)
Variable pathToRegexp_source : string -> string.

(** The body of the loop over the matchers of a definition. *)
Definition fill_regexp (matcher : MiddlewareMatcher) : MiddlewareMatcher :=
  if negb (truthy (regexp matcher))
  then {| regexp :=
            Some (replaceAll "\/" "/"
                    (pathToRegexp_source (originalSource matcher)));
          originalSource := originalSource matcher |}
  else matcher.

(** The loop over [Object.values(manifest.functions)] and
    [Object.values(manifest.middleware)] writes into the matcher objects in
    place; what a dictionary then holds under a key is the definition it
    held, with each matcher filled. *)
Definition fill_matchers (d : Dict EdgeFunctionDefinition)
  : Dict EdgeFunctionDefinition :=
  map (fun kv =>
         (fst kv,
          {| files := files (snd kv);
             name := name (snd kv);
             page := page (snd kv);
             matchers := map fill_regexp (matchers (snd kv)) |}))
      d.

Definition mergeMiddlewareManifests
  (manifests : list TurbopackMiddlewareManifest) : MiddlewareManifest :=
  let '(functions0, middleware0, instrumentation0) :=
    fold_left
      (fun acc m =>
         let '(fs, mw, ins) := acc in
         (Object_assign fs (functions (base m)),
          Object_assign mw (middleware (base m)),
          match instrumentation m with
          | Some i => Some i
          | None => ins
          end))
      manifests ([], [], None) in
  let middleware1 :=
    update_each (updateFunctionDefinition instrumentation0) middleware0 in
  let functions1 :=
    update_each (updateFunctionDefinition instrumentation0) functions0 in
  let functions2 := fill_matchers functions1 in
  let middleware2 := fill_matchers middleware1 in
  {| version := 2;
     middleware := middleware2;
     sortedMiddleware := JsMap.keys middleware2;
     functions := functions2 |}.

End Middleware.

(** *** Server action manifests *)

Record ActionEntry : Type := {
  workers : Dict string;
  layer : Dict string
}.

Record ActionManifest : Type := {
  node : Dict ActionEntry;
  edge : Dict ActionEntry;
  encryptionKey : string
}.

Definition mergeActionIds (actionEntries other : Dict ActionEntry)
  : Dict ActionEntry :=
  fold_left
    (fun acc key =>
       match JsMap.get key other with
       | Some entry =>
           let action :=
             match JsMap.get key acc with
             | Some a => a
             | None => {| workers := []; layer := [] |}
             end in
           JsMap.set key
             {| workers := Object_assign (workers action) (workers entry);
                layer := Object_assign (layer action) (layer entry) |}
             acc
       | None => acc
       end)
    (JsMap.keys other) actionEntries.

(** [generated] is what [generateRandomActionKeyRaw(true)] resolved to. *)
Definition mergeActionManifests (generated : string)
  (manifests : list ActionManifest) : ActionManifest :=
  fold_left
    (fun manifest m =>
       {| node := mergeActionIds (node manifest) (node m);
          edge := mergeActionIds (edge manifest) (edge m);
          encryptionKey := encryptionKey manifest |})
    manifests
    {| node := []; edge := []; encryptionKey := generated |}.

(** *** Font manifests *)

Record NextFontManifest : Type := {
  font_app : Dict (list string);
  appUsingSizeAdjust : bool;
  font_pages : Dict (list string);
  pagesUsingSizeAdjust : bool
}.

Definition mergeFontManifests (manifests : list NextFontManifest)
  : NextFontManifest :=
  fold_left
    (fun manifest m =>
       {| font_app := Object_assign (font_app manifest) (font_app m);
          appUsingSizeAdjust :=
            appUsingSizeAdjust manifest || appUsingSizeAdjust m;
          font_pages := Object_assign (font_pages manifest) (font_pages m);
          pagesUsingSizeAdjust :=
            pagesUsingSizeAdjust manifest || pagesUsingSizeAdjust m |})
    manifests
    {| font_app := [];
       appUsingSizeAdjust := false;
       font_pages := [];
       pagesUsingSizeAdjust := false |}.

(** *** The path of a partial manifest *)

Inductive ManifestType : Type :=
| type_pages
| type_app
| type_app_route
| type_middleware
| type_instrumentation.

Definition type_name (type : ManifestType) : string :=
  match type with
  | type_pages => "pages"
  | type_app => "app"
  | type_app_route => "app-route"
  | type_middleware => "middleware"
  | type_instrumentation => "instrumentation"
  end.

(** The arguments [readPartialManifest] hands to [posix.join] to build
    [manifestPath]. *)
Definition manifestPath_arguments (distDir name pageName : string)
  (type : ManifestType) : list string :=
  [ distDir;
    "server";
    match type with type_app_route => "app" | _ => type_name type end;
    match type with
    | type_middleware | type_instrumentation => ""
    | _ =>
        if String.eqb pageName "/" then "index"
        else if String.eqb pageName "/index"
                || String.prefix "/index/" pageName
        then "/index" ++ pageName
        else pageName
    end;
    match type with
    | type_app => "page"
    | type_app_route => "route"
    | _ => ""
    end;
    name ].

End TurbopackUtils.

(** *** Reading a merged manifest *)

(** The last item of a list that passes a test. *)
Definition last_with {A : Type} (test : A -> bool) (l : list A) : option A :=
  find test (rev l).

(** What the last dictionary that has the key holds under it. *)
Definition last_value {A V : Type} (dict : A -> TurbopackUtils.Dict V)
  (k : string) (l : list A) : option V :=
  match last_with (fun m => JsMap.has k (dict m)) l with
  | Some m => JsMap.get k (dict m)
  | None => None
  end.

(** A dictionary as a JavaScript object has it: one entry per key. *)
Definition one_entry_per_key {V : Type} (d : TurbopackUtils.Dict V) : Prop :=
  NoDup (JsMap.keys d).

Definition is_some {A : Type} (o : option A) : bool :=
  match o with Some _ => true | None => false end.

(** The worker (or layer) recorded for an action id. *)
Definition action_field
  (field : TurbopackUtils.ActionEntry -> TurbopackUtils.Dict string)
  (id key : string) (d : TurbopackUtils.Dict TurbopackUtils.ActionEntry)
  : option string :=
  match JsMap.get id d with
  | Some a => JsMap.get key (field a)
  | None => None
  end.

(** The types whose manifests are stored under the page name. *)
Definition stored_by_page (type : TurbopackUtils.ManifestType) : bool :=
  match type with
  | TurbopackUtils.type_middleware | TurbopackUtils.type_instrumentation =>
      false
  | _ => true
  end.

(** The files of the last manifest that has an instrumentation. *)
Definition last_instrumentation_files
  (manifests : list TurbopackUtils.TurbopackMiddlewareManifest)
  : list string :=
  match
    last_with (fun m => is_some (TurbopackUtils.instrumentation m)) manifests
  with
  | Some m =>
      match TurbopackUtils.instrumentation m with
      | Some i => TurbopackUtils.instrumentation_files i
      | None => []
      end
  | None => []
  end.

(** * Properties *)

(** ** Containers *)

Lemma keqb_refl {K} `{EqKey K} (x : K) : keqb x x = true.
Proof. now apply keqb_eq. Qed.

Lemma keqb_neq {K} `{EqKey K} (x y : K) : keqb x y = false <-> x <> y.
Proof.
  split.
  - intros E ->. rewrite keqb_refl in E. discriminate.
  - intros N. destruct (keqb x y) eqn:E; [|reflexivity].
    apply keqb_eq in E. contradiction.
Qed.

Section SetFacts.
Context {K : Type} `{EqKey K}.

Lemma set_has_In (k : K) (s : JsSet.t K) : JsSet.has k s = true <-> In k s.
Proof.
  induction s as [|k' s IH]; simpl.
  - split; [discriminate | contradiction].
  - rewrite orb_true_iff, IH, keqb_eq. split; intros [E|E]; auto.
Qed.

Lemma set_has_app (k : K) (s1 s2 : JsSet.t K) :
  JsSet.has k (s1 ++ s2)%list = JsSet.has k s1 || JsSet.has k s2.
Proof.
  induction s1 as [|k' s1 IH]; simpl; [reflexivity|].
  now rewrite IH, orb_assoc.
Qed.

Lemma set_has_add (k k' : K) (s : JsSet.t K) :
  JsSet.has k (JsSet.add k' s) = keqb k k' || JsSet.has k s.
Proof.
  unfold JsSet.add. destruct (JsSet.has k' s) eqn:E.
  - destruct (keqb k k') eqn:Ek; [|reflexivity].
    apply keqb_eq in Ek. subst. now rewrite E.
  - rewrite set_has_app. simpl. rewrite orb_false_r. apply orb_comm.
Qed.

Lemma set_has_delete (k k' : K) (s : JsSet.t K) :
  JsSet.has k (JsSet.delete k' s) = negb (keqb k k') && JsSet.has k s.
Proof.
  induction s as [|x s IH]; simpl.
  - now rewrite andb_false_r.
  - destruct (keqb k' x) eqn:E.
    + apply keqb_eq in E. subst x. rewrite IH.
      destruct (keqb k k'); reflexivity.
    + simpl. rewrite IH. destruct (keqb k k') eqn:Ek; simpl; [|reflexivity].
      apply keqb_eq in Ek. subst k'. now rewrite E.
Qed.

Lemma set_In_add (k k' : K) (s : JsSet.t K) :
  In k (JsSet.add k' s) <-> k = k' \/ In k s.
Proof.
  rewrite <- !set_has_In, set_has_add, orb_true_iff, keqb_eq. reflexivity.
Qed.

Lemma set_size_add (k : K) (s : JsSet.t K) :
  Nat.eqb (JsSet.size (JsSet.add k s)) 0 = false.
Proof.
  apply Nat.eqb_neq. intros E.
  assert (I : In k (JsSet.add k s)) by (apply set_In_add; now left).
  unfold JsSet.size in E. apply length_zero_iff_nil in E.
  rewrite E in I. contradiction.
Qed.
End SetFacts.

Section MapFacts.
Context {K V : Type} `{EqKey K}.

Lemma map_get_set_same (k : K) (v : V) (m : JsMap.t K V) :
  JsMap.get k (JsMap.set k v m) = Some v.
Proof.
  induction m as [|[k' v'] m IH]; simpl.
  - now rewrite keqb_refl.
  - destruct (keqb k k') eqn:E; simpl.
    + now rewrite keqb_refl.
    + now rewrite E.
Qed.

Lemma map_get_set_other (k k' : K) (v : V) (m : JsMap.t K V) :
  k' <> k -> JsMap.get k' (JsMap.set k v m) = JsMap.get k' m.
Proof.
  intros N. apply keqb_neq in N.
  induction m as [|[x v'] m IH]; simpl.
  - now rewrite N.
  - destruct (keqb k x) eqn:E; simpl.
    + apply keqb_eq in E. subst x. now rewrite N.
    + now rewrite IH.
Qed.

Lemma map_get_delete (k k' : K) (m : JsMap.t K V) :
  JsMap.get k' (JsMap.delete k m) =
  if keqb k' k then None else JsMap.get k' m.
Proof.
  induction m as [|[x v'] m IH]; simpl.
  - now destruct (keqb k' k).
  - destruct (keqb k x) eqn:E.
    + apply keqb_eq in E. subst x. rewrite IH.
      now destruct (keqb k' k).
    + simpl. rewrite IH. destruct (keqb k' k) eqn:Ek; [|reflexivity].
      apply keqb_eq in Ek. subst k'. now rewrite E.
Qed.

Lemma map_has_delete (k k' : K) (m : JsMap.t K V) :
  JsMap.has k' (JsMap.delete k m) = negb (keqb k' k) && JsMap.has k' m.
Proof.
  unfold JsMap.has. rewrite map_get_delete. now destruct (keqb k' k).
Qed.

Lemma map_get_In (k : K) (v : V) (m : JsMap.t K V) :
  JsMap.get k m = Some v -> In (k, v) m.
Proof.
  induction m as [|[k' v'] m IH]; simpl; [discriminate|].
  destruct (keqb k k') eqn:E.
  - apply keqb_eq in E. subst. intros [= ->]. now left.
  - auto.
Qed.

Lemma map_has_keys (k : K) (m : JsMap.t K V) :
  JsMap.has k m = true <-> In k (JsMap.keys m).
Proof.
  unfold JsMap.has, JsMap.keys.
  induction m as [|[k' v'] m IH]; simpl.
  - split; [discriminate | contradiction].
  - destruct (keqb k k') eqn:E.
    + apply keqb_eq in E. subst. split; auto.
    + rewrite IH. apply keqb_neq in E. split; [auto|].
      intros [E'|I]; [congruence | exact I].
Qed.

Lemma map_keys_set (k : K) (v : V) (m : JsMap.t K V) :
  JsMap.keys (JsMap.set k v m) =
  if JsMap.has k m then JsMap.keys m else (JsMap.keys m ++ [k])%list.
Proof.
  unfold JsMap.has, JsMap.keys.
  induction m as [|[k' v'] m IH]; simpl; [reflexivity|].
  destruct (keqb k k') eqn:E; simpl.
  - apply keqb_eq in E. now subst.
  - rewrite IH. now destruct (JsMap.get k m).
Qed.
End MapFacts.

(** ** Build tracker *)

Lemma startBuilding_unforced_exclusive id requestUrl w :
  exclusive w ->
  exclusive (snd (startBuilding id requestUrl false w)).
Proof.
  intros X. unfold startBuilding. simpl.
  destruct (JsSet.has id (readyIds w)) eqn:R; simpl; [exact X|].
  intros id0 [B R0].
  assert (B' : JsSet.has id0 (JsSet.add id (buildingIds w)) = true)
    by (destruct (Nat.eqb (JsSet.size (buildingIds w)) 0); exact B).
  assert (R' : JsSet.has id0 (readyIds w) = true)
    by (destruct (Nat.eqb (JsSet.size (buildingIds w)) 0); exact R0).
  rewrite set_has_add in B'. apply orb_true_iff in B'.
  destruct B' as [E|B'].
  - apply keqb_eq in E. subst id0. congruence.
  - apply (X id0). now split.
Qed.

Lemma finishBuilding_exclusive id w :
  exclusive w -> exclusive (snd (finishBuilding id w)).
Proof.
  intros X. unfold finishBuilding.
  destruct (Nat.eqb (JsSet.size (buildingIds w)) 0); simpl; [exact X|].
  intros id0 [B R].
  assert (B' : JsSet.has id0 (JsSet.delete id (buildingIds w)) = true).
  { destruct (Nat.eqb (JsSet.size (JsSet.delete id (buildingIds w))) 0);
      exact B. }
  assert (R' : JsSet.has id0 (JsSet.add id (readyIds w)) = true).
  { destruct (Nat.eqb (JsSet.size (JsSet.delete id (buildingIds w))) 0);
      exact R. }
  rewrite set_has_delete in B'. rewrite set_has_add in R'.
  destruct (keqb id0 id); simpl in *; [discriminate|].
  apply (X id0). now split.
Qed.

Lemma call_exclusive h w : exclusive w -> exclusive (snd (call h w)).
Proof.
  destruct h; simpl; [auto | apply finishBuilding_exclusive].
Qed.

Lemma run_tracker_unforced_exclusive evs :
  forall handles w,
    forallb (fun ev => negb (forced ev)) evs = true ->
    exclusive w ->
    exclusive (run_tracker evs handles w).
Proof.
  induction evs as [|ev evs IH]; intros handles w U X; simpl; [exact X|].
  simpl in U. apply andb_true_iff in U. destruct U as [Uev U].
  destruct ev as [id url force | n]; simpl in Uev.
  - destruct force; [discriminate|].
    pose proof (startBuilding_unforced_exclusive id url X) as X'.
    destruct (startBuilding id url false w) as [[h|e] w']; simpl in X';
      now apply IH.
  - destruct (nth_error handles n) as [h|]; apply IH; auto.
    now apply call_exclusive.
Qed.

Lemma initial_exclusive : exclusive initial.
Proof. intros id [B _]. discriminate B. Qed.

(** C2, as the code has it.  In every state the tracker reaches from the
    initial one through [startBuilding] calls without [forceRebuild] and
    calls of the completion handles they returned, no key is in "building"
    and in "ready" at once; a [startBuilding] with [forceRebuild] made there
    returns a completion handle, puts the key in "building" and leaves
    "ready" as it was. *)
Theorem unforced_tracker_exclusive :
  forall evs id requestUrl,
    forallb (fun ev => negb (forced ev)) evs = true ->
    let w := run_tracker evs [] initial in
    exclusive w /\
    fst (startBuilding id requestUrl true w) = Ok (FinishBuilding id) /\
    readyIds (snd (startBuilding id requestUrl true w)) = readyIds w /\
    JsSet.has id (buildingIds (snd (startBuilding id requestUrl true w)))
      = true.
Proof.
  intros evs id url U w. split; [|split; [|split]].
  - apply run_tracker_unforced_exclusive; [exact U | exact initial_exclusive].
  - reflexivity.
  - unfold startBuilding. simpl.
    now destruct (Nat.eqb (JsSet.size (buildingIds w)) 0).
  - unfold startBuilding. simpl.
    destruct (Nat.eqb (JsSet.size (buildingIds w)) 0); simpl;
      rewrite set_has_add, keqb_refl; reflexivity.
Qed.

Lemma unforced_tracker_exclusive_witness :
  let w :=
    run_tracker
      [StartBuilding "/about" None false; StartBuilding "/blog" None false;
       CallHandle 0; StartBuilding "/about" None false; CallHandle 1]
      [] initial in
  exclusive w /\
  fst (startBuilding "/about" None true w) = Ok (FinishBuilding "/about") /\
  readyIds (snd (startBuilding "/about" None true w)) = readyIds w /\
  JsSet.has "/about" (buildingIds (snd (startBuilding "/about" None true w)))
    = true.
Proof.
  apply (unforced_tracker_exclusive
           [StartBuilding "/about" None false; StartBuilding "/blog" None false;
            CallHandle 0; StartBuilding "/about" None false; CallHandle 1]
           "/about" None).
  reflexivity.
Defined.

(** C2 as stated fails: a unit that is ready and is then rebuilt with
    [forceRebuild] is in "building" and in "ready" together. *)
Lemma forced_rebuild_in_both_sets :
  ~ exclusive
      (run_tracker
         [StartBuilding "/about" None false; CallHandle 0;
          StartBuilding "/about" None true]
         [] initial).
Proof.
  intros X. apply (X "/about"). split; reflexivity.
Qed.

(** The program makes such a call: the callback of the middleware
    subscription starts every rebuild with [forceRebuild], and from its
    second run on "middleware" is ready when it does. *)
Remark middleware_rebuild_starts_in_both_sets :
  let w := snd (startBuilding "middleware" None true Demo.middleware_rebuilt) in
  JsSet.has "middleware" (readyIds Demo.middleware_rebuilt) = true /\
  JsSet.has "middleware" (buildingIds w) = true /\
  JsSet.has "middleware" (readyIds w) = true.
Proof. vm_compute. auto. Qed.

(** ** Issue ledger *)

Section Ledger.
Variable env : Env.

Lemma loop_bucket_sound result :
  forall newIssues relevantIssues k i,
    JsMap.get k (fst (processIssues_loop env result newIssues relevantIssues))
      = Some i ->
    JsMap.get k newIssues = Some i \/
    (In i result /\ is_error_or_fatal i = true /\ k = issueKey env i).
Proof.
  induction result as [|issue rest IH]; intros n r k i G; simpl in G.
  - now left.
  - destruct (is_error_or_fatal issue) eqn:S; simpl in G.
    + assert (G' : JsMap.get k (JsMap.set (issueKey env issue) issue n)
                     = Some i \/
                   (In i rest /\ is_error_or_fatal i = true
                    /\ k = issueKey env i)).
      { destruct (in_node_modules (filePath issue)); apply IH in G; exact G. }
      destruct G' as [G'|(I & S' & E)]; [|right; simpl; auto].
      destruct (String.eqb_spec k (issueKey env issue)) as [->|N].
      * rewrite map_get_set_same in G'. injection G' as <-.
        right. simpl. auto.
      * rewrite map_get_set_other in G' by exact N. now left.
    + apply IH in G. destruct G as [G|(I & S' & E)]; [now left|].
      right. simpl. auto.
Qed.

Lemma loop_bucket_mono result :
  forall newIssues relevantIssues k,
    JsMap.has k newIssues = true ->
    JsMap.has k (fst (processIssues_loop env result newIssues relevantIssues))
      = true.
Proof.
  induction result as [|issue rest IH]; intros n r k Hk; simpl; [exact Hk|].
  assert (Hk' : JsMap.has k (JsMap.set (issueKey env issue) issue n) = true).
  { unfold JsMap.has in *.
    destruct (String.eqb_spec k (issueKey env issue)) as [->|N].
    - now rewrite map_get_set_same.
    - now rewrite map_get_set_other. }
  destruct (is_error_or_fatal issue); simpl; [|now apply IH].
  destruct (in_node_modules (filePath issue)); now apply IH.
Qed.

Lemma loop_bucket_complete result :
  forall newIssues relevantIssues i,
    In i result -> is_error_or_fatal i = true ->
    JsMap.has (issueKey env i)
      (fst (processIssues_loop env result newIssues relevantIssues)) = true.
Proof.
  induction result as [|issue rest IH]; intros n r i I S; [contradiction|].
  simpl. destruct I as [->|I].
  - rewrite S. simpl.
    assert (Hk : JsMap.has (issueKey env i) (JsMap.set (issueKey env i) i n)
                 = true)
      by (unfold JsMap.has; now rewrite map_get_set_same).
    destruct (in_node_modules (filePath i)); now apply loop_bucket_mono.
  - destruct (is_error_or_fatal issue); simpl; [|now apply IH].
    destruct (in_node_modules (filePath issue)); now apply IH.
Qed.

Lemma loop_relevant_sound result :
  forall newIssues relevantIssues x,
    In x (snd (processIssues_loop env result newIssues relevantIssues)) ->
    In x relevantIssues \/
    exists i, In i result /\ is_error_or_fatal i = true /\
              in_node_modules (filePath i) = false /\ x = formatIssue env i.
Proof.
  induction result as [|issue rest IH]; intros n r x I; simpl in I.
  - now left.
  - destruct (is_error_or_fatal issue) eqn:S; simpl in I.
    + destruct (in_node_modules (filePath issue)) eqn:NM.
      * apply IH in I. destruct I as [I|(i & I & Hi)]; [now left|].
        right. exists i. simpl. tauto.
      * apply IH in I. destruct I as [I|(i & I & Hi)].
        -- apply set_In_add in I. destruct I as [->|I]; [|now left].
           right. exists issue. simpl. auto.
        -- right. exists i. simpl. tauto.
    + apply IH in I. destruct I as [I|(i & I & Hi)]; [now left|].
      right. exists i. simpl. tauto.
Qed.

Lemma loop_relevant_mono result :
  forall newIssues relevantIssues x,
    In x relevantIssues ->
    In x (snd (processIssues_loop env result newIssues relevantIssues)).
Proof.
  induction result as [|issue rest IH]; intros n r x I; simpl; [exact I|].
  destruct (is_error_or_fatal issue); simpl; [|now apply IH].
  destruct (in_node_modules (filePath issue)); apply IH; [exact I|].
  apply set_In_add. now right.
Qed.

Lemma loop_relevant_complete result :
  forall newIssues relevantIssues i,
    In i result -> is_error_or_fatal i = true ->
    in_node_modules (filePath i) = false ->
    In (formatIssue env i)
       (snd (processIssues_loop env result newIssues relevantIssues)).
Proof.
  induction result as [|issue rest IH]; intros n r i I S NM; [contradiction|].
  simpl. destruct I as [->|I].
  - rewrite S, NM. simpl. apply loop_relevant_mono, set_In_add. now left.
  - destruct (is_error_or_fatal issue); simpl; [|now apply IH].
    destruct (in_node_modules (filePath issue)); now apply IH.
Qed.

(** What a call of [processIssues] does to the world and what it returns. *)
Lemma processIssues_run name result throwIssue w :
  let bucket := fst (processIssues_loop env result [] []) in
  let relevant := snd (processIssues_loop env result [] []) in
  processIssues env name result throwIssue w =
  (if negb (Nat.eqb (JsSet.size relevant) 0) && throwIssue
   then Throw (ModuleBuildError (String.concat (nl ++ nl) relevant))
   else Ok tt,
   set_issues (JsMap.set name bucket (issues w)) w).
Proof.
  unfold processIssues, JsMap.empty, JsSet.empty.
  destruct (processIssues_loop env result [] []) as [bucket relevant].
  simpl. unfold bind, modify.
  now destruct (negb (Nat.eqb (JsSet.size relevant) 0) && throwIssue).
Qed.

End Ledger.

(** C4, as the code has it.  Recording a result for a unit puts a fresh
    bucket in its place, computed from the result alone, and leaves the other
    buckets alone; the bucket holds the error and fatal issues of the result
    under their issue keys and nothing else, so warnings and infos are not
    kept; and the call throws only when asked to and when some error or fatal
    issue of the result lies outside [node_modules]. *)
Theorem processIssues_records_blocking_issues :
  forall env name result throwIssue w,
    let r := fst (processIssues env name result throwIssue w) in
    let w' := snd (processIssues env name result throwIssue w) in
    let bucket := fst (processIssues_loop env result [] []) in
    JsMap.get name (issues w') = Some bucket /\
    (forall other, other <> name ->
       JsMap.get other (issues w') = JsMap.get other (issues w)) /\
    (forall k i, JsMap.get k bucket = Some i ->
       In i result /\ is_error_or_fatal i = true /\ k = issueKey env i) /\
    (forall i, In i result -> is_error_or_fatal i = true ->
       JsMap.has (issueKey env i) bucket = true) /\
    (r = Ok tt \/
     exists msg i,
       r = Throw (ModuleBuildError msg) /\ throwIssue = true /\
       In i result /\ is_error_or_fatal i = true /\
       in_node_modules (filePath i) = false).
Proof.
  intros env name result throwIssue w. cbv zeta.
  rewrite processIssues_run. simpl.
  split; [apply map_get_set_same|].
  split; [intros other N; now apply map_get_set_other|].
  split.
  { intros k i G. apply loop_bucket_sound in G.
    destruct G as [G|G]; [discriminate G | exact G]. }
  split; [intros i; apply loop_bucket_complete|].
  destruct (snd (processIssues_loop env result [] [])) as [|x rel] eqn:R;
    simpl; [now left|].
  destruct throwIssue; [|now left]. right.
  assert (I : In x (snd (processIssues_loop env result [] [])))
    by (rewrite R; now left).
  apply loop_relevant_sound in I.
  destruct I as [[]|(i & I & S & NM & _)].
  eexists _, i. repeat split; auto.
Qed.

(** C4 as stated fails: a warning that is recorded is not kept in the
    unit's bucket. *)
Lemma warning_not_retained :
  JsMap.get "/about"
    (issues (snd (processIssues Demo.env "/about" [Demo.unused_import] false
                    initial)))
  = Some [].
Proof. reflexivity. Qed.

Lemma processIssues_records_blocking_issues_witness :
  let result := [Demo.boom; Demo.unused_import] in
  let w' := snd (processIssues Demo.env "/broken" result true initial) in
  JsMap.get "/broken" (issues w')
  = Some [(issueKey Demo.env Demo.boom, Demo.boom)] /\
  exists msg,
    fst (processIssues Demo.env "/broken" result true initial)
    = Throw (ModuleBuildError msg).
Proof.
  destruct (processIssues_records_blocking_issues Demo.env "/broken"
              [Demo.boom; Demo.unused_import] true initial)
    as (G & _ & _ & _ & [O|(msg & i & T & _)]).
  - discriminate O.
  - split; [exact G|]. exists msg. exact T.
Defined.

(** ** Fan-out and coalescing *)

Lemma emit_emit e1 e2 w : emit e2 (emit e1 w) = emit (e1 ++ e2)%list w.
Proof. unfold emit. simpl. now rewrite app_assoc. Qed.

Lemma emit_nil w : emit [] w = w.
Proof. destruct w. unfold emit. simpl. now rewrite app_nil_r. Qed.

Lemma send_all actions :
  forall w,
    for_each actions send w = (Ok tt, emit (broadcast (clients w) actions) w).
Proof.
  induction actions as [|a actions IH]; intros w; simpl.
  - unfold ret. now rewrite emit_nil.
  - unfold bind, send at 1. rewrite IH. simpl. now rewrite emit_emit.
Qed.

Lemma broadcast_app cs a1 a2 :
  broadcast cs (a1 ++ a2)%list = (broadcast cs a1 ++ broadcast cs a2)%list.
Proof. unfold broadcast. apply flat_map_app. Qed.

(** A flush that fires while a bucket is non-empty changes nothing. *)
Lemma flush_blocked w :
  ledger_blocked w = true -> sendEnqueuedMessages w = (Ok tt, w).
Proof.
  unfold ledger_blocked, sendEnqueuedMessages. now intros ->.
Qed.

(** A flush that fires while all buckets are empty sends the queue. *)
Lemma flush_clear_run w :
  ledger_blocked w = false ->
  sendEnqueuedMessages w =
  (Ok tt,
   set_queue [] [] (hmrEventHappened w)
     (emit (broadcast (clients w)
              (JsMap.values (hmrPayloads w)
               ++ update_batch (turbopackUpdates w))) w)).
Proof.
  unfold ledger_blocked, sendEnqueuedMessages. intros ->.
  unfold bind at 1. rewrite send_all. rewrite broadcast_app.
  unfold bind, modify, gets, when, ret, send. simpl.
  destruct (turbopackUpdates w) as [|u us] eqn:U; simpl.
  - unfold emit, set_queue. simpl. now rewrite !app_nil_r.
  - unfold emit, set_queue. simpl. now rewrite !app_nil_r, app_assoc.
Qed.

Lemma flush_clear w :
  ledger_blocked w = false ->
  let w' := snd (sendEnqueuedMessages w) in
  fst (sendEnqueuedMessages w) = Ok tt /\
  effects w' =
    (effects w ++
     broadcast (clients w)
       (JsMap.values (hmrPayloads w) ++ update_batch (turbopackUpdates w)))%list
  /\ hmrPayloads w' = [] /\ turbopackUpdates w' = []
  /\ issues w' = issues w /\ clients w' = clients w.
Proof.
  intros B. rewrite (flush_clear_run w B). simpl. auto 10.
Qed.

Lemma queue_event_ok ev w : fst (queue_event ev w) = Ok tt.
Proof.
  destruct ev; try reflexivity. simpl.
  destruct (ledger_blocked w) eqn:B.
  - now rewrite flush_blocked.
  - now apply flush_clear.
Qed.

Lemma run_queue_cons ev evs w :
  run_queue (ev :: evs) w = run_queue evs (snd (queue_event ev w)).
Proof.
  unfold run_queue. simpl. unfold bind.
  pose proof (queue_event_ok ev w) as O.
  destruct (queue_event ev w) as [[[]|e] w']; simpl in *;
    [reflexivity | discriminate].
Qed.

Lemma run_queue_gated evs :
  forall w,
    flushes_gated evs (issues w) = true ->
    run_queue evs w = run_queue (filter (fun ev => negb (is_flush ev)) evs) w.
Proof.
  induction evs as [|ev evs IH]; intros w G; [reflexivity|].
  destruct ev; simpl in G |- *; rewrite ?run_queue_cons.
  - apply IH. exact G.
  - apply IH. exact G.
  - apply IH. exact G.
  - apply andb_true_iff in G. destruct G as [B G].
    simpl. rewrite flush_blocked by exact B. now apply IH.
Qed.

Lemma run_queue_silent evs :
  forall w,
    forallb (fun ev => negb (is_flush ev)) evs = true ->
    effects (run_queue evs w) = effects w.
Proof.
  induction evs as [|ev evs IH]; intros w F; [reflexivity|].
  simpl in F. apply andb_true_iff in F. destruct F as [Fev F].
  rewrite run_queue_cons, IH by exact F.
  destruct ev; try reflexivity. discriminate Fev.
Qed.

(** C6.  While every flush of a run fires with some bucket non-empty, no
    wire message is sent and the queue is what the enqueues alone make it,
    nothing cleared; a flush that then fires blocked changes nothing, and one
    that fires with all buckets empty broadcasts every pending payload and
    the pending update batch and empties both collections. *)
Theorem flush_gated_by_ledger :
  forall evs w,
    flushes_gated evs (issues w) = true ->
    let enqueued :=
      run_queue (filter (fun ev => negb (is_flush ev)) evs) w in
    let w1 := run_queue evs w in
    effects w1 = effects w /\
    hmrPayloads w1 = hmrPayloads enqueued /\
    turbopackUpdates w1 = turbopackUpdates enqueued /\
    (ledger_blocked w1 = true -> sendEnqueuedMessages w1 = (Ok tt, w1)) /\
    (ledger_blocked w1 = false ->
       let w2 := snd (sendEnqueuedMessages w1) in
       effects w2 =
         (effects w1 ++
          broadcast (clients w1)
            (JsMap.values (hmrPayloads w1)
             ++ update_batch (turbopackUpdates w1)))%list /\
       hmrPayloads w2 = [] /\ turbopackUpdates w2 = []).
Proof.
  intros evs w G. cbv zeta. rewrite (run_queue_gated evs w G).
  split; [|split; [reflexivity|split; [reflexivity|split]]].
  - apply run_queue_silent. rewrite forallb_forall.
    intros ev I. now apply filter_In in I.
  - apply flush_blocked.
  - intros B. pose proof (flush_clear _ B) as C. cbv zeta in C. tauto.
Qed.

Lemma enqueue_all_run enqueues :
  forall w,
    let w' := snd (enqueue_all enqueues w) in
    hmrPayloads w' = coalesce enqueues (hmrPayloads w) /\
    turbopackUpdates w' = turbopackUpdates w /\
    issues w' = issues w /\ clients w' = clients w /\
    effects w' = effects w.
Proof.
  induction enqueues as [|[[key id] payload] rest IH]; intros w; simpl.
  - auto.
  - unfold enqueue_all in *. simpl. unfold bind, sendHmr at 1, modify. simpl.
    specialize (IH (set_queue
                      (JsMap.set (key ++ ":" ++ id) payload (hmrPayloads w))
                      (turbopackUpdates w) true w)).
    simpl in IH. exact IH.
Qed.

Lemma coalesce_get enqueues :
  forall m k,
    JsMap.get k (coalesce enqueues m) =
    match last_payload k enqueues with
    | Some p => Some p
    | None => JsMap.get k m
    end.
Proof.
  induction enqueues as [|[[key id] payload] rest IH]; intros m k; simpl.
  - reflexivity.
  - unfold coalesce in *. simpl. rewrite IH.
    destruct (last_payload k rest); [reflexivity|].
    destruct (String.eqb_spec k (coalescing_key key id)) as [->|N].
    + apply map_get_set_same.
    + now apply map_get_set_other.
Qed.

Lemma coalesce_keys enqueues :
  forall m,
    NoDup (JsMap.keys m) ->
    NoDup (JsMap.keys (coalesce enqueues m)) /\
    forall k, In k (JsMap.keys (coalesce enqueues m)) <->
              In k (JsMap.keys m) \/ In k (map enqueue_key enqueues).
Proof.
  induction enqueues as [|e rest IH]; intros m N; simpl.
  - split; [exact N | intros k; tauto].
  - unfold coalesce in *. simpl.
    assert (N' : NoDup (JsMap.keys (JsMap.set (enqueue_key e) (snd e) m))).
    { rewrite map_keys_set. destruct (JsMap.has (enqueue_key e) m) eqn:E;
        [exact N|].
      apply NoDup_app; [exact N | repeat constructor; auto |].
      intros a Ia [<-|[]]. apply map_has_keys in Ia. congruence. }
    destruct (IH _ N') as [ND Keys]. split; [exact ND|].
    intros k. rewrite Keys, map_keys_set.
    destruct (JsMap.has (enqueue_key e) m) eqn:E.
    + apply map_has_keys in E. split; [tauto|].
      intros [I|[<-|I]]; auto.
    + rewrite in_app_iff. simpl. tauto.
Qed.

Lemma map_In_get {V} (m : JsMap.t string V) k v :
  NoDup (JsMap.keys m) -> In (k, v) m -> JsMap.get k m = Some v.
Proof.
  induction m as [|[k' v'] m IH]; simpl; intros N I; [contradiction|].
  inversion N as [|? ? Nk Nm]; subst.
  destruct I as [[= -> ->]|I].
  - now rewrite String.eqb_refl.
  - destruct (String.eqb_spec k k') as [->|_]; [|now apply IH].
    exfalso. apply Nk. unfold JsMap.keys.
    change k' with (fst (k', v)). now apply in_map.
Qed.

Lemma map_keys_values {V} (m m0 : JsMap.t string V) :
  incl m m0 ->
  Forall2 (fun k v => In (k, v) m0) (JsMap.keys m) (JsMap.values m).
Proof.
  induction m as [|[k v] m IH]; intros I; simpl; constructor.
  - apply I. now left.
  - apply IH. intros x Ix. apply I. now right.
Qed.

(** C7.  Keyed enqueues made on an empty queue while no bucket holds an
    issue, then one flush: the flush sends one action per distinct coalescing
    key [key:id], which carries the payload enqueued last under that key, and
    nothing else; [send] hands each action to every connected client. *)
Theorem keyed_enqueues_coalesce :
  forall enqueues w,
    hmrPayloads w = [] ->
    turbopackUpdates w = [] ->
    ledger_blocked w = false ->
    let w1 := snd (enqueue_all enqueues w) in
    let w2 := snd (sendEnqueuedMessages w1) in
    exists keys payloads,
      NoDup keys /\
      (forall k, In k keys <-> In k (map enqueue_key enqueues)) /\
      Forall2 (fun k p => last_payload k enqueues = Some p) keys payloads /\
      effects w2 = (effects w ++ broadcast (clients w) payloads)%list.
Proof.
  intros enqueues w P U B. cbv zeta.
  destruct (enqueue_all_run enqueues w) as (P1 & U1 & I1 & C1 & E1).
  set (w1 := snd (enqueue_all enqueues w)) in *.
  assert (B1 : ledger_blocked w1 = false)
    by (unfold ledger_blocked in *; now rewrite I1).
  destruct (flush_clear w1 B1) as (_ & E2 & _).
  rewrite P in P1.
  destruct (@coalesce_keys enqueues [] (NoDup_nil _)) as [ND Keys].
  exists (JsMap.keys (hmrPayloads w1)), (JsMap.values (hmrPayloads w1)).
  rewrite P1. repeat split.
  - exact ND.
  - intros I. apply Keys in I. destruct I as [[]|I]. exact I.
  - intros I. apply Keys. now right.
  - eapply Forall2_impl; [|apply map_keys_values, incl_refl].
    intros k p I. apply map_In_get in I; [|exact ND].
    rewrite coalesce_get in I. simpl in I.
    destruct (last_payload k enqueues); [exact I | discriminate].
  - rewrite E2, E1, C1, U1, U, P1. simpl. now rewrite app_nil_r.
Qed.

Lemma keyed_enqueues_coalesce_witness :
  let w := snd (onHMR Demo.env 1 initial) in
  let w1 := snd (enqueue_all Demo.fifty w) in
  let w2 := snd (sendEnqueuedMessages w1) in
  exists keys payloads,
    NoDup keys /\
    (forall k, In k keys <-> In k (map enqueue_key Demo.fifty)) /\
    Forall2 (fun k p => last_payload k Demo.fifty = Some p) keys payloads /\
    effects w2 = (effects w ++ broadcast (clients w) payloads)%list.
Proof.
  apply (keyed_enqueues_coalesce Demo.fifty (snd (onHMR Demo.env 1 initial)));
    reflexivity.
Defined.

(** C7 as stated fails when the flush fires while a bucket of the ledger
    holds an issue: the same fifty enqueues under five keys, and the flush
    sends no message at all; the five payloads stay queued. *)
Lemma blocked_flush_sends_no_message :
  let w :=
    snd (processIssues Demo.env "/broken" [Demo.boom] false
           (snd (onHMR Demo.env 1 initial))) in
  let w1 := snd (enqueue_all Demo.fifty w) in
  let w2 := snd (sendEnqueuedMessages w1) in
  length Demo.fifty = 50 /\
  ledger_blocked w = true /\
  effects w2 = effects w /\
  JsMap.size (hmrPayloads w2) = 5.
Proof. vm_compute. auto. Qed.

(** The fifty enqueues of the example leave five messages for the one
    connected client: the last payload of each page. *)
Example fifty_enqueues_five_messages :
  let w := snd (onHMR Demo.env 1 initial) in
  effects (snd (sendEnqueuedMessages (snd (enqueue_all Demo.fifty w)))) =
  (effects w ++
   [ClientSend 1 (SERVER_ONLY_CHANGES ["45"]);
    ClientSend 1 (SERVER_ONLY_CHANGES ["46"]);
    ClientSend 1 (SERVER_ONLY_CHANGES ["47"]);
    ClientSend 1 (SERVER_ONLY_CHANGES ["48"]);
    ClientSend 1 (SERVER_ONLY_CHANGES ["49"])])%list.
Proof. vm_compute. reflexivity. Qed.

(** ** Raw engine updates and new connections *)

Lemma subscribeToHmrEvents_run env id client first second w :
  subscribed id client w = false ->
  String.eqb (tu_type second) "issues" = false ->
  let w' := snd (subscribeToHmrEvents env id client
                   [Yield first; Yield second] w) in
  turbopackUpdates w' = (turbopackUpdates w ++ [second])%list /\
  hmrPayloads w' = hmrPayloads w /\
  clients w' = clients w /\
  effects w' = effects w /\
  issues w' =
    JsMap.set id (fst (processIssues_loop env (tu_issues second) [] []))
      (issues w) /\
  subscribed id client w' = true.
Proof.
  unfold subscribed. intros S T. cbv zeta.
  destruct (subscribeToHmrEvents env id client [Yield first; Yield second] w)
    as [r w'] eqn:Run.
  unfold subscribeToHmrEvents in Run.
  unfold bind at 1, gets at 1 in Run.
  destruct (JsMap.get client (clientToHmrSubscription w)) as [mapping|] eqn:G.
  - unfold bind at 1, modify at 1 in Run. rewrite S in Run.
    unfold bind at 1, modify at 1 in Run. simpl hmr_loop in Run.
    unfold bind at 1 in Run. rewrite processIssues_run in Run.
    rewrite andb_false_r, T in Run. simpl in Run.
    injection Run as _ <-. simpl. unfold JsMap.has.
    rewrite !map_get_set_same. auto 10.
  - unfold bind at 1, modify at 1 in Run.
    change (JsMap.has id JsMap.empty) with false in Run.
    unfold bind at 1, modify at 1 in Run. simpl hmr_loop in Run.
    unfold bind at 1 in Run. rewrite processIssues_run in Run.
    rewrite andb_false_r, T in Run. simpl in Run.
    injection Run as _ <-. simpl. unfold JsMap.has.
    rewrite !map_get_set_same. simpl. rewrite String.eqb_refl. auto 10.
Qed.

(** C5, as the code has it.  A client subscribes to the raw updates of an
    id it was not subscribed to, and the engine yields two items, the second
    of a type other than [issues].  Nothing of the first item is kept; the
    second is appended to the shared batch of updates and nothing is sent
    yet.  When the flush then fires with all buckets empty, the batch goes
    out in one [TURBOPACK_MESSAGE] after the pending keyed payloads, through
    [send], so every connected client receives it. *)
Theorem raw_update_joins_broadcast_batch :
  forall env id client first second w,
    subscribed id client w = false ->
    String.eqb (tu_type second) "issues" = false ->
    let w1 := snd (subscribeToHmrEvents env id client
                     [Yield first; Yield second] w) in
    turbopackUpdates w1 = (turbopackUpdates w ++ [second])%list /\
    effects w1 = effects w /\
    (ledger_blocked w1 = false ->
     effects (snd (sendEnqueuedMessages w1)) =
       (effects w ++
        broadcast (clients w)
          (JsMap.values (hmrPayloads w)
           ++ [TURBOPACK_MESSAGE (turbopackUpdates w ++ [second])]))%list /\
     forall c, JsSet.has c (clients w) = true ->
       In (ClientSend c (TURBOPACK_MESSAGE (turbopackUpdates w ++ [second])))
          (effects (snd (sendEnqueuedMessages w1)))).
Proof.
  intros env id client first second w S T. cbv zeta.
  destruct (subscribeToHmrEvents_run env id client first second w S T)
    as (U & P & C & E & _).
  set (w1 := snd (subscribeToHmrEvents env id client
                    [Yield first; Yield second] w)) in *.
  split; [exact U|]. split; [exact E|]. intros B.
  destruct (flush_clear w1 B) as (_ & E2 & _).
  rewrite E2, E, C, P, U.
  assert (Batch : update_batch (turbopackUpdates w ++ [second])%list =
                  [TURBOPACK_MESSAGE (turbopackUpdates w ++ [second])]).
  { now destruct (turbopackUpdates w). }
  rewrite Batch. split; [reflexivity|].
  intros c Hc. apply in_or_app. right.
  rewrite broadcast_app. apply in_or_app. right. simpl.
  rewrite app_nil_r. apply in_map_iff. exists c. split; [reflexivity|].
  now apply set_has_In.
Qed.

Lemma raw_update_joins_broadcast_batch_witness :
  let w := Demo.two_clients in
  let w1 := snd (subscribeToHmrEvents Demo.env "/x" 1
                   [Yield (Demo.update "initial");
                    Yield (Demo.update "change")] w) in
  turbopackUpdates w1 = (turbopackUpdates w ++ [Demo.update "change"])%list /\
  effects w1 = effects w /\
  (ledger_blocked w1 = false ->
   effects (snd (sendEnqueuedMessages w1)) =
     (effects w ++
      broadcast (clients w)
        (JsMap.values (hmrPayloads w)
         ++ [TURBOPACK_MESSAGE
               (turbopackUpdates w ++ [Demo.update "change"])]))%list /\
   forall c, JsSet.has c (clients w) = true ->
     In (ClientSend c
           (TURBOPACK_MESSAGE (turbopackUpdates w ++ [Demo.update "change"])))
        (effects (snd (sendEnqueuedMessages w1)))).
Proof.
  apply (raw_update_joins_broadcast_batch Demo.env "/x" 1
           (Demo.update "initial") (Demo.update "change") Demo.two_clients);
    reflexivity.
Defined.

(** C5 as stated fails: client 1 subscribed, and client 2, which did not,
    receives the update as well. *)
Lemma raw_update_reaches_other_client :
  subscribed "/x" 2 Demo.raw_update_flushed = false /\
  In (ClientSend 2 (TURBOPACK_MESSAGE [Demo.update "change"]))
     (effects Demo.raw_update_flushed).
Proof. split; [reflexivity|]. vm_compute. tauto. Qed.

(** C10.  On a new connection the acknowledgement is sent once, to the new
    client; the sync action is sent next through [send], so once to every
    client connected by then, the new one included.  The errors it carries
    are the formatted issues of the ledger as it stands, bucket after
    bucket and, in a bucket, in the order of its entries. *)
Theorem connect_acks_one_syncs_all :
  forall env client w,
    let w' := snd (onHMR env client w) in
    let sync :=
      SYNC (flat_map
              (fun bucket => map (fun entry => formatIssue env (snd entry))
                               (snd bucket))
              (issues w)) in
    fst (onHMR env client w) = Ok tt /\
    clients w' = JsSet.add client (clients w) /\
    effects w' =
      (effects w ++
       ClientSend client TURBOPACK_CONNECTED ::
       map (fun c => ClientSend c sync) (clients w'))%list /\
    (forall c, JsSet.has c (clients w) = true ->
       In (ClientSend c sync) (map (fun c => ClientSend c sync) (clients w')))
    /\
    (forall c, In (ClientSend c TURBOPACK_CONNECTED)
                  (ClientSend client TURBOPACK_CONNECTED ::
                   map (fun c => ClientSend c sync) (clients w')) ->
       c = client).
Proof.
  intros env client w. cbv zeta.
  assert (L : ledger_errors env (issues w) =
              flat_map
                (fun bucket => map (fun entry => formatIssue env (snd entry))
                                 (snd bucket))
                (issues w)).
  { unfold ledger_errors, JsMap.values. rewrite flat_map_concat_map, map_map.
    rewrite flat_map_concat_map. f_equal. apply map_ext. intros bucket.
    now rewrite map_map. }
  unfold onHMR, bind, modify, gets, send. simpl. rewrite L.
  split; [reflexivity|]. split; [reflexivity|].
  split; [now rewrite <- app_assoc|]. split.
  - intros c Hc. apply in_map_iff. exists c. split; [reflexivity|].
    apply set_In_add. right. now apply set_has_In.
  - intros c [[= ->]|I]; [reflexivity|].
    apply in_map_iff in I. destruct I as (c' & [=] & _).
Qed.

Lemma connect_acks_one_syncs_all_witness :
  let w :=
    snd (processIssues Demo.env "/broken" [Demo.boom] false
           (snd (onHMR Demo.env 1 initial))) in
  let message := "./app/broken/route.ts" ++ nl ++ "boom" ++ nl in
  effects (snd (onHMR Demo.env 2 w)) =
    (effects w ++
     [ClientSend 2 TURBOPACK_CONNECTED;
      ClientSend 1 (SYNC [message]);
      ClientSend 2 (SYNC [message])])%list.
Proof.
  cbv zeta.
  rewrite (proj1 (proj2 (proj2 (connect_acks_one_syncs_all Demo.env 2 _)))).
  reflexivity.
Defined.

(** ** Directory rebuild and diff *)

Lemma for_each_preserves {A} (R : World -> World -> Prop)
  (body : A -> M unit) (l : list A) :
  (forall w, R w w) ->
  (forall a b c, R a b -> R b c -> R a c) ->
  (forall x w, In x l -> fst (body x w) = Ok tt /\ R w (snd (body x w))) ->
  forall w,
    fst (for_each l body w) = Ok tt /\ R w (snd (for_each l body w)).
Proof.
  intros Rrefl Rtrans. induction l as [|x l IH]; intros Hbody w; simpl.
  - split; [reflexivity | apply Rrefl].
  - unfold bind. destruct (Hbody x w (or_introl eq_refl)) as [O Rx].
    destruct (body x w) as [[[]|e] w1]; simpl in *; [|discriminate].
    destruct (IH (fun y w' I => Hbody y w' (or_intror I)) w1) as [O' R'].
    split; [exact O' | eapply Rtrans; eassumption].
Qed.

Lemma length_append (s t : string) :
  String.length (s ++ t) = String.length s + String.length t.
Proof. induction s as [|c s IH]; simpl; [reflexivity | now rewrite IH]. Qed.

Lemma strip_phase_subscription_key page type :
  strip_phase (subscription_key page type) = page.
Proof.
  unfold subscription_key.
  induction page as [|c page IH].
  - now destruct type.
  - change (String c page ++ " (" ++ phase_name type ++ ")")
      with (String c (page ++ " (" ++ phase_name type ++ ")")).
    cbn [strip_phase].
    assert (L : forall s, String.length s = 9 ->
                String.eqb (String c (page ++ " (" ++ phase_name type ++ ")"))
                  s = false).
    { intros s Ls. apply String.eqb_neq. intros E.
      apply (f_equal String.length) in E. rewrite Ls in E. simpl in E.
      rewrite length_append in E.
      destruct type; simpl in E; lia. }
    rewrite !L by reflexivity. cbn [orb]. now rewrite IH.
Qed.

Lemma bind_ok {A B} (m : M A) (f : A -> M B) w a :
  fst (m w) = Ok a -> bind m f w = f a (snd (m w)).
Proof. unfold bind. destruct (m w) as [r w']. simpl. now intros ->. Qed.

Lemma directory_populated_refl w : directory_populated w w.
Proof. unfold directory_populated. auto. Qed.

Lemma directory_populated_trans a b c :
  directory_populated a b -> directory_populated b c ->
  directory_populated a c.
Proof.
  unfold directory_populated. intros (S1 & I1 & E1) (S2 & I2 & E2).
  repeat split; try congruence. auto.
Qed.

Lemma registry_pruned_refl w : registry_pruned w w.
Proof. unfold registry_pruned. auto 10. Qed.

Lemma registry_pruned_trans a b c :
  registry_pruned a b -> registry_pruned b c -> registry_pruned a c.
Proof.
  unfold registry_pruned.
  intros (A1 & B1 & C1 & D1 & E1) (A2 & B2 & C2 & D2 & E2).
  repeat split; try congruence; auto.
Qed.

Lemma ledger_pruned_refl w : ledger_pruned w w.
Proof. unfold ledger_pruned. auto 10. Qed.

Lemma ledger_pruned_trans a b c :
  ledger_pruned a b -> ledger_pruned b c -> ledger_pruned a c.
Proof.
  unfold ledger_pruned.
  intros (A1 & B1 & C1 & D1 & E1) (A2 & B2 & C2 & D2 & E2).
  repeat split; try congruence; auto.
Qed.

Lemma add_route_step pathname route w :
  fst (add_route pathname route w) = Ok tt /\
  directory_populated w (snd (add_route pathname route w)).
Proof.
  destruct route as [h d|e|pages|name e|t]; simpl;
    try (split; [reflexivity|]; unfold directory_populated; simpl; auto).
  - unfold bind, modify. simpl.
    match goal with
    | |- context [for_each ?l ?body ?w0] =>
        destruct (for_each_preserves directory_populated body l
                    directory_populated_refl directory_populated_trans)
          with (w := w0) as [O P]
    end.
    + intros x w' _. split; [reflexivity|].
      unfold directory_populated. simpl. auto.
    + split; [exact O|].
      eapply directory_populated_trans; [|exact P].
      unfold directory_populated. simpl. auto.
  - repeat split. intros e I. apply in_or_app. now left.
Qed.

Lemma populated_run entrypoints w :
  directory_populated w (populated entrypoints w) /\
  fst (for_each (routes entrypoints)
         (fun '(pathname, route) => add_route pathname route)
         (set_entries JsMap.empty JsMap.empty
            (set_globalEntries (pagesAppEndpoint entrypoints)
               (pagesDocumentEndpoint entrypoints)
               (pagesErrorEndpoint entrypoints) w))) = Ok tt.
Proof.
  unfold populated.
  match goal with
  | |- context [for_each ?l ?body ?w0] =>
      destruct (for_each_preserves directory_populated body l
                  directory_populated_refl directory_populated_trans)
        with (w := w0) as [O P]
  end.
  - intros [pathname route] w' _. apply add_route_step.
  - split; [|exact O].
    eapply directory_populated_trans; [|exact P].
    unfold directory_populated. simpl. auto.
Qed.

Lemma prune_subscription_step entry w :
  fst (prune_subscription entry w) = Ok tt /\
  registry_pruned w (snd (prune_subscription entry w)).
Proof.
  destruct entry as [pathname subscription]. unfold prune_subscription.
  destruct (String.eqb (strip_phase pathname) "");
    [split; [reflexivity | apply registry_pruned_refl]|].
  destruct (negb (JsMap.has (strip_phase pathname) (curEntries w))
            && negb (JsMap.has (strip_phase pathname) (curAppEntries w)));
    [|split; [reflexivity | apply registry_pruned_refl]].
  split; [reflexivity|]. unfold registry_pruned. simpl.
  repeat split.
  - intros key Hk. rewrite map_has_delete, Hk. apply andb_false_r.
  - intros e I. apply in_or_app. now left.
Qed.

Lemma prune_subscription_hit key subscription w :
  strip_phase key <> "" ->
  JsMap.has (strip_phase key) (curEntries w) = false ->
  JsMap.has (strip_phase key) (curAppEntries w) = false ->
  let w1 := snd (prune_subscription (key, subscription) w) in
  In (IterReturn subscription) (effects w1) /\
  JsMap.has key (changeSubscriptions w1) = false.
Proof.
  intros N E A. unfold prune_subscription.
  apply String.eqb_neq in N. rewrite N, E, A. simpl. split.
  - apply in_or_app. right. now left.
  - rewrite map_has_delete. change (keqb key key) with (String.eqb key key).
    now rewrite String.eqb_refl.
Qed.

Lemma prune_subscriptions_run l w :
  fst (for_each l prune_subscription w) = Ok tt /\
  registry_pruned w (snd (for_each l prune_subscription w)).
Proof.
  apply (for_each_preserves registry_pruned).
  - apply registry_pruned_refl.
  - apply registry_pruned_trans.
  - intros x w' _. apply prune_subscription_step.
Qed.

Lemma prune_subscriptions_hit l :
  forall w key subscription,
    In (key, subscription) l ->
    strip_phase key <> "" ->
    JsMap.has (strip_phase key) (curEntries w) = false ->
    JsMap.has (strip_phase key) (curAppEntries w) = false ->
    let w' := snd (for_each l prune_subscription w) in
    In (IterReturn subscription) (effects w') /\
    JsMap.has key (changeSubscriptions w') = false.
Proof.
  induction l as [|entry l IH]; intros w key sub I N E A; [contradiction|].
  cbv zeta. simpl for_each.
  destruct (prune_subscription_step entry w) as [O (E1 & A1 & _)].
  rewrite (bind_ok _ _ _ O).
  destruct I as [->|I].
  - destruct (prune_subscription_hit key sub w N E A) as [Hit Gone].
    destruct (prune_subscriptions_run l
                (snd (prune_subscription (key, sub) w)))
      as [_ (_ & _ & _ & Keep & Log)].
    split; auto.
  - apply IH; try assumption; congruence.
Qed.

Lemma prune_issue_bucket_step page w :
  fst (prune_issue_bucket page w) = Ok tt /\
  ledger_pruned w (snd (prune_issue_bucket page w)).
Proof.
  unfold prune_issue_bucket.
  destruct (negb (JsMap.has page (curEntries w)));
    [|split; [reflexivity | apply ledger_pruned_refl]].
  split; [reflexivity|]. unfold ledger_pruned. simpl. repeat split.
  intros page' Hp. rewrite map_has_delete, Hp. apply andb_false_r.
Qed.

Lemma prune_issues_run l w :
  fst (for_each l prune_issue_bucket w) = Ok tt /\
  ledger_pruned w (snd (for_each l prune_issue_bucket w)).
Proof.
  apply (for_each_preserves ledger_pruned).
  - apply ledger_pruned_refl.
  - apply ledger_pruned_trans.
  - intros x w' _. apply prune_issue_bucket_step.
Qed.

Lemma prune_issues_hit l :
  forall w page,
    In page l ->
    JsMap.has page (curEntries w) = false ->
    JsMap.has page (issues (snd (for_each l prune_issue_bucket w))) = false.
Proof.
  induction l as [|p l IH]; intros w page I E; [contradiction|].
  simpl for_each.
  destruct (prune_issue_bucket_step p w) as [O (E1 & _)].
  rewrite (bind_ok _ _ _ O).
  destruct I as [->|I].
  - destruct (prune_issues_run l (snd (prune_issue_bucket page w)))
      as [_ (_ & _ & _ & _ & Keep)].
    apply Keep. unfold prune_issue_bucket. rewrite E. simpl.
    rewrite map_has_delete. change (keqb page page) with (String.eqb page page).
    now rewrite String.eqb_refl.
  - apply IH; [exact I | congruence].
Qed.

(** The round, loop after loop. *)
Lemma rebuild_and_diff_run entrypoints w :
  let w2 := subscriptions_pruned entrypoints w in
  rebuild_and_diff entrypoints w =
  (Ok tt, snd (for_each (JsMap.keys (issues w2)) prune_issue_bucket w2)).
Proof.
  cbv zeta. unfold rebuild_and_diff, subscriptions_pruned.
  unfold bind at 1, modify at 1. unfold bind at 1, modify at 1.
  destruct (populated_run entrypoints w) as [_ O].
  rewrite (bind_ok _ _ _ O). fold (populated entrypoints w).
  unfold bind at 1, gets at 1.
  destruct (prune_subscriptions_run
              (changeSubscriptions (populated entrypoints w))
              (populated entrypoints w)) as [O2 _].
  rewrite (bind_ok _ _ _ O2).
  unfold bind at 1, gets at 1.
  match goal with
  | |- ?m = _ => destruct m as [r w'] eqn:Run
  end.
  match type of Run with
  | for_each ?l _ ?w0 = _ =>
      destruct (prune_issues_run l w0) as [O3 _]; rewrite Run in O3
  end.
  simpl in O3. now subst r.
Qed.

Lemma for_each_same_directory {A} (body : A -> M unit) (l : list A) :
  (forall x a, fst (body x a) = Ok tt) ->
  (forall x a b,
     curEntries a = curEntries b -> curAppEntries a = curAppEntries b ->
     curEntries (snd (body x a)) = curEntries (snd (body x b)) /\
     curAppEntries (snd (body x a)) = curAppEntries (snd (body x b))) ->
  forall a b,
    curEntries a = curEntries b -> curAppEntries a = curAppEntries b ->
    curEntries (snd (for_each l body a)) = curEntries (snd (for_each l body b))
    /\ curAppEntries (snd (for_each l body a))
       = curAppEntries (snd (for_each l body b)).
Proof.
  intros O S. induction l as [|x l IH]; intros a b E E'; simpl; [auto|].
  rewrite (bind_ok _ _ _ (O x a)), (bind_ok _ _ _ (O x b)).
  destruct (S x a b E E'). now apply IH.
Qed.

Lemma add_route_same_directory pathname route a b :
  curEntries a = curEntries b -> curAppEntries a = curAppEntries b ->
  curEntries (snd (add_route pathname route a))
  = curEntries (snd (add_route pathname route b)) /\
  curAppEntries (snd (add_route pathname route a))
  = curAppEntries (snd (add_route pathname route b)).
Proof.
  intros E A.
  destruct route as [h d|e|pages|name e|t]; simpl;
    try (rewrite ?E, ?A; split; reflexivity).
  unfold bind, modify. simpl. apply for_each_same_directory.
  - reflexivity.
  - intros x a' b' E' A'. simpl. now rewrite E', A'.
  - simpl. now rewrite E.
  - simpl. exact A.
Qed.

(** The directory after a round is made from the snapshot alone. *)
Lemma populated_from_snapshot entrypoints w :
  curEntries (populated entrypoints w)
  = curEntries (populated entrypoints initial) /\
  curAppEntries (populated entrypoints w)
  = curAppEntries (populated entrypoints initial).
Proof.
  unfold populated. apply for_each_same_directory; try reflexivity.
  - intros [pathname route] a. apply add_route_step.
  - intros [pathname route] a b. apply add_route_same_directory.
Qed.

Lemma map_In_has {V} (k : string) (v : V) (m : JsMap.t string V) :
  In (k, v) m -> JsMap.has k m = true.
Proof.
  unfold JsMap.has. induction m as [|[k' v'] m IH]; intros I; [contradiction|].
  simpl. destruct (String.eqb_spec k k') as [E|N]; [reflexivity|].
  destruct I as [[= <- <-]|I]; [contradiction | auto].
Qed.

(** C8.  A round of [handleEntries] for a snapshot, up to the end of its two
    pruning loops, always completes; the two directory maps it leaves are
    made from the snapshot alone.  On a registry as the calls of
    [changeSubscription] make it, every subscription registered for a page
    that neither map has is closed (its iterator returned) and gone from
    the registry, and no bucket of the ledger is left under a key the
    route-path map lacks. *)
Theorem absent_units_pruned :
  forall entrypoints w,
    registry_named w ->
    let w' := snd (rebuild_and_diff entrypoints w) in
    fst (rebuild_and_diff entrypoints w) = Ok tt /\
    curEntries w' = curEntries (populated entrypoints initial) /\
    curAppEntries w' = curAppEntries (populated entrypoints initial) /\
    (forall page type subscription,
       In (subscription_key page type, subscription) (changeSubscriptions w) ->
       JsMap.has page (curEntries w') = false ->
       JsMap.has page (curAppEntries w') = false ->
       In (IterReturn subscription) (effects w') /\
       JsMap.has (subscription_key page type) (changeSubscriptions w') = false)
    /\
    (forall page,
       JsMap.has page (curEntries w') = false ->
       JsMap.has page (issues w') = false).
Proof.
  intros entrypoints w Named. cbv zeta. rewrite rebuild_and_diff_run. simpl.
  set (w1 := populated entrypoints w).
  set (w2 := subscriptions_pruned entrypoints w).
  destruct (populated_run entrypoints w) as [(S1 & I1 & L1) _].
  destruct (populated_from_snapshot entrypoints w) as [FE FA].
  destruct (prune_subscriptions_run (changeSubscriptions w1) w1)
    as [_ (E2 & A2 & I2 & K2 & L2)].
  fold w1 in S1, I1, L1, FE, FA.
  change (snd (for_each (changeSubscriptions w1) prune_subscription w1))
    with w2 in E2, A2, I2, K2, L2.
  destruct (prune_issues_run (JsMap.keys (issues w2)) w2)
    as [_ (E3 & A3 & S3 & L3 & K3)].
  set (w3 := snd (for_each (JsMap.keys (issues w2)) prune_issue_bucket w2))
    in *.
  split; [reflexivity|].
  split; [congruence|]. split; [congruence|]. split.
  - intros page type sub I E A.
    assert (N : page <> "").
    { destruct (Named _ (map_In_has _ _ _ I)) as (page' & type' & K & N').
      apply (f_equal strip_phase) in K.
      rewrite !strip_phase_subscription_key in K. now subst page'. }
    rewrite E3, E2 in E. rewrite A3, A2 in A. rewrite S1 in *.
    destruct (prune_subscriptions_hit (changeSubscriptions w1) w1
                (subscription_key page type) sub) as [Hit Gone].
    + rewrite S1. exact I.
    + now rewrite strip_phase_subscription_key.
    + now rewrite strip_phase_subscription_key.
    + now rewrite strip_phase_subscription_key.
    + fold w2 in Hit, Gone. rewrite L3, S3. auto.
  - intros page E. rewrite E3 in E.
    destruct (JsMap.has page (issues w2)) eqn:Hp.
    + apply prune_issues_hit; [|exact E]. now apply map_has_keys.
    + now apply K3.
Qed.

Lemma absent_units_pruned_witness :
  let w' := snd (rebuild_and_diff Demo.no_entrypoints Demo.about_built) in
  In (IterReturn (ChangeStream 5 Server false)) (effects w') /\
  JsMap.has (subscription_key "/about" Server) (changeSubscriptions w') = false.
Proof.
  assert (Named : registry_named Demo.about_built).
  { intros key H.
    assert (K : key = "/about (server)" \/ key = "/about (client)").
    { revert H. change (changeSubscriptions Demo.about_built)
        with [("/about (server)", ChangeStream 5 Server false);
              ("/about (client)", ChangeStream 4 Client_ false)].
      unfold JsMap.has. simpl.
      destruct (String.eqb_spec key "/about (server)"); [auto|].
      destruct (String.eqb_spec key "/about (client)"); [auto|].
      discriminate. }
    destruct K as [->| ->].
    - exists "/about", Server. split; [reflexivity | discriminate].
    - exists "/about", Client_. split; [reflexivity | discriminate]. }
  apply (proj1 (proj2 (proj2 (proj2 (@absent_units_pruned
           Demo.no_entrypoints Demo.about_built Named))))
           "/about" Server (ChangeStream 5 Server false)).
  - vm_compute. tauto.
  - reflexivity.
  - reflexivity.
Defined.

(** After that round nothing is left of [/about]: both iterators were
    returned, the registry and the ledger are empty. *)
Example about_removed :
  let w' := snd (rebuild_and_diff Demo.no_entrypoints Demo.about_built) in
  changeSubscriptions Demo.about_built =
    [("/about (server)", ChangeStream 5 Server false);
     ("/about (client)", ChangeStream 4 Client_ false)] /\
  JsMap.keys (issues Demo.about_built) = ["/about"] /\
  changeSubscriptions w' = [] /\ issues w' = [] /\
  effects w' =
    (effects Demo.about_built ++
     [IterReturn (ChangeStream 5 Server false);
      IterReturn (ChangeStream 4 Client_ false)])%list.
Proof. vm_compute. auto. Qed.

(** The condition on the registry is needed: a subscription registered
    under the empty page name, which no call site makes, would be left open
    and registered by the guard of the pruning loop. *)
Example empty_name_subscription_survives :
  let w := Demo.empty_name_subscribed in
  let w' := snd (rebuild_and_diff Demo.no_entrypoints w) in
  In (subscription_key "" Server, ChangeStream 3 Server false)
     (changeSubscriptions w) /\
  JsMap.has "" (curEntries w') = false /\
  JsMap.has "" (curAppEntries w') = false /\
  JsMap.has (subscription_key "" Server) (changeSubscriptions w') = true /\
  ~ In (IterReturn (ChangeStream 3 Server false)) (effects w').
Proof.
  vm_compute. repeat split; auto; intros [].
Qed.

(** The rest of the round comes after the two loops: when the snapshot has
    a middleware, its result is recorded and its subscription armed again,
    under names that are no route path. *)
Example middleware_recorded_after_diff :
  let w' := snd (handleEntries Demo.env Demo.middleware_only initial) in
  curEntries w' = [] /\
  JsMap.keys (issues w') = ["middleware"] /\
  JsMap.keys (changeSubscriptions w') = ["middleware (server)"].
Proof. vm_compute. auto. Qed.

(** ** Ensuring a page *)

Lemma prefix_empty (t : string) : String.prefix "" t = true.
Proof. now destruct t. Qed.

Lemma prefix_append (x t : string) : String.prefix x (x ++ t) = true.
Proof.
  induction x as [|c x IH]; simpl; [apply prefix_empty|].
  destruct (ascii_dec c c); [exact IH | contradiction].
Qed.

Lemma prefix_append_r (x : string) :
  forall s t, String.prefix x s = true -> String.prefix x (s ++ t) = true.
Proof.
  induction x as [|c x IH]; intros s t P; [apply prefix_empty|].
  destruct s as [|c' s]; simpl in *; [discriminate|].
  destruct (ascii_dec c c'); [now apply IH | discriminate].
Qed.

Lemma includes_empty (t : string) : includes "" t = true.
Proof. destruct t; reflexivity. Qed.

Lemma includes_append_l (x s t : string) :
  includes x s = true -> includes x (s ++ t) = true.
Proof.
  induction s as [|c s IH]; intros I.
  - destruct x; [apply includes_empty | discriminate].
  - change (String c s ++ t) with (String c (s ++ t)).
    cbn [includes] in *.
    apply orb_true_iff in I. apply orb_true_iff. destruct I as [P|I].
    + left. change (String c (s ++ t)) with (String c s ++ t).
      now apply prefix_append_r.
    + right. now apply IH.
Qed.

Lemma includes_append_r (x s t : string) :
  includes x t = true -> includes x (s ++ t) = true.
Proof.
  intros I. induction s as [|c s IH]; [exact I|].
  change (String c s ++ t) with (String c (s ++ t)).
  cbn [includes]. rewrite IH. apply orb_true_r.
Qed.

Lemma includes_refl (x : string) : includes x x = true.
Proof.
  destruct x as [|c x]; [reflexivity|].
  cbn [includes]. apply orb_true_iff. left.
  pose proof (prefix_append (String c x) "") as P.
  assert (E : forall s : string, s ++ "" = s)
    by (induction s as [|a s IH]; simpl; [reflexivity | now rewrite IH]).
  now rewrite E in P.
Qed.

Lemma includes_concat (sep x : string) (l : list string) :
  In x l -> includes x (String.concat sep l) = true.
Proof.
  induction l as [|h t IH]; intros I; [contradiction|].
  simpl. destruct t as [|h' t].
  - destruct I as [->|[]]. apply includes_refl.
  - destruct I as [->|I].
    + apply includes_append_l, includes_refl.
    + apply includes_append_r, includes_append_r, IH, I.
Qed.

(** [ensurePage] up to the directory lookup. *)
Lemma ensurePage_resolved env inputPage definition isApp requestUrl page w :
  blocked env inputPage = false ->
  resolve_page env inputPage definition = inr page ->
  page <> "/_error" ->
  ensurePage env inputPage definition isApp requestUrl w =
  match lookup_route definition isApp page w with
  | None =>
      (if existsb (String.eqb page) optional_pages then Ok tt
       else Throw (PageNotFoundError ("route not found " ++ page)), w)
  | Some route =>
      if isApp && String.eqb (route_type route) "page"
      then (Throw (Error
                     ("mis-matched route type: isApp && page for " ++ page)),
            w)
      else handleRouteType env page (request_pathname inputPage definition)
             route requestUrl w
  end.
Proof.
  intros B R N. unfold ensurePage. rewrite B, R.
  unfold bind, ret, gets. cbv beta iota.
  apply String.eqb_neq in N. rewrite N.
  destruct (lookup_route definition isApp page w) as [route|].
  - now destruct (isApp && String.eqb (route_type route) "page").
  - now destruct (existsb (String.eqb page) optional_pages).
Qed.

(** C9, as the code has it.  A request that passes the blocked-pages test,
    resolves to a page other than [/_error] and finds no entry in the
    directory (looked up by [definition.pathname] in the route-path map when
    the definition has one, else by page, in the logical-name map for an app
    request and in the route-path map otherwise) returns without any change
    when the page is one of the six optional names, and otherwise throws
    [PageNotFoundError], also without any change. *)
Theorem missing_route_optional_or_not_found :
  forall env inputPage definition isApp requestUrl page w,
    blocked env inputPage = false ->
    resolve_page env inputPage definition = inr page ->
    page <> "/_error" ->
    lookup_route definition isApp page w = None ->
    (In page optional_pages ->
     ensurePage env inputPage definition isApp requestUrl w = (Ok tt, w)) /\
    (~ In page optional_pages ->
     ensurePage env inputPage definition isApp requestUrl w =
     (Throw (PageNotFoundError ("route not found " ++ page)), w)).
Proof.
  intros env inputPage definition isApp requestUrl page w B R N L.
  rewrite (@ensurePage_resolved env inputPage definition isApp requestUrl page w
             B R N), L.
  destruct (existsb (String.eqb page) optional_pages) eqn:O.
  - split; [reflexivity|]. intros NI. exfalso. apply NI.
    apply existsb_exists in O. destruct O as (p & I & E).
    apply String.eqb_eq in E. now subst.
  - split; [|reflexivity]. intros I. exfalso.
    assert (O' : existsb (String.eqb page) optional_pages = true).
    { apply existsb_exists. exists page. split; [exact I|].
      apply String.eqb_refl. }
    congruence.
Qed.

Lemma missing_route_optional_or_not_found_witness :
  ensurePage Demo.env "/middleware" None false None Demo.directory
  = (Ok tt, Demo.directory) /\
  ensurePage Demo.env "/nowhere" None false None Demo.directory
  = (Throw (PageNotFoundError "route not found /nowhere"), Demo.directory).
Proof.
  split.
  - apply (@missing_route_optional_or_not_found Demo.env "/middleware" None
             false None "/middleware" Demo.directory);
      try reflexivity; [discriminate|].
    simpl. tauto.
  - apply (@missing_route_optional_or_not_found Demo.env "/nowhere" None
             false None "/nowhere" Demo.directory);
      try reflexivity; [discriminate|].
    simpl. intros [E|[E|[E|[E|[E|[E|[]]]]]]]; discriminate E.
Defined.

(** C9 as stated fails for the page [/_error]: it is not one of the six
    names and no directory map has it, yet the request does not fail; it
    builds the error page and marks it ready. *)
Lemma error_page_is_built_not_missing :
  let run := ensurePage Demo.env "/_error" None false None Demo.directory in
  ~ In "/_error" optional_pages /\
  JsMap.has "/_error" (curEntries Demo.directory) = false /\
  JsMap.has "/_error" (curAppEntries Demo.directory) = false /\
  fst run = Ok tt /\
  readyIds (snd run) = ["/_error"].
Proof.
  cbv zeta. split; [|repeat split].
  simpl. intros [E|[E|[E|[E|[E|[E|[]]]]]]]; discriminate E.
Qed.

Lemma quiet_refl w : quiet w w.
Proof. unfold quiet. auto 10. Qed.

Lemma quiet_trans a b c : quiet a b -> quiet b c -> quiet a c.
Proof.
  unfold quiet.
  intros (R1 & B1 & E1 & A1 & G1 & D1 & L1 & M1)
         (R2 & B2 & E2 & A2 & G2 & D2 & L2 & M2).
  repeat split; try congruence.
  intros e. eapply Nat.le_trans; [apply M1 | apply M2].
Qed.

Lemma quiet_ret {A} (a : A) : runs_quiet (ret a).
Proof. intros w. apply quiet_refl. Qed.

Lemma quiet_throw {A} (e : Exn) : runs_quiet (@throw A e).
Proof. intros w. apply quiet_refl. Qed.

Lemma quiet_gets {A} (f : World -> A) : runs_quiet (gets f).
Proof. intros w. apply quiet_refl. Qed.

Lemma quiet_bind {A B} (m : M A) (f : A -> M B) :
  runs_quiet m -> (forall a, runs_quiet (f a)) -> runs_quiet (bind m f).
Proof.
  intros Qm Qf w. unfold bind. specialize (Qm w).
  destruct (m w) as [[a|e] w1]; simpl in *; [|exact Qm].
  eapply quiet_trans; [exact Qm | apply Qf].
Qed.

Lemma quiet_try_finally {A} (body : M A) (fin : M unit) :
  runs_quiet body -> runs_quiet fin -> runs_quiet (try_finally body fin).
Proof.
  intros Qb Qf w. unfold try_finally. specialize (Qb w).
  destruct (body w) as [r w1]. specialize (Qf w1). simpl in *.
  destruct (fin w1) as [[[]|e] w2]; simpl in *;
    eapply quiet_trans; eassumption.
Qed.

Lemma materializations_emit e es w :
  materializations e (emit es w) =
  materializations e w + length (filter (effect_eqb (WriteToDisk e)) es).
Proof.
  unfold materializations. simpl. now rewrite filter_app, length_app.
Qed.

Lemma writes_materialize env e : writes e (materialize env e).
Proof.
  intros w. unfold materialize, bind, modify, ret. simpl.
  split.
  - unfold quiet. simpl. repeat split.
    + rewrite filter_app. simpl. apply app_nil_r.
    + intros e'. rewrite materializations_emit. lia.
  - rewrite materializations_emit. simpl. rewrite Nat.eqb_refl. simpl. lia.
Qed.

Lemma quiet_materialize env e : runs_quiet (materialize env e).
Proof. intros w. apply writes_materialize. Qed.

Lemma returns_materialize env e : returns (materialize env e).
Proof. intros w. eexists. reflexivity. Qed.

Lemma quiet_processIssues env name result throwIssue :
  runs_quiet (processIssues env name result throwIssue).
Proof.
  intros w. rewrite processIssues_run. unfold quiet. simpl. auto 10.
Qed.

Lemma returns_processIssues env name result :
  returns (processIssues env name result false).
Proof.
  intros w. rewrite processIssues_run, andb_false_r. now exists tt.
Qed.

Lemma changeSubscription_run page type includeIssues endpoint w :
  fst (changeSubscription page type includeIssues endpoint w) = Ok tt /\
  quiet w (snd (changeSubscription page type includeIssues endpoint w)).
Proof.
  unfold changeSubscription. destruct endpoint as [e|];
    [|split; [reflexivity | apply quiet_refl]].
  destruct (JsMap.has (subscription_key page type) (changeSubscriptions w));
    (split; [reflexivity|]); [apply quiet_refl|].
  unfold quiet. simpl. auto 10.
Qed.

Lemma quiet_changeSubscription page type includeIssues endpoint :
  runs_quiet (changeSubscription page type includeIssues endpoint).
Proof. intros w. apply changeSubscription_run. Qed.

Lemma returns_changeSubscription page type includeIssues endpoint :
  returns (changeSubscription page type includeIssues endpoint).
Proof. intros w. exists tt. apply changeSubscription_run. Qed.

Lemma returns_ret {A} (a : A) : returns (ret a).
Proof. intros w. now exists a. Qed.

Lemma returns_gets {A} (f : World -> A) : returns (gets f).
Proof. intros w. now exists (f w). Qed.

Lemma returns_bind {A B} (m : M A) (f : A -> M B) :
  returns m -> (forall a, returns (f a)) -> returns (bind m f).
Proof.
  intros Rm Rf w. unfold bind. destruct (Rm w) as [a Ea].
  destruct (m w) as [r w1]. simpl in Ea. subst r. apply Rf.
Qed.

Lemma writes_bind_l {A B} e (m : M A) (f : A -> M B) :
  writes e m -> returns m -> (forall a, runs_quiet (f a)) ->
  writes e (bind m f).
Proof.
  intros Wm Rm Qf w. unfold bind. destruct (Wm w) as [Q C].
  destruct (Rm w) as [a Ea].
  destruct (m w) as [r w1]. simpl in *. subst r.
  specialize (Qf a w1). split; [eapply quiet_trans; eassumption|].
  destruct Qf as (_ & _ & _ & _ & _ & _ & _ & Mono).
  eapply Nat.le_trans; [exact C | apply Mono].
Qed.

Lemma writes_bind_r {A B} e (m : M A) (f : A -> M B) :
  runs_quiet m -> returns m -> (forall a, writes e (f a)) ->
  writes e (bind m f).
Proof.
  intros Qm Rm Wf w. unfold bind. specialize (Qm w).
  destruct (Rm w) as [a Ea].
  destruct (m w) as [r w1]. simpl in *. subst r.
  destruct (Wf a w1) as [Q C]. split; [eapply quiet_trans; eassumption|].
  destruct Qm as (_ & _ & _ & _ & _ & _ & _ & Mono).
  eapply Nat.le_trans; [|exact C]. apply le_n_S, Mono.
Qed.

Lemma writes_try_finally {A} e (body : M A) (fin : M unit) :
  writes e body -> runs_quiet fin -> writes e (try_finally body fin).
Proof.
  intros Wb Qf w. unfold try_finally. destruct (Wb w) as [Q C].
  destruct (body w) as [r w1]. specialize (Qf w1). simpl in *.
  assert (Mono : materializations e w1 <= materializations e (snd (fin w1)))
    by apply Qf.
  destruct (fin w1) as [[[]|x] w2]; simpl in *;
    (split; [eapply quiet_trans; eassumption | lia]).
Qed.

Ltac quiet_steps :=
  repeat first
    [ apply quiet_ret | apply quiet_throw | apply quiet_gets
    | apply quiet_materialize | apply quiet_processIssues
    | apply quiet_changeSubscription
    | apply quiet_try_finally
    | apply quiet_bind; [|intros ?]
    | match goal with
      | |- runs_quiet (match ?x with _ => _ end) => destruct x
      end ].

Ltac returns_steps :=
  repeat first
    [ apply returns_ret | apply returns_gets | apply returns_materialize
    | apply returns_processIssues | apply returns_changeSubscription
    | apply returns_bind; [|intros ?]
    | match goal with
      | |- returns (match ?x with _ => _ end) => destruct x
      end ].

(** The pattern of [handleRouteType]: [startBuilding], a body, and the
    completion handle called in [finally].  Whatever the body returns or
    throws, the key is in "ready" at the end. *)
Lemma build_scope {A} pathname requestUrl (body : M A) w :
  runs_quiet body ->
  let run :=
    (finish <- startBuilding pathname requestUrl false ;;
     try_finally body (call finish)) w in
  fst run = fst (body (snd (startBuilding pathname requestUrl false w))) /\
  JsSet.has pathname (readyIds (snd run)) = true.
Proof.
  intros Qb. cbv zeta. unfold bind, startBuilding.
  destruct (JsSet.has pathname (readyIds w)) eqn:R; simpl.
  - unfold try_finally. specialize (Qb w).
    destruct (body w) as [r w1]. simpl in *.
    split; [reflexivity|]. destruct Qb as (-> & _). exact R.
  - match goal with
    | |- context [try_finally body _ ?w0] => set (ws := w0)
    end.
    unfold try_finally. specialize (Qb ws).
    destruct (body ws) as [r w1]. simpl in *.
    destruct Qb as (Rw & Bw & _).
    assert (Bs : buildingIds ws = JsSet.add pathname (buildingIds w)).
    { unfold ws. now destruct (Nat.eqb (JsSet.size (buildingIds w)) 0). }
    unfold finishBuilding. rewrite Bw, Bs, set_size_add. simpl.
    split; [reflexivity|].
    match goal with
    | |- context [if ?c then _ else _] => destruct c
    end; simpl; rewrite set_has_add;
      change (keqb pathname pathname) with (String.eqb pathname pathname);
      now rewrite String.eqb_refl.
Qed.

Lemma processIssues_throws env name result issue w :
  In issue result ->
  severity issue = "error" ->
  in_node_modules (filePath issue) = false ->
  exists msg,
    fst (processIssues env name result true w) = Throw (ModuleBuildError msg)
    /\ includes (formatIssue env issue) msg = true.
Proof.
  intros I S NM. rewrite processIssues_run.
  assert (EF : is_error_or_fatal issue = true)
    by (unfold is_error_or_fatal; now rewrite S).
  pose proof (loop_relevant_complete env result [] [] issue I EF NM) as Rel.
  destruct (snd (processIssues_loop env result [] [])) as [|x rel] eqn:E;
    [contradiction|].
  unfold JsSet.size. cbn [length Nat.eqb negb andb fst].
  eexists. split; [reflexivity|]. now apply includes_concat.
Qed.

(** C1, as the code has it.  A request reaches an app page or an app route
    whose materialization reports an issue of severity error outside
    [node_modules]: [ensurePage] throws a [ModuleBuildError] whose message
    contains the formatted issue, and, the completion handle being called on
    the way out, the key of the unit is in "ready" after the throw. *)
Theorem app_unit_issue_thrown :
  forall env inputPage definition isApp requestUrl page route endpoint issue w,
    blocked env inputPage = false ->
    resolve_page env inputPage definition = inr page ->
    page <> "/_error" ->
    lookup_route definition isApp page w = Some route ->
    throws_on_issue route = true ->
    unit_endpoint page route = Some endpoint ->
    In issue (we_issues (writeToDisk env endpoint)) ->
    severity issue = "error" ->
    in_node_modules (filePath issue) = false ->
    let run := ensurePage env inputPage definition isApp requestUrl w in
    (exists msg,
       fst run = Throw (ModuleBuildError msg) /\
       includes (formatIssue env issue) msg = true) /\
    JsSet.has (request_pathname inputPage definition) (readyIds (snd run))
      = true.
Proof.
  intros env inputPage definition isApp requestUrl page route endpoint issue w
         B R N L T U I S NM. cbv zeta.
  rewrite (@ensurePage_resolved env inputPage definition isApp requestUrl
             page w B R N), L.
  destruct route as [h d|e|pages|name e|t]; try discriminate T.
  - (* app-page *)
    simpl route_type. rewrite andb_false_r.
    simpl in U. unfold handleRouteType.
    destruct (find_page page pages) as [pageRoute|]; [|discriminate U].
    injection U as <-.
    match goal with
    | |- context [bind (startBuilding ?p ?u false)
                    (fun finish => try_finally ?body (call finish))] =>
        destruct (@build_scope _ p u body w) as [F Rd]; [quiet_steps|]
    end.
    split; [|exact Rd]. rewrite F.
    unfold bind at 1. unfold materialize at 1, bind at 1, modify, ret.
    cbv beta iota. unfold bind at 1.
    match goal with
    | |- context [changeSubscription ?a ?b ?c ?d ?w0] =>
        destruct (changeSubscription_run a b c d w0) as [O _];
        destruct (changeSubscription a b c d w0) as [r w1]
    end.
    simpl in O. subst r. now apply processIssues_throws.
  - (* app-route *)
    simpl route_type. rewrite andb_false_r.
    simpl in U. injection U as <-. unfold handleRouteType.
    match goal with
    | |- context [bind (startBuilding ?p ?u false)
                    (fun finish => try_finally ?body (call finish))] =>
        destruct (@build_scope _ p u body w) as [F Rd]; [quiet_steps|]
    end.
    split; [|exact Rd]. rewrite F.
    unfold bind at 1. unfold materialize at 1, bind at 1, modify, ret.
    cbv beta iota. now apply processIssues_throws.
Qed.

Lemma app_unit_issue_thrown_witness :
  let run := ensurePage Demo.env "/broken" None false None Demo.directory in
  (exists msg,
     fst run = Throw (ModuleBuildError msg) /\
     includes (formatIssue Demo.env Demo.boom) msg = true) /\
  JsSet.has "/broken" (readyIds (snd run)) = true.
Proof.
  apply (@app_unit_issue_thrown Demo.env "/broken" None false None "/broken"
           (RouteAppRoute "/broken/route" 1) 1 Demo.boom Demo.directory);
    try reflexivity.
  - discriminate.
  - left. reflexivity.
Defined.

(** C1 as stated fails in its last part: after the throw the key of the
    unit is a member of "ready". *)
Lemma broken_unit_marked_ready :
  let run := ensurePage Demo.env "/broken" None false None Demo.directory in
  fst run
  = Throw (ModuleBuildError ("./app/broken/route.ts" ++ nl ++ "boom" ++ nl)) /\
  readyIds (snd run) = ["/broken"] /\
  buildingIds (snd run) = [].
Proof. vm_compute. auto. Qed.

(** With the unit in "ready", [startBuilding] returns the inert handle and
    the body runs all the same. *)
Lemma ready_scope {A} e pathname requestUrl (body : M A) w :
  JsSet.has pathname (readyIds w) = true ->
  writes e body ->
  let run :=
    (finish <- startBuilding pathname requestUrl false ;;
     try_finally body (call finish)) w in
  quiet w (snd run) /\
  S (materializations e w) <= materializations e (snd run).
Proof.
  intros R Wb. cbv zeta. unfold bind, startBuilding. rewrite R. simpl.
  unfold try_finally. destruct (Wb w) as [Q C].
  destruct (body w) as [r w1]. simpl in *. auto.
Qed.

Lemma lookup_route_quiet definition isApp page w w' :
  quiet w w' ->
  lookup_route definition isApp page w' = lookup_route definition isApp page w.
Proof.
  intros (_ & _ & E & A & _). unfold lookup_route. now rewrite E, A.
Qed.

(** One request for a unit that is ready. *)
Lemma ensure_ready_once
  env inputPage definition isApp requestUrl page route endpoint w :
  blocked env inputPage = false ->
  resolve_page env inputPage definition = inr page ->
  page <> "/_error" ->
  lookup_route definition isApp page w = Some route ->
  (isApp && String.eqb (route_type route) "page") = false ->
  unit_endpoint page route = Some endpoint ->
  JsSet.has (request_pathname inputPage definition) (readyIds w) = true ->
  let w1 := snd (ensurePage env inputPage definition isApp requestUrl w) in
  quiet w w1 /\
  S (materializations endpoint w) <= materializations endpoint w1.
Proof.
  intros B R N L Mis U Rd. cbv zeta.
  rewrite (@ensurePage_resolved env inputPage definition isApp requestUrl
             page w B R N), L, Mis.
  destruct route as [h d|e|pages|name e|t]; simpl in U; try discriminate U;
    unfold handleRouteType.
  - injection U as <-.
    apply ready_scope; [exact Rd|].
    apply writes_try_finally; [|quiet_steps].
    apply writes_bind_r; [quiet_steps | returns_steps | intros app].
    apply writes_bind_r; [quiet_steps | returns_steps | intros _].
    apply writes_bind_r; [quiet_steps | returns_steps | intros document].
    apply writes_bind_r; [quiet_steps | returns_steps | intros _].
    apply writes_bind_l;
      [apply writes_materialize | returns_steps | intros; quiet_steps].
  - injection U as <-.
    apply ready_scope; [exact Rd|].
    apply writes_bind_l;
      [apply writes_materialize | returns_steps | intros; quiet_steps].
  - destruct (find_page page pages) as [pageRoute|]; [|discriminate U].
    injection U as <-.
    apply ready_scope; [exact Rd|].
    apply writes_bind_l;
      [apply writes_materialize | returns_steps | intros; quiet_steps].
  - injection U as <-.
    apply ready_scope; [exact Rd|].
    apply writes_bind_l;
      [apply writes_materialize | returns_steps | intros; quiet_steps].
Qed.

(** C3, as the code has it.  Two requests in a row for a unit that is in
    "ready": each of them materializes the endpoint of the unit again.  What
    the ready test spares is the bookkeeping: the two sets are as before and
    no loading indicator is set. *)
Theorem ready_unit_materialized_on_each_request :
  forall env inputPage definition isApp requestUrl page route endpoint w,
    blocked env inputPage = false ->
    resolve_page env inputPage definition = inr page ->
    page <> "/_error" ->
    lookup_route definition isApp page w = Some route ->
    (isApp && String.eqb (route_type route) "page") = false ->
    unit_endpoint page route = Some endpoint ->
    JsSet.has (request_pathname inputPage definition) (readyIds w) = true ->
    let w1 := snd (ensurePage env inputPage definition isApp requestUrl w) in
    let w2 := snd (ensurePage env inputPage definition isApp requestUrl w1) in
    S (materializations endpoint w) <= materializations endpoint w1 /\
    S (materializations endpoint w1) <= materializations endpoint w2 /\
    readyIds w2 = readyIds w /\
    buildingIds w2 = buildingIds w /\
    filter is_set_loading (effects w2) = filter is_set_loading (effects w).
Proof.
  intros env inputPage definition isApp requestUrl page route endpoint w
         B R N L Mis U Rd. cbv zeta.
  destruct (@ensure_ready_once env inputPage definition isApp requestUrl page
              route endpoint w B R N L Mis U Rd) as [Q1 C1].
  set (w1 := snd (ensurePage env inputPage definition isApp requestUrl w))
    in *.
  assert (L1 : lookup_route definition isApp page w1 = Some route)
    by (rewrite (lookup_route_quiet definition isApp page Q1); exact L).
  assert (Rd1 : JsSet.has (request_pathname inputPage definition)
                  (readyIds w1) = true).
  { destruct Q1 as (-> & _). exact Rd. }
  destruct (@ensure_ready_once env inputPage definition isApp requestUrl page
              route endpoint w1 B R N L1 Mis U Rd1) as [Q2 C2].
  pose proof (quiet_trans Q1 Q2) as (Rw & Bw & _ & _ & _ & _ & Lw & _).
  auto.
Qed.

Lemma ready_unit_materialized_on_each_request_witness :
  let w := Demo.hello_ready in
  let w1 := snd (ensurePage Demo.env "/api/hello" None false None w) in
  let w2 := snd (ensurePage Demo.env "/api/hello" None false None w1) in
  S (materializations 2 w) <= materializations 2 w1 /\
  S (materializations 2 w1) <= materializations 2 w2 /\
  readyIds w2 = readyIds w /\
  buildingIds w2 = buildingIds w /\
  filter is_set_loading (effects w2) = filter is_set_loading (effects w).
Proof.
  apply (@ready_unit_materialized_on_each_request Demo.env "/api/hello" None
           false None "/api/hello" (RoutePageApi 2) 2 Demo.hello_ready);
    try reflexivity.
  discriminate.
Defined.

(** C3 as stated fails: [/api/hello] is ready, and two requests for it call
    [writeToDisk] on its endpoint twice. *)
Lemma ready_unit_written_twice :
  let w := Demo.hello_ready in
  let w1 := snd (ensurePage Demo.env "/api/hello" None false None w) in
  let w2 := snd (ensurePage Demo.env "/api/hello" None false None w1) in
  JsSet.has "/api/hello" (readyIds w) = true /\
  materializations 2 w2 = materializations 2 w + 2.
Proof. vm_compute. auto. Qed.

(** C6 on a run: two flushes are held back by the issue of [/broken]; once
    the ledger is cleared, the flush sends the change and the update. *)
Lemma flush_gated_by_ledger_witness :
  let w := Demo.broken_failed in
  let w1 := run_queue Demo.held_back w in
  effects w1 = effects w /\
  ledger_blocked w1 = false /\
  effects (snd (sendEnqueuedMessages w1)) =
    (effects w ++
     [ClientSend 1 (SERVER_ONLY_CHANGES ["/about"]);
      ClientSend 1 (TURBOPACK_MESSAGE [Demo.update "change"])])%list.
Proof.
  cbv zeta.
  destruct (@flush_gated_by_ledger Demo.held_back Demo.broken_failed)
    as (E & _ & _ & _ & F); [reflexivity|].
  split; [exact E|]. split; [reflexivity|].
  destruct (F eq_refl) as (E2 & _). rewrite E2, E. reflexivity.
Defined.

(** * Further properties *)

(** ** Require-cache clearing *)

Lemma map_set_same {V} (k : string) (v : V) (m : JsMap.t string V) :
  JsMap.get k m = Some v -> JsMap.set k v m = m.
Proof.
  induction m as [|[k' v'] m IH]; simpl; [discriminate|].
  destruct (String.eqb_spec k k') as [->|N].
  - now intros [= ->].
  - intros G. now rewrite IH.
Qed.

Lemma record_flag_kept id serverPaths :
  forall st, fst (record_server_paths id serverPaths true st) = true.
Proof.
  induction serverPaths as [|[path hash] rest IH]; intros st; simpl;
    [reflexivity|].
  destruct (ends_with ".map" path); [apply IH|].
  match goal with |- context [if ?c then _ else _] => destruct c end;
    apply IH.
Qed.

Lemma truthy_Some r : r <> "" -> truthy (Some r) = true.
Proof. intros N. simpl. apply String.eqb_neq in N. now rewrite N. Qed.

Lemma untruthy_other (k k' r : string) (st : JsMap.t string string) :
  JsMap.get k st = Some r -> r <> "" ->
  truthy (JsMap.get k' st) = false ->
  k <> k'.
Proof.
  intros G N T ->. rewrite G, truthy_Some in T by exact N. discriminate.
Qed.

Lemma record_detects id k recorded p serverPaths :
  In p serverPaths ->
  ends_with ".map" (sp_path p) = false ->
  k = sp_path p \/ k = id ++ ":" ++ sp_path p ->
  recorded <> "" ->
  recorded <> sp_contentHash p ->
  forall hasChange st,
    JsMap.get k st = Some recorded ->
    fst (record_server_paths id serverPaths hasChange st) = true.
Proof.
  intros I NM K NE D.
  induction serverPaths as [|[path hash] rest IH]; [contradiction|].
  intros hasChange st G. simpl.
  destruct (ends_with ".map" path) eqn:M.
  - destruct I as [<-|I]; [simpl in NM; congruence | now apply IH].
  - match goal with
    | |- context [if ?c then record_server_paths _ _ true _ else _] =>
        destruct c eqn:C
    end; [apply record_flag_kept|].
    apply orb_false_iff in C. destruct C as [CL CG].
    destruct I as [<-|I].
    + exfalso. simpl in K, D. apply String.eqb_neq in D.
      destruct K as [->| ->].
      * rewrite G in CG.
        rewrite truthy_Some in CG by exact NE. simpl in CG.
        rewrite D in CG. discriminate.
      * rewrite G in CL.
        rewrite truthy_Some in CL by exact NE. simpl in CL.
        rewrite D in CL. discriminate.
    + apply IH; [exact I|].
      repeat match goal with
             | |- context [if truthy ?x then _ else _] =>
                 destruct (truthy x) eqn:?
             end;
        rewrite ?map_get_set_other
          by (eapply untruthy_other; eassumption);
        exact G.
Qed.

(** X1.  A server path whose recorded hash, under the path itself or under
    the path prefixed with the unit's id, is not empty and is not the hash
    of the new result makes the whole result a change, wherever the path
    stands in the list; the module context and the require cache of every
    server path of the result are then cleared. *)
Theorem changed_hash_clears_caches :
  forall join distDir id serverPaths st p k recorded,
    In p serverPaths ->
    ends_with ".map" (sp_path p) = false ->
    k = sp_path p \/ k = id ++ ":" ++ sp_path p ->
    JsMap.get k st = Some recorded ->
    recorded <> "" ->
    recorded <> sp_contentHash p ->
    fst (record_server_paths id serverPaths false st) = true /\
    forall q, In q serverPaths ->
      let effects :=
        fst (handleRequireCacheClearing join distDir id serverPaths st) in
      In (ClearModuleContext (join distDir (sp_path q))) effects /\
      In (DeleteCache (join distDir (sp_path q))) effects.
Proof.
  intros join distDir id serverPaths st p k recorded I NM K G NE D.
  pose proof (@record_detects id k recorded p serverPaths I NM K NE D
                false st G) as F.
  split; [exact F|]. intros q Iq. cbv zeta.
  unfold handleRequireCacheClearing.
  destruct (record_server_paths id serverPaths false st) as [flag st'].
  simpl in F. subst flag. simpl.
  split; apply in_or_app; right; apply in_flat_map; exists q;
    (split; [exact Iq|]); simpl; auto.
Qed.

Lemma changed_hash_clears_caches_witness :
  let join := fun a b => a ++ "/" ++ b in
  let serverPaths :=
    [ {| sp_path := "server/pages/a.js.map"; sp_contentHash := "m2" |};
      {| sp_path := "server/pages/a.js"; sp_contentHash := "h2" |} ] in
  let st := [("server/pages/a.js", "h1"); ("/a:server/pages/a.js", "h1")] in
  fst (record_server_paths "/a" serverPaths false st) = true /\
  forall q, In q serverPaths ->
    let effects :=
      fst (handleRequireCacheClearing join ".next" "/a" serverPaths st) in
    In (ClearModuleContext (join ".next" (sp_path q))) effects /\
    In (DeleteCache (join ".next" (sp_path q))) effects.
Proof.
  apply (@changed_hash_clears_caches (fun a b => a ++ "/" ++ b) ".next" "/a"
           [ {| sp_path := "server/pages/a.js.map"; sp_contentHash := "m2" |};
             {| sp_path := "server/pages/a.js"; sp_contentHash := "h2" |} ]
           [("server/pages/a.js", "h1"); ("/a:server/pages/a.js", "h1")]
           {| sp_path := "server/pages/a.js"; sp_contentHash := "h2" |}
           "server/pages/a.js" "h1");
    try reflexivity; try discriminate.
  - right. now left.
  - now left.
Defined.

Lemma record_skips_source_maps id serverPaths :
  forall hasChange st,
    record_server_paths id serverPaths hasChange st =
    record_server_paths id
      (filter (fun p => negb (ends_with ".map" (sp_path p))) serverPaths)
      hasChange st.
Proof.
  induction serverPaths as [|[path hash] rest IH]; intros hasChange st;
    [reflexivity|].
  simpl. destruct (ends_with ".map" path) eqn:M; simpl; [apply IH|].
  rewrite M.
  match goal with |- context [if ?c then _ else _] => destruct c end;
    apply IH.
Qed.

(** X2.  Source maps take no part in the detection: a result is judged,
    and [serverPathState] updated, as if its [.map] paths were not there; a
    result made of source maps only clears nothing and records nothing. *)
Theorem source_maps_ignored :
  forall join distDir id serverPaths st,
    record_server_paths id serverPaths false st =
    record_server_paths id
      (filter (fun p => negb (ends_with ".map" (sp_path p))) serverPaths)
      false st /\
    (forallb (fun p => ends_with ".map" (sp_path p)) serverPaths = true ->
     handleRequireCacheClearing join distDir id serverPaths st = ([], st)).
Proof.
  intros join distDir id serverPaths st.
  split; [apply record_skips_source_maps|].
  intros A. unfold handleRequireCacheClearing.
  rewrite record_skips_source_maps.
  assert (E : filter (fun p => negb (ends_with ".map" (sp_path p)))
                serverPaths = []).
  { induction serverPaths as [|p rest IH]; [reflexivity|].
    simpl in A. apply andb_true_iff in A. destruct A as [Mp A].
    simpl. rewrite Mp. simpl. now apply IH. }
  now rewrite E.
Qed.

Lemma source_maps_ignored_witness :
  handleRequireCacheClearing (fun a b => a ++ "/" ++ b) ".next" "/a"
    [ {| sp_path := "server/pages/a.js.map"; sp_contentHash := "m2" |} ]
    [("server/pages/a.js.map", "m1")]
  = ([], [("server/pages/a.js.map", "m1")]).
Proof.
  apply (proj2 (source_maps_ignored (fun a b => a ++ "/" ++ b) ".next" "/a"
                  [ {| sp_path := "server/pages/a.js.map";
                       sp_contentHash := "m2" |} ]
                  [("server/pages/a.js.map", "m1")])).
  reflexivity.
Defined.

Lemma prefixed_neq (id path : string) : id ++ ":" ++ path <> path.
Proof.
  intros E. apply (f_equal String.length) in E.
  rewrite !length_append in E. simpl in E. lia.
Qed.

Lemma append_inj_l (a b c : string) : a ++ b = a ++ c -> b = c.
Proof.
  induction a as [|x a IH]; simpl; [auto|]. intros [= E]. auto.
Qed.

(** Content that is recorded already is no change. *)
Lemma record_settled id serverPaths :
  forall hasChange st,
    (forall p, In p (tracked serverPaths) -> settled id st p) ->
    record_server_paths id serverPaths hasChange st = (hasChange, st).
Proof.
  induction serverPaths as [|[path hash] rest IH]; intros hasChange st S;
    [reflexivity|].
  simpl. unfold tracked in S. simpl in S.
  destruct (ends_with ".map" path) eqn:M; simpl in S; [now apply IH|].
  destruct (S {| sp_path := path; sp_contentHash := hash |}
              (or_introl eq_refl)) as [G L].
  cbn [sp_path sp_contentHash] in G, L.
  change (id ++ String ":" path) with (id ++ ":" ++ path).
  rewrite G, L. unfold differs. rewrite String.eqb_refl. cbn [negb].
  rewrite !andb_false_r. cbn [orb].
  assert (S' : forall p, In p (tracked rest) -> settled id st p)
    by (intros p I; apply S; now right).
  destruct (truthy (Some hash)); [now apply IH|].
  rewrite (map_set_same _ _ L), (map_set_same _ _ G). now apply IH.
Qed.

(** What the loop does not write, it keeps. *)
Lemma record_keeps id k v serverPaths :
  forall hasChange st,
    (forall p, In p (tracked serverPaths) ->
               k <> sp_path p /\ k <> id ++ ":" ++ sp_path p) ->
    JsMap.get k st = Some v ->
    JsMap.get k (snd (record_server_paths id serverPaths hasChange st))
    = Some v.
Proof.
  induction serverPaths as [|[path hash] rest IH]; intros hasChange st F G;
    [exact G|].
  simpl. unfold tracked in F. simpl in F.
  destruct (ends_with ".map" path) eqn:M; simpl in F; [now apply IH|].
  destruct (F {| sp_path := path; sp_contentHash := hash |}
              (or_introl eq_refl)) as [N1 N2]. simpl in N1, N2.
  assert (F' : forall p, In p (tracked rest) ->
                 k <> sp_path p /\ k <> id ++ ":" ++ sp_path p)
    by (intros p I; apply F; now right).
  match goal with
  | |- context [if ?c then record_server_paths _ _ true _ else _] =>
      destruct c
  end.
  - apply IH; [exact F'|]. now rewrite !map_get_set_other.
  - apply IH; [exact F'|].
    repeat match goal with
           | |- context [if truthy ?x then _ else _] => destruct (truthy x)
           end;
      rewrite ?map_get_set_other by assumption; exact G.
Qed.

(** One entry of the loop leaves its hash under both keys. *)
Lemma record_settles_head id path hash rest hasChange st :
  ends_with ".map" path = false ->
  exists flag st',
    record_server_paths id
      ({| sp_path := path; sp_contentHash := hash |} :: rest) hasChange st
    = record_server_paths id rest flag st' /\
    JsMap.get path st' = Some hash /\
    JsMap.get (id ++ ":" ++ path) st' = Some hash.
Proof.
  intros M. simpl. rewrite M.
  change (id ++ String ":" path) with (id ++ ":" ++ path).
  pose proof (@prefixed_neq id path) as N.
  assert (N' : path <> id ++ ":" ++ path) by congruence.
  destruct (JsMap.get (id ++ ":" ++ path) st) as [l|] eqn:L;
    destruct (JsMap.get path st) as [g|] eqn:G; simpl;
    repeat match goal with
           | |- context [String.eqb ?a ?b] =>
               destruct (String.eqb_spec a b); subst; simpl
           end;
    eexists _, _; (split; [reflexivity|]);
    rewrite ?map_get_set_same, ?map_get_set_other, ?map_get_set_same
      by assumption;
    auto.
Qed.

Lemma record_settles id serverPaths :
  forall hasChange st,
    separate_keys id serverPaths ->
    forall p, In p (tracked serverPaths) ->
      settled id (snd (record_server_paths id serverPaths hasChange st)) p.
Proof.
  induction serverPaths as [|[path hash] rest IH];
    intros hasChange st [ND Sep] p I; [contradiction|].
  unfold tracked in *. simpl in ND, Sep, I.
  destruct (ends_with ".map" path) eqn:M; simpl in ND, Sep, I.
  - simpl. rewrite M. apply IH; [split; assumption | exact I].
  - destruct (@record_settles_head id path hash rest hasChange st M)
      as (flag & st' & -> & G & L).
    inversion ND as [|? ? NI ND']; subst.
    assert (Sep' : separate_keys id rest).
    { split; [exact ND'|]. intros a b Ia Ib. apply Sep; now right. }
    destruct I as [<-|I]; [|now apply IH].
    split; simpl; apply record_keeps; try assumption.
    + intros q Iq. split.
      * intros E. apply NI. rewrite E. now apply in_map.
      * intros E. apply (Sep q {| sp_path := path; sp_contentHash := hash |});
          [now right | now left | now symmetry].
    + intros q Iq. split.
      * apply (Sep {| sp_path := path; sp_contentHash := hash |} q);
          [now left | now right].
      * intros E. apply append_inj_l in E. simpl in E. injection E as E.
        apply NI. rewrite E. now apply in_map.
Qed.

(** X3.  A result that comes again is no change.  When no path of a result
    occurs twice and none collides with a prefixed one, the state the first
    pass leaves has every hash of the result recorded, so that a second pass
    over the same result, whatever the first one found, reports no change,
    clears no cache and leaves [serverPathState] as it is. *)
Theorem same_result_is_no_change :
  forall join distDir id serverPaths st,
    separate_keys id serverPaths ->
    let st1 :=
      snd (handleRequireCacheClearing join distDir id serverPaths st) in
    handleRequireCacheClearing join distDir id serverPaths st1 = ([], st1).
Proof.
  intros join distDir id serverPaths st Sep. cbv zeta.
  assert (E : snd (handleRequireCacheClearing join distDir id serverPaths st)
              = snd (record_server_paths id serverPaths false st)).
  { unfold handleRequireCacheClearing.
    destruct (record_server_paths id serverPaths false st) as [[|] st'];
      reflexivity. }
  rewrite E. unfold handleRequireCacheClearing at 1.
  rewrite record_settled; [reflexivity|].
  intros p I. now apply record_settles.
Qed.

Lemma same_result_is_no_change_witness :
  let join := fun a b => a ++ "/" ++ b in
  let serverPaths :=
    [ {| sp_path := "server/pages/a.js"; sp_contentHash := "h2" |};
      {| sp_path := "server/pages/a.js.map"; sp_contentHash := "m2" |};
      {| sp_path := "server/chunks/b.js"; sp_contentHash := "h3" |} ] in
  let st := [("server/pages/a.js", "h1")] in
  let st1 := snd (handleRequireCacheClearing join ".next" "/a" serverPaths st)
  in
  handleRequireCacheClearing join ".next" "/a" serverPaths st1 = ([], st1).
Proof.
  apply (@same_result_is_no_change (fun a b => a ++ "/" ++ b) ".next" "/a"
           [ {| sp_path := "server/pages/a.js"; sp_contentHash := "h2" |};
             {| sp_path := "server/pages/a.js.map"; sp_contentHash := "m2" |};
             {| sp_path := "server/chunks/b.js"; sp_contentHash := "h3" |} ]
           [("server/pages/a.js", "h1")]).
  split.
  - simpl. repeat constructor; simpl; intuition discriminate.
  - simpl. intros p q [<-|[<-|[]]] [<-|[<-|[]]]; discriminate.
Defined.

(** ** The build tracker, continued *)

Lemma loading_after_app es1 es2 current :
  loading_after (es1 ++ es2)%list current
  = loading_after es2 (loading_after es1 current).
Proof.
  revert current. induction es1 as [|e es1 IH]; intros current; simpl;
    [reflexivity|].
  destruct e; apply IH.
Qed.

Lemma set_size_zero {K} `{EqKey K} (s : JsSet.t K) :
  Nat.eqb (JsSet.size s) 0 = true -> s = [].
Proof.
  intros E. apply Nat.eqb_eq in E. now apply length_zero_iff_nil.
Qed.

Lemma startBuilding_loading id requestUrl forceRebuild w :
  loading w = negb (Nat.eqb (JsSet.size (buildingIds w)) 0) ->
  let w' := snd (startBuilding id requestUrl forceRebuild w) in
  loading w' = negb (Nat.eqb (JsSet.size (buildingIds w')) 0).
Proof.
  intros Inv. cbv zeta. unfold startBuilding.
  destruct (negb forceRebuild && JsSet.has id (readyIds w)); [exact Inv|].
  destruct (Nat.eqb (JsSet.size (buildingIds w)) 0) eqn:Z; simpl.
  - rewrite set_size_add. unfold loading. simpl.
    now rewrite loading_after_app.
  - rewrite set_size_add. unfold loading in *. simpl. exact Inv.
Qed.

Lemma finishBuilding_loading id w :
  loading w = negb (Nat.eqb (JsSet.size (buildingIds w)) 0) ->
  let w' := snd (finishBuilding id w) in
  loading w' = negb (Nat.eqb (JsSet.size (buildingIds w')) 0).
Proof.
  intros Inv. cbv zeta. unfold finishBuilding.
  destruct (Nat.eqb (JsSet.size (buildingIds w)) 0) eqn:Z; simpl;
    [now rewrite Z|].
  destruct (Nat.eqb (JsSet.size (JsSet.delete id (buildingIds w))) 0) eqn:Z';
    simpl; rewrite Z'.
  - unfold loading. simpl. now rewrite loading_after_app.
  - unfold loading in *. simpl. exact Inv.
Qed.

Lemma run_tracker_loading evs :
  forall handles w,
    loading w = negb (Nat.eqb (JsSet.size (buildingIds w)) 0) ->
    loading (run_tracker evs handles w)
    = negb (Nat.eqb (JsSet.size (buildingIds (run_tracker evs handles w))) 0).
Proof.
  induction evs as [|ev evs IH]; intros handles w Inv; [exact Inv|].
  destruct ev as [id url force|n]; simpl.
  - pose proof (@startBuilding_loading id url force w Inv) as Inv'.
    cbv zeta in Inv'.
    destruct (startBuilding id url force w) as [[h|e] w']; now apply IH.
  - destruct (nth_error handles n) as [[|id]|]; apply IH; try exact Inv.
    now apply finishBuilding_loading.
Qed.

(** X4.  Over every run of the tracker, forced rebuilds and late or
    repeated calls of completion handles included, the loading indicator of
    the console store is on exactly while some unit is in "building". *)
Theorem loading_while_building :
  forall evs,
    let w := run_tracker evs [] initial in
    loading w = negb (Nat.eqb (JsSet.size (buildingIds w)) 0).
Proof.
  intros evs. apply run_tracker_loading. reflexivity.
Qed.

Lemma set_add_present {K} `{EqKey K} (k : K) (s : JsSet.t K) :
  JsSet.has k s = true -> JsSet.add k s = s.
Proof. unfold JsSet.add. now intros ->. Qed.

Lemma set_delete_absent {K} `{EqKey K} (k : K) (s : JsSet.t K) :
  JsSet.has k s = false -> JsSet.delete k s = s.
Proof.
  induction s as [|x s IH]; simpl; [reflexivity|].
  intros E. apply orb_false_iff in E. destruct E as [Ex Es].
  rewrite Ex. now rewrite IH.
Qed.

Lemma set_add_add {K} `{EqKey K} (k : K) (s : JsSet.t K) :
  JsSet.add k (JsSet.add k s) = JsSet.add k s.
Proof.
  apply set_add_present. rewrite set_has_add, keqb_refl. reflexivity.
Qed.

Lemma set_delete_delete {K} `{EqKey K} (k : K) (s : JsSet.t K) :
  JsSet.delete k (JsSet.delete k s) = JsSet.delete k s.
Proof.
  apply set_delete_absent. rewrite set_has_delete, keqb_refl. reflexivity.
Qed.

(** X5.  Calling a completion handle a second time right after the first
    changes nothing: no set moves and nothing more reaches the console
    store. *)
Theorem completion_handle_idempotent :
  forall h w,
    call h (snd (call h w)) = (Ok tt, snd (call h w)).
Proof.
  intros [|id] w; [reflexivity|]. simpl. unfold finishBuilding.
  destruct (Nat.eqb (JsSet.size (buildingIds w)) 0) eqn:Z; simpl;
    [now rewrite Z|].
  destruct (Nat.eqb (JsSet.size (JsSet.delete id (buildingIds w))) 0) eqn:Z';
    simpl; rewrite ?Z'; [reflexivity|].
  rewrite set_delete_delete, set_add_add, Z'. reflexivity.
Qed.

(** ** Change subscriptions, continued *)

(** X6.  The registry key of a subscription determines its page and its
    phase: two subscriptions share a key only when they are for the same
    page and the same phase, and stripping the phase from a key gives the
    page back. *)
Theorem subscription_key_injective :
  forall page page' type type',
    subscription_key page type = subscription_key page' type' ->
    page = page' /\ type = type'.
Proof.
  intros page page' type type' E.
  assert (P : page = page').
  { rewrite <- (strip_phase_subscription_key page type), E.
    apply strip_phase_subscription_key. }
  split; [exact P|]. subst page'. unfold subscription_key in E.
  apply append_inj_l in E.
  destruct type, type'; try reflexivity; discriminate E.
Qed.

Lemma subscription_key_injective_witness :
  "/about" = "/about" /\ Server = Server.
Proof.
  apply (@subscription_key_injective "/about" "/about" Server Server).
  reflexivity.
Defined.

(** X7.  The first subscription of a page and phase stays: a later
    [changeSubscription] for the same page and phase, whatever endpoint and
    flag it comes with, returns without any change. *)
Theorem second_subscription_ignored :
  forall page type includeIssues endpoint includeIssues' endpoint' w,
    let w1 :=
      snd (changeSubscription page type includeIssues (Some endpoint) w) in
    changeSubscription page type includeIssues' endpoint' w1 = (Ok tt, w1) /\
    (JsMap.has (subscription_key page type) (changeSubscriptions w) = false ->
     JsMap.get (subscription_key page type) (changeSubscriptions w1)
     = Some (ChangeStream endpoint type includeIssues)).
Proof.
  intros page type i e i' e' w. cbv zeta.
  assert (H1 : JsMap.has (subscription_key page type)
                 (changeSubscriptions
                    (snd (changeSubscription page type i (Some e) w))) = true).
  { unfold changeSubscription.
    destruct (JsMap.has (subscription_key page type) (changeSubscriptions w))
      eqn:Hk; simpl; [exact Hk|].
    unfold JsMap.has. now rewrite map_get_set_same. }
  split.
  - unfold changeSubscription at 1. rewrite H1. now destruct e'.
  - intros Hk. unfold changeSubscription. rewrite Hk. simpl.
    apply map_get_set_same.
Qed.

(** X8.  [clearChangeSubscription] returns the iterator of the
    subscription, if there is one, and takes it out of the registry; the
    ledger entry it deletes is the one named by the registry key, so the
    bucket recorded under the page name stays as it is. *)
Theorem clear_subscription_keeps_page_bucket :
  forall page type w,
    let key := subscription_key page type in
    let w' := snd (clearChangeSubscription page type w) in
    JsMap.has key (changeSubscriptions w') = false /\
    JsMap.get page (issues w') = JsMap.get page (issues w) /\
    effects w' =
      (effects w ++
       match JsMap.get key (changeSubscriptions w) with
       | Some subscription => [IterReturn subscription]
       | None => []
       end)%list.
Proof.
  intros page type w. cbv zeta. unfold clearChangeSubscription.
  assert (N : keqb page (subscription_key page type) = false).
  { apply keqb_neq. intros E. apply (f_equal String.length) in E.
    unfold subscription_key in E. rewrite !length_append in E.
    destruct type; simpl in E; lia. }
  destruct (JsMap.get (subscription_key page type) (changeSubscriptions w))
    as [subscription|] eqn:G; simpl.
  - rewrite map_has_delete, keqb_refl, map_get_delete, N. auto.
  - rewrite map_get_delete, N, app_nil_r. unfold JsMap.has. rewrite G. auto.
Qed.

(** ** Raw subscriptions, continued *)

(** X9.  Once a client holds a raw subscription for an id it holds it for
    good: [unsubscribeToHmrEvents] returns the iterator and keeps the entry,
    and a [subscribeToHmrEvents] for an id the client holds is ignored,
    whatever the engine would yield. *)
Theorem resubscribe_ignored :
  forall env id client stream w,
    subscribed id client w = true ->
    subscribeToHmrEvents env id client stream w = (Ok tt, w) /\
    subscribed id client (snd (unsubscribeToHmrEvents id client w)) = true /\
    subscribeToHmrEvents env id client stream
      (snd (unsubscribeToHmrEvents id client w))
    = (Ok tt, snd (unsubscribeToHmrEvents id client w)).
Proof.
  intros env id client stream w S.
  assert (Sub : forall w0, subscribed id client w0 = true ->
                  subscribeToHmrEvents env id client stream w0 = (Ok tt, w0)).
  { intros w0 S0. unfold subscribed in S0. unfold subscribeToHmrEvents.
    unfold bind at 1, gets at 1.
    destruct (JsMap.get client (clientToHmrSubscription w0)) as [mapping|];
      [|discriminate].
    unfold bind at 1, modify at 1. now rewrite S0. }
  assert (U : subscribed id client (snd (unsubscribeToHmrEvents id client w))
              = true).
  { unfold unsubscribeToHmrEvents, subscribed in *.
    destruct (JsMap.get client (clientToHmrSubscription w)) as [mapping|]
      eqn:G; [|discriminate].
    destruct (JsMap.get id mapping); simpl; now rewrite G. }
  auto.
Qed.

Lemma resubscribe_ignored_witness :
  let w :=
    snd (subscribeToHmrEvents Demo.env "/x" 1
           [Yield (Demo.update "initial")] Demo.two_clients) in
  let stream := [Yield (Demo.update "initial"); Yield (Demo.update "late")] in
  subscribeToHmrEvents Demo.env "/x" 1 stream w = (Ok tt, w) /\
  subscribed "/x" 1 (snd (unsubscribeToHmrEvents "/x" 1 w)) = true /\
  subscribeToHmrEvents Demo.env "/x" 1 stream
    (snd (unsubscribeToHmrEvents "/x" 1 w))
  = (Ok tt, snd (unsubscribeToHmrEvents "/x" 1 w)).
Proof.
  apply (@resubscribe_ignored Demo.env "/x" 1
           [Yield (Demo.update "initial"); Yield (Demo.update "late")]
           (snd (subscribeToHmrEvents Demo.env "/x" 1
                   [Yield (Demo.update "initial")] Demo.two_clients))).
  reflexivity.
Defined.

Lemma last_map_Some {A} (a : A) (l : list A) (default : option A) :
  exists x, last (map Some (a :: l)) default = Some x.
Proof.
  revert a. induction l as [|b l IH]; intros a; [now exists a|].
  destruct (IH b) as [x E]. exists x. exact E.
Qed.

Lemma hmr_loop_run env id client stream :
  forall w,
    let w' := snd (hmr_loop env id client stream w) in
    fst (hmr_loop env id client stream w) = Ok tt /\
    turbopackUpdates w' =
      (turbopackUpdates w ++ filter forwarded (before_raise stream))%list /\
    effects w' =
      (effects w ++
       if existsb is_raise stream
       then [ClientSend client RELOAD_PAGE; ClientClose client]
       else [])%list /\
    hmrPayloads w' = hmrPayloads w /\ clients w' = clients w /\
    clientToHmrSubscription w' = clientToHmrSubscription w /\
    JsMap.get id (issues w') =
      match last (map Some (before_raise stream)) None with
      | Some data =>
          Some (fst (processIssues_loop env (tu_issues data) [] []))
      | None => JsMap.get id (issues w)
      end /\
    forall other, other <> id ->
      JsMap.get other (issues w') = JsMap.get other (issues w).
Proof.
  induction stream as [|[data|] rest IH]; intros w; cbv zeta.
  - simpl. rewrite !app_nil_r. auto 10.
  - destruct (hmr_loop env id client (Yield data :: rest) w) as [r w']
      eqn:Run.
    cbn [hmr_loop] in Run. unfold bind at 1 in Run.
    rewrite processIssues_run, andb_false_r in Run. cbv beta iota in Run.
    set (w1 := set_issues _ w) in Run.
    unfold bind at 1 in Run.
    assert (W : exists w2,
               when (negb (String.eqb (tu_type data) "issues"))
                 (sendTurbopackMessage data) w1 = (Ok tt, w2) /\
               turbopackUpdates w2 =
                 (turbopackUpdates w ++ filter forwarded [data])%list /\
               effects w2 = effects w /\ hmrPayloads w2 = hmrPayloads w /\
               clients w2 = clients w /\
               clientToHmrSubscription w2 = clientToHmrSubscription w /\
               issues w2 = issues w1).
    { unfold forwarded. simpl.
      destruct (negb (String.eqb (tu_type data) "issues")); simpl;
        eexists; (split; [reflexivity|]); simpl; rewrite ?app_nil_r; auto 10. }
    destruct W as (w2 & Ew & U2 & E2 & P2 & C2 & S2 & I2).
    rewrite Ew in Run.
    specialize (IH w2). cbv zeta in IH. rewrite Run in IH.
    cbn [fst snd] in *.
    destruct IH as (O & U & E & P & C & S & I & Oth).
    split; [exact O|]. split.
    { rewrite U, U2. cbn [before_raise filter].
      destruct (forwarded data); simpl; now rewrite <- app_assoc. }
    split; [rewrite E, E2; reflexivity|].
    split; [congruence|]. split; [congruence|]. split; [congruence|]. split.
    + rewrite I. cbn [before_raise map].
      destruct (before_raise rest) as [|d ds] eqn:B.
      * simpl. rewrite I2. unfold w1. simpl. apply map_get_set_same.
      * change (last (Some data :: map Some (d :: ds)) None)
          with (last (map Some (d :: ds)) (@None TurbopackUpdate)).
        destruct (last_map_Some d ds (@None TurbopackUpdate)) as [x ->].
        reflexivity.
    + intros other N. rewrite (Oth other N), I2. unfold w1. simpl.
      now apply map_get_set_other.
  - simpl. rewrite app_nil_r. auto 10.
Qed.

(** X10.  A raw subscription over any stream.  The first item is dropped;
    the items after it, up to the first exception, are taken in order: each
    replaces the bucket of the id in the ledger, and those of a type other
    than [issues] are appended to the batch of updates.  Nothing is sent by
    the subscription itself, unless the stream raises: then the subscriber,
    and no one else, is sent [RELOAD_PAGE] and closed, and the items after
    the exception are not read. *)
Theorem raw_subscription_over_stream :
  forall env id client stream w,
    subscribed id client w = false ->
    let w' := snd (subscribeToHmrEvents env id client stream w) in
    let taken := tl (before_raise stream) in
    fst (subscribeToHmrEvents env id client stream w) = Ok tt /\
    turbopackUpdates w' =
      (turbopackUpdates w ++ filter forwarded taken)%list /\
    effects w' =
      (effects w ++
       if existsb is_raise stream
       then [ClientSend client RELOAD_PAGE; ClientClose client]
       else [])%list /\
    hmrPayloads w' = hmrPayloads w /\ clients w' = clients w /\
    subscribed id client w' = true /\
    JsMap.get id (issues w') =
      match last (map Some taken) None with
      | Some data =>
          Some (fst (processIssues_loop env (tu_issues data) [] []))
      | None => JsMap.get id (issues w)
      end.
Proof.
  intros env id client stream w S. cbv zeta.
  destruct (subscribeToHmrEvents env id client stream w) as [r w'] eqn:Run.
  unfold subscribeToHmrEvents in Run. unfold subscribed in S.
  unfold bind at 1, gets at 1 in Run.
  set (mapping :=
         match JsMap.get client (clientToHmrSubscription w) with
         | Some m => m
         | None => JsMap.empty
         end) in *.
  assert (Hm : JsMap.has id mapping = false).
  { unfold mapping.
    destruct (JsMap.get client (clientToHmrSubscription w)); [exact S|].
    reflexivity. }
  unfold bind at 1, modify at 1 in Run. rewrite Hm in Run.
  unfold bind at 1, modify at 1 in Run.
  match type of Run with
  | _ ?w0 = _ => remember w0 as ws eqn:Ews
  end.
  assert (F : turbopackUpdates ws = turbopackUpdates w /\
              effects ws = effects w /\ hmrPayloads ws = hmrPayloads w /\
              clients ws = clients w /\ issues ws = issues w /\
              subscribed id client ws = true).
  { rewrite Ews. unfold subscribed.
    destruct (JsMap.get client (clientToHmrSubscription w)); simpl;
      rewrite map_get_set_same; unfold JsMap.has;
      rewrite ?map_get_set_same; simpl; rewrite ?String.eqb_refl; auto 10. }
  destruct F as (U0 & E0 & P0 & C0 & I0 & S0). clear Ews.
  destruct stream as [|[first|] rest].
  - injection Run as <- <-. simpl. rewrite !app_nil_r, I0. auto 10.
  - pose proof (hmr_loop_run env id client rest ws) as L. cbv zeta in L.
    rewrite Run in L. simpl in L.
    destruct L as (O & U & E & P & C & Sb & I & _).
    simpl. split; [exact O|].
    split; [congruence|]. split; [rewrite E, E0; reflexivity|].
    split; [congruence|]. split; [congruence|]. split.
    + unfold subscribed in *. now rewrite Sb.
    + rewrite I, I0. reflexivity.
  - injection Run as <- <-. simpl. rewrite E0, U0, I0, app_nil_r. auto 10.
Qed.

Lemma raw_subscription_over_stream_witness :
  let stream :=
    [ Yield (Demo.update "initial"); Yield (Demo.update "one");
      Yield {| tu_type := "issues"; tu_issues := [Demo.boom];
               tu_body := "" |};
      Raise; Yield (Demo.update "unread") ] in
  let w' :=
    snd (subscribeToHmrEvents Demo.env "/x" 1 stream Demo.two_clients) in
  turbopackUpdates w' = [Demo.update "one"] /\
  effects w' =
    (effects Demo.two_clients
     ++ [ClientSend 1 RELOAD_PAGE; ClientClose 1])%list /\
  JsMap.get "/x" (issues w')
  = Some [(issueKey Demo.env Demo.boom, Demo.boom)].
Proof.
  destruct (@raw_subscription_over_stream Demo.env "/x" 1
              [ Yield (Demo.update "initial"); Yield (Demo.update "one");
                Yield {| tu_type := "issues"; tu_issues := [Demo.boom];
                         tu_body := "" |};
                Raise; Yield (Demo.update "unread") ]
              Demo.two_clients eq_refl)
    as (_ & U & E & _ & _ & _ & I).
  split; [exact U|]. split; [exact E | exact I].
Defined.

(** ** Compilation errors *)

Lemma ledger_errors_nil env (i : Issues) :
  ledger_errors env i = [] <->
  existsb bucket_nonempty (JsMap.values i) = false.
Proof.
  unfold ledger_errors. induction (JsMap.values i) as [|bucket rest IH].
  - simpl. tauto.
  - simpl. rewrite orb_false_iff, <- IH. split.
    + intros E. apply app_eq_nil in E. destruct E as [Eb Er].
      split; [|exact Er]. now destruct bucket.
    + intros [Eb Er]. rewrite Er. destruct bucket; [reflexivity|].
      discriminate Eb.
Qed.

Lemma map_get_values {V} (k : string) (v : V) (m : JsMap.t string V) :
  JsMap.get k m = Some v -> In v (JsMap.values m).
Proof.
  intros G. apply map_get_In in G. unfold JsMap.values.
  change v with (snd (k, v)). now apply in_map.
Qed.

(** X11.  [getCompilationErrors] answers with the errors of the requested
    page alone when its bucket holds any, and with the errors of the whole
    ledger otherwise; whatever the page, its answer is empty exactly when no
    bucket holds an issue, that is when the flush of notifications is not
    held back. *)
Theorem compilation_errors_follow_ledger :
  forall env page w,
    (getCompilationErrors env page w = [] <-> ledger_blocked w = false) /\
    (forall bucket,
       JsMap.get page (issues w) = Some bucket -> bucket <> [] ->
       getCompilationErrors env page w
       = map (formatIssue env) (JsMap.values bucket)) /\
    (JsMap.get page (issues w) = None \/ JsMap.get page (issues w) = Some [] ->
     getCompilationErrors env page w = ledger_errors env (issues w)).
Proof.
  intros env page w. unfold getCompilationErrors, ledger_blocked.
  destruct (JsMap.get page (issues w)) as [bucket|] eqn:G.
  - destruct bucket as [|entry bucket].
    + simpl. split; [apply ledger_errors_nil|].
      split; [intros b [= <-] N; now contradiction N | reflexivity].
    + cbn [JsMap.size length Nat.eqb negb]. split; [|split].
      * split; [discriminate|]. intros B. exfalso.
        assert (T : existsb bucket_nonempty (JsMap.values (issues w)) = true).
        { apply existsb_exists. exists (entry :: bucket).
          split; [now apply (map_get_values page) | reflexivity]. }
        congruence.
      * now intros b [= <-] _.
      * intros [E|E]; discriminate E.
  - split; [apply ledger_errors_nil|].
    split; [discriminate | reflexivity].
Qed.

Lemma built_errors_bucket_get env issueMap :
  forall errors k,
    JsMap.get k (built_errors_bucket env issueMap errors) =
    match JsMap.get k errors with
    | Some e => Some e
    | None => option_map (compilation_error env) (JsMap.get k issueMap)
    end.
Proof.
  induction issueMap as [|[key issue] rest IH]; intros errors k; simpl.
  - now destruct (JsMap.get k errors).
  - unfold JsMap.has at 1.
    destruct (JsMap.get key errors) as [e|] eqn:Ge.
    + rewrite IH. destruct (String.eqb_spec k key) as [->|N].
      * now rewrite Ge.
      * reflexivity.
    + rewrite IH. destruct (String.eqb_spec k key) as [->|N].
      * rewrite map_get_set_same, Ge. reflexivity.
      * rewrite map_get_set_other by exact N. reflexivity.
Qed.

Lemma get_app {V} (k : string) (l1 l2 : JsMap.t string V) :
  JsMap.get k (l1 ++ l2)%list =
  match JsMap.get k l1 with
  | Some v => Some v
  | None => JsMap.get k l2
  end.
Proof.
  induction l1 as [|[k' v] l1 IH]; simpl; [reflexivity|].
  now destruct (String.eqb k k').
Qed.

Lemma built_errors_fold env buckets :
  forall errors k,
    JsMap.get k
      (fold_left (fun errors issueMap =>
                    built_errors_bucket env issueMap errors) buckets errors)
    = match JsMap.get k errors with
      | Some e => Some e
      | None =>
          option_map (compilation_error env)
            (JsMap.get k (flat_map (fun issueMap => issueMap) buckets))
      end.
Proof.
  induction buckets as [|bucket rest IH]; intros errors k; simpl.
  - now destruct (JsMap.get k errors).
  - rewrite IH, built_errors_bucket_get, get_app.
    destruct (JsMap.get k errors); [reflexivity|].
    now destruct (JsMap.get k bucket).
Qed.

(** X12.  The errors of a [BUILT] action are the entries of the ledger,
    bucket after bucket, with one error per issue key: under each key stands
    the error of the first entry of the ledger that has it, and a key has an
    error exactly when some bucket has the key. *)
Theorem built_errors_first_per_key :
  forall env (i : Issues) k,
    JsMap.get k (built_errors env i)
    = option_map (compilation_error env) (JsMap.get k (ledger_entries i)) /\
    (JsMap.has k (built_errors env i) = true <->
     exists issueMap,
       In issueMap (JsMap.values i) /\ JsMap.has k issueMap = true).
Proof.
  intros env i k.
  assert (G : JsMap.get k (built_errors env i)
              = option_map (compilation_error env)
                  (JsMap.get k (ledger_entries i))).
  { unfold built_errors, ledger_entries. now rewrite built_errors_fold. }
  split; [exact G|]. unfold JsMap.has at 1. rewrite G.
  unfold ledger_entries. induction (JsMap.values i) as [|bucket rest IH].
  - simpl. split; [discriminate | intros (m & [] & _)].
  - simpl. rewrite get_app.
    destruct (JsMap.get k bucket) as [issue|] eqn:Gb.
    + simpl. split; [|reflexivity]. intros _. exists bucket.
      split; [now left|]. unfold JsMap.has. now rewrite Gb.
    + rewrite IH. split.
      * intros (m & I & H). exists m. split; [now right | exact H].
      * intros (m & [<-|I] & H).
        -- unfold JsMap.has in H. rewrite Gb in H. discriminate.
        -- exists m. auto.
Qed.

(** ** Frames of the monad *)

Section Frames.

Variable R : World -> World -> Prop.
Hypothesis R_refl : forall w, R w w.
Hypothesis R_trans : forall a b c, R a b -> R b c -> R a c.

Lemma runs_ret {A} (a : A) : runs R (ret a).
Proof. intros w. apply R_refl. Qed.

Lemma runs_throw {A} (e : Exn) : runs R (@throw A e).
Proof. intros w. apply R_refl. Qed.

Lemma runs_gets {A} (f : World -> A) : runs R (gets f).
Proof. intros w. apply R_refl. Qed.

Lemma runs_bind {A B} (m : M A) (f : A -> M B) :
  runs R m -> (forall a, runs R (f a)) -> runs R (bind m f).
Proof.
  intros Rm Rf w. unfold bind. specialize (Rm w).
  destruct (m w) as [[a|e] w1]; simpl in *; [|exact Rm].
  eapply R_trans; [exact Rm | apply Rf].
Qed.

Lemma runs_try_finally {A} (body : M A) (fin : M unit) :
  runs R body -> runs R fin -> runs R (try_finally body fin).
Proof.
  intros Rb Rf w. unfold try_finally. specialize (Rb w).
  destruct (body w) as [r w1]. specialize (Rf w1). simpl in *.
  destruct (fin w1) as [[[]|e] w2]; simpl in *;
    eapply R_trans; eassumption.
Qed.

Lemma runs_for_each {A} (body : A -> M unit) (l : list A) :
  (forall x, runs R (body x)) -> runs R (for_each l body).
Proof.
  intros Rb. induction l as [|x l IH]; simpl.
  - apply runs_ret.
  - apply runs_bind; [apply Rb | intros _; exact IH].
Qed.

End Frames.

Lemma try_finally_snd {A} (body : M A) (fin : M unit) w :
  snd (try_finally body fin w) = snd (fin (snd (body w))).
Proof.
  unfold try_finally. destruct (body w) as [r w1]. simpl.
  now destruct (fin w1) as [[[]|e] w2].
Qed.

Lemma returns_try_finally {A} (body : M A) (fin : M unit) :
  returns body -> returns fin -> returns (try_finally body fin).
Proof.
  intros Rb Rf w. unfold try_finally. destruct (Rb w) as [a Ea].
  destruct (body w) as [r w1]. simpl in Ea. subst r.
  destruct (Rf w1) as [[] Ef]. destruct (fin w1) as [r2 w2].
  simpl in Ef. subst r2. now exists a.
Qed.

Lemma returns_startBuilding id requestUrl forceRebuild :
  returns (startBuilding id requestUrl forceRebuild).
Proof.
  intros w. unfold startBuilding.
  destruct (negb forceRebuild && JsSet.has id (readyIds w)); eexists;
    reflexivity.
Qed.

Lemma returns_call h : returns (call h).
Proof.
  intros w. exists tt. destruct h as [|id]; [reflexivity|].
  simpl. unfold finishBuilding.
  now destruct (Nat.eqb (JsSet.size (buildingIds w)) 0).
Qed.

Lemma registry_kept_refl w : registry_kept w w.
Proof. reflexivity. Qed.

Lemma registry_kept_trans a b c :
  registry_kept a b -> registry_kept b c -> registry_kept a c.
Proof. unfold registry_kept. congruence. Qed.

Lemma registry_grows_refl w : registry_grows w w.
Proof. intros key H. exact H. Qed.

Lemma registry_grows_trans a b c :
  registry_grows a b -> registry_grows b c -> registry_grows a c.
Proof. unfold registry_grows. auto. Qed.

Lemma registry_kept_grows w w' : registry_kept w w' -> registry_grows w w'.
Proof. unfold registry_kept, registry_grows. now intros ->. Qed.

Lemma kept_startBuilding id requestUrl forceRebuild :
  runs registry_kept (startBuilding id requestUrl forceRebuild).
Proof.
  intros w. unfold startBuilding, registry_kept.
  destruct (negb forceRebuild && JsSet.has id (readyIds w)); [reflexivity|].
  simpl. now destruct (Nat.eqb (JsSet.size (buildingIds w)) 0).
Qed.

Lemma kept_call h : runs registry_kept (call h).
Proof.
  intros w. unfold registry_kept. destruct h as [|id]; [reflexivity|].
  simpl. unfold finishBuilding.
  destruct (Nat.eqb (JsSet.size (buildingIds w)) 0); [reflexivity|]. simpl.
  now destruct (Nat.eqb (JsSet.size (JsSet.delete id (buildingIds w))) 0).
Qed.

Lemma kept_materialize env e : runs registry_kept (materialize env e).
Proof. intros w. reflexivity. Qed.

Lemma kept_processIssues env name result throwIssue :
  runs registry_kept (processIssues env name result throwIssue).
Proof. intros w. now rewrite processIssues_run. Qed.

Lemma grows_changeSubscription page type includeIssues endpoint :
  runs registry_grows (changeSubscription page type includeIssues endpoint).
Proof.
  intros w key H. unfold changeSubscription.
  destruct endpoint as [e|]; [|exact H].
  destruct (JsMap.has (subscription_key page type) (changeSubscriptions w))
    eqn:Hk; [exact H|].
  simpl. unfold JsMap.has in *.
  destruct (String.eqb_spec key (subscription_key page type)) as [->|N].
  - now rewrite map_get_set_same.
  - now rewrite map_get_set_other.
Qed.

Lemma changeSubscription_registers page type includeIssues e w :
  JsMap.has (subscription_key page type)
    (changeSubscriptions
       (snd (changeSubscription page type includeIssues (Some e) w))) = true.
Proof.
  unfold changeSubscription.
  destruct (JsMap.has (subscription_key page type) (changeSubscriptions w))
    eqn:Hk; simpl; [exact Hk|].
  unfold JsMap.has. now rewrite map_get_set_same.
Qed.

Ltac kept_steps :=
  repeat first
    [ apply (runs_ret registry_kept registry_kept_refl)
    | apply (runs_throw registry_kept registry_kept_refl)
    | apply (runs_gets registry_kept registry_kept_refl)
    | apply kept_materialize | apply kept_processIssues
    | apply kept_startBuilding | apply kept_call
    | apply (runs_try_finally registry_kept_trans)
    | apply (runs_bind registry_kept_trans); [|intros ?]
    | match goal with
      | |- runs registry_kept (match ?x with _ => _ end) => destruct x
      end ].

Lemma grows_of_kept {A} (m : M A) :
  runs registry_kept m -> runs registry_grows m.
Proof. intros K w. apply registry_kept_grows, K. Qed.

Ltac grows_steps :=
  repeat first
    [ apply grows_changeSubscription
    | apply grows_of_kept; solve [kept_steps]
    | apply (runs_try_finally registry_grows_trans)
    | apply (runs_bind registry_grows_trans); [|intros ?]
    | match goal with
      | |- runs registry_grows (match ?x with _ => _ end) => destruct x
      end ].

(** X13.  API routes and app routes are never watched: handling a request
    for one of them, whether it returns or throws, leaves the registry of
    change subscriptions as it was. *)
Theorem api_and_app_routes_not_watched :
  forall env page pathname requestUrl route w,
    (exists endpoint, route = RoutePageApi endpoint) \/
    (exists originalName endpoint, route = RouteAppRoute originalName endpoint)
    ->
    changeSubscriptions
      (snd (handleRouteType env page pathname route requestUrl w))
    = changeSubscriptions w.
Proof.
  intros env page pathname requestUrl route w
         [(endpoint & ->)|(name & endpoint & ->)];
    unfold handleRouteType;
    match goal with
    | |- changeSubscriptions (snd (?m w)) = _ =>
        assert (K : runs registry_kept m) by kept_steps; apply K
    end.
Qed.

Lemma api_and_app_routes_not_watched_witness :
  changeSubscriptions
    (snd (handleRouteType Demo.env "/broken" "/broken"
            (RouteAppRoute "/broken/route" 1) None Demo.about_built))
  = changeSubscriptions Demo.about_built.
Proof.
  apply (@api_and_app_routes_not_watched Demo.env "/broken" "/broken" None
           (RouteAppRoute "/broken/route" 1) Demo.about_built).
  right. now exists "/broken/route", 1.
Defined.

(** X14.  Pages and app pages are watched.  Handling a page route
    registers the server and the client subscription of the page in its
    [finally] block: they are registered on every way out of the call.
    Handling an app page registers its server subscription once its
    endpoint is written: it is registered when the call returns, and also
    when the call throws the issues of the build. *)
Theorem pages_watched_on_every_exit :
  forall env page pathname requestUrl w,
    (forall htmlEndpoint dataEndpoint,
       let run :=
         handleRouteType env page pathname
           (RoutePage htmlEndpoint dataEndpoint) requestUrl w in
       JsMap.has (subscription_key page Server)
         (changeSubscriptions (snd run)) = true /\
       JsMap.has (subscription_key page Client_)
         (changeSubscriptions (snd run)) = true) /\
    (forall pages pageRoute,
       find_page page pages = Some pageRoute ->
       let run :=
         handleRouteType env page pathname (RouteAppPage pages)
           requestUrl w in
       fst run = Ok tt \/ (exists msg, fst run = Throw (ModuleBuildError msg)) ->
       JsMap.has (subscription_key page Server)
         (changeSubscriptions (snd run)) = true).
Proof.
  intros env page pathname requestUrl w. split.
  - intros h d. cbv zeta. unfold handleRouteType.
    destruct (returns_startBuilding pathname requestUrl false w)
      as [finish St].
    rewrite (bind_ok _ _ _ St). rewrite !try_finally_snd.
    set (w3 := snd (_ (snd (startBuilding pathname requestUrl false w)))).
    assert (Kc : forall w0,
               changeSubscriptions (snd (call finish w0))
               = changeSubscriptions w0) by (intros w0; apply kept_call).
    rewrite !Kc.
    destruct (changeSubscription_run page Server false (Some d) w3)
      as [O1 _].
    rewrite (bind_ok _ _ _ O1).
    set (w4 := snd (changeSubscription page Server false (Some d) w3)).
    assert (H4 : JsMap.has (subscription_key page Server)
                   (changeSubscriptions w4) = true)
      by apply changeSubscription_registers.
    destruct (changeSubscription_run page Client_ false (Some h) w4)
      as [O2 _].
    rewrite (bind_ok _ _ _ O2).
    set (w5 := snd (changeSubscription page Client_ false (Some h) w4)).
    assert (H5 : JsMap.has (subscription_key page Client_)
                   (changeSubscriptions w5) = true)
      by apply changeSubscription_registers.
    assert (G45 : registry_grows w4 w5) by apply grows_changeSubscription.
    match goal with
    | |- context [snd (?m w5)] =>
        assert (G : runs registry_grows m) by grows_steps;
        specialize (G w5)
    end.
    split; apply G; auto.
  - intros pages pageRoute F. cbv zeta. intros _.
    unfold handleRouteType. rewrite F.
    destruct (returns_startBuilding pathname requestUrl false w)
      as [finish St].
    rewrite (bind_ok _ _ _ St). rewrite try_finally_snd.
    assert (Kc : forall w0,
               changeSubscriptions (snd (call finish w0))
               = changeSubscriptions w0) by (intros w0; apply kept_call).
    rewrite Kc.
    set (ws := snd (startBuilding pathname requestUrl false w)).
    destruct (returns_materialize env (ap_htmlEndpoint pageRoute) ws)
      as [written Ew].
    rewrite (bind_ok _ _ _ Ew).
    set (w1 := snd (materialize env (ap_htmlEndpoint pageRoute) ws)).
    destruct (changeSubscription_run page Server true
                (Some (ap_rscEndpoint pageRoute)) w1) as [O1 _].
    pose proof (changeSubscription_registers page Server true
                  (ap_rscEndpoint pageRoute) w1) as H1.
    rewrite (bind_ok _ _ _ O1).
    match goal with
    | |- context [snd (processIssues ?e ?n ?r ?t ?w0)] =>
        rewrite (kept_processIssues e n r t w0)
    end.
    exact H1.
Qed.

Lemma pages_watched_on_every_exit_witness :
  let pageRoute :=
    {| ap_originalName := "/broken/page";
       ap_htmlEndpoint := 1; ap_rscEndpoint := 7 |} in
  let run :=
    handleRouteType Demo.env "/broken/page" "/broken"
      (RouteAppPage [pageRoute]) None initial in
  JsMap.has (subscription_key "/broken/page" Server)
    (changeSubscriptions (snd run)) = true.
Proof.
  apply (proj2 (pages_watched_on_every_exit Demo.env "/broken/page" "/broken"
                  None initial)
           [ {| ap_originalName := "/broken/page";
                ap_htmlEndpoint := 1; ap_rscEndpoint := 7 |} ]
           {| ap_originalName := "/broken/page";
              ap_htmlEndpoint := 1; ap_rscEndpoint := 7 |}).
  - reflexivity.
  - right. eexists. vm_compute. reflexivity.
Defined.

(** ** Middleware over consecutive rounds *)

Lemma round_keeps_refl w : round_keeps w w.
Proof. unfold round_keeps. auto 10. Qed.

Lemma round_keeps_trans a b c :
  round_keeps a b -> round_keeps b c -> round_keeps a c.
Proof.
  unfold round_keeps.
  intros (A1 & B1 & C1 & D1 & E1 & F1) (A2 & B2 & C2 & D2 & E2 & F2).
  repeat split; congruence.
Qed.

Ltac round_steps :=
  repeat first
    [ apply (runs_ret round_keeps round_keeps_refl)
    | apply (runs_gets round_keeps round_keeps_refl)
    | apply (runs_for_each round_keeps_refl round_keeps_trans); intros ?
    | apply (runs_bind round_keeps_trans); [|intros ?]
    | match goal with
      | |- runs round_keeps (match ?x with _ => _ end) => destruct x
      | |- runs round_keeps (let '(_, _) := ?x in _) => destruct x
      end
    | solve [intros ?w; unfold round_keeps; simpl; auto 10] ].

Lemma keeps_processIssues env name result throwIssue :
  runs round_keeps (processIssues env name result throwIssue).
Proof.
  intros w. rewrite processIssues_run. unfold round_keeps. simpl. auto 10.
Qed.

Lemma keeps_changeSubscription page type includeIssues endpoint :
  runs round_keeps (changeSubscription page type includeIssues endpoint).
Proof.
  intros w. unfold changeSubscription. destruct endpoint as [e|];
    [|apply round_keeps_refl].
  destruct (JsMap.has (subscription_key page type) (changeSubscriptions w));
    [apply round_keeps_refl|].
  unfold round_keeps. simpl. auto 10.
Qed.

Lemma keeps_prune_subscription entry : runs round_keeps (prune_subscription entry).
Proof.
  intros w. destruct entry as [pathname subscription].
  unfold prune_subscription.
  destruct (String.eqb (strip_phase pathname) ""); [apply round_keeps_refl|].
  destruct (negb (JsMap.has (strip_phase pathname) (curEntries w))
            && negb (JsMap.has (strip_phase pathname) (curAppEntries w)));
    [|apply round_keeps_refl].
  unfold round_keeps. simpl. auto 10.
Qed.

Lemma keeps_prune_issue_bucket page : runs round_keeps (prune_issue_bucket page).
Proof.
  intros w. unfold prune_issue_bucket.
  destruct (negb (JsMap.has page (curEntries w))); [|apply round_keeps_refl].
  unfold round_keeps. simpl. auto 10.
Qed.

Lemma keeps_add_route pathname route : runs round_keeps (add_route pathname route).
Proof.
  destruct route as [h d|e|pages|name e|t]; simpl; round_steps.
Qed.

Lemma keeps_rebuild_and_diff entrypoints :
  runs round_keeps (rebuild_and_diff entrypoints).
Proof.
  unfold rebuild_and_diff.
  apply (runs_bind round_keeps_trans); [round_steps | intros _].
  apply (runs_bind round_keeps_trans); [round_steps | intros _].
  apply (runs_bind round_keeps_trans); [|intros _].
  { apply (runs_for_each round_keeps_refl round_keeps_trans).
    intros [pathname route]. apply keeps_add_route. }
  apply (runs_bind round_keeps_trans); [round_steps | intros subscriptions].
  apply (runs_bind round_keeps_trans); [|intros _].
  { apply (runs_for_each round_keeps_refl round_keeps_trans).
    apply keeps_prune_subscription. }
  apply (runs_bind round_keeps_trans); [round_steps | intros buckets].
  apply (runs_for_each round_keeps_refl round_keeps_trans).
  apply keeps_prune_issue_bucket.
Qed.

Lemma returns_rebuild_and_diff entrypoints :
  returns (rebuild_and_diff entrypoints).
Proof. intros w. exists tt. now rewrite rebuild_and_diff_run. Qed.

(** The middleware and instrumentation steps of a round, after the
    notification. *)
Lemma middleware_steps_run env entrypoints w :
  let steps :=
    (match instrumentationHook env, instrumentation entrypoints with
     | true, Some (nodeJs, edge) =>
         processInstrumentation env "instrumentation.nodeJs" nodeJs ;;
         processInstrumentation env "instrumentation.edge" edge
     | _, _ => ret tt
     end ;;
     match middleware entrypoints with
     | Some endpoint =>
         processMiddleware env endpoint ;;
         changeSubscription "middleware" Server false (Some endpoint) ;;
         modify (set_prevMiddleware (Some true))
     | None => modify (set_prevMiddleware (Some false))
     end) in
  fst (steps w) = Ok tt /\
  hmrPayloads (snd (steps w)) = hmrPayloads w /\
  buildingIds (snd (steps w)) = buildingIds w /\
  readyIds (snd (steps w)) = readyIds w /\
  prevMiddleware (snd (steps w)) = Some (has_middleware entrypoints).
Proof.
  cbv zeta.
  match goal with
  | |- context [bind ?a (fun _ => ?b)] => set (first := a); set (second := b)
  end.
  assert (R1 : returns first).
  { unfold first, processInstrumentation.
    destruct (instrumentationHook env);
      destruct (instrumentation entrypoints) as [[n e]|]; returns_steps. }
  assert (K1 : runs round_keeps first).
  { unfold first, processInstrumentation.
    destruct (instrumentationHook env);
      destruct (instrumentation entrypoints) as [[n e]|];
      repeat first
        [ apply keeps_processIssues
        | apply (runs_bind round_keeps_trans); [|intros ?]
        | solve [round_steps] ]. }
  destruct (R1 w) as [[] E1]. rewrite (bind_ok _ _ _ E1).
  specialize (K1 w). set (w1 := snd (first w)) in *.
  destruct K1 as (P1 & _ & B1 & Rd1 & _ & _).
  unfold second, has_middleware, processMiddleware.
  destruct (middleware entrypoints) as [endpoint|].
  - match goal with
    | |- context [bind ?a ?f w1] => set (m := a); set (k := f)
    end.
    assert (Rm : returns m) by (unfold m; returns_steps).
    assert (Km : runs round_keeps m).
    { unfold m.
      repeat first
        [ apply keeps_processIssues
        | apply (runs_bind round_keeps_trans); [|intros ?]
        | solve [round_steps] ]. }
    destruct (Rm w1) as [[] Em]. rewrite (bind_ok _ _ _ Em).
    specialize (Km w1). set (w2 := snd (m w1)) in *.
    destruct Km as (P2 & _ & B2 & Rd2 & _ & _).
    unfold k.
    destruct (changeSubscription_run "middleware" Server false
                (Some endpoint) w2) as [O3 _].
    rewrite (bind_ok _ _ _ O3).
    pose proof (keeps_changeSubscription "middleware" Server false
                  (Some endpoint) w2) as (P3 & _ & B3 & Rd3 & _ & _).
    set (w3 := snd (changeSubscription "middleware" Server false
                      (Some endpoint) w2)) in *.
    unfold modify. simpl. repeat split; congruence.
  - unfold modify. simpl. repeat split; congruence.
Qed.

Lemma bind_gets A B (f : World -> A) (k : A -> M B) w :
  bind (gets f) k w = k (f w) w.
Proof. reflexivity. Qed.

Lemma handle_middleware_run env entrypoints w :
  let w' := snd (handle_middleware env entrypoints w) in
  fst (handle_middleware env entrypoints w) = Ok tt /\
  prevMiddleware w' = Some (has_middleware entrypoints) /\
  buildingIds w' = buildingIds w /\ readyIds w' = readyIds w /\
  hmrPayloads w' =
    match prevMiddleware w, middleware entrypoints with
    | Some true, None =>
        JsMap.set "entrypoint-change:middleware" MIDDLEWARE_CHANGES
          (hmrPayloads w)
    | Some false, Some _ =>
        JsMap.set "endpoint-change:middleware" MIDDLEWARE_CHANGES
          (hmrPayloads w)
    | _, _ => hmrPayloads w
    end.
Proof.
  cbv zeta. unfold handle_middleware. rewrite !bind_gets.
  match goal with
  | |- context [bind ?a (fun _ => ?b) w] =>
      set (notify := a); set (steps := b)
  end.
  assert (N : exists w1,
             notify w = (Ok tt, w1) /\
             buildingIds w1 = buildingIds w /\ readyIds w1 = readyIds w /\
             hmrPayloads w1 =
               match prevMiddleware w, middleware entrypoints with
               | Some true, None =>
                   JsMap.set "entrypoint-change:middleware" MIDDLEWARE_CHANGES
                     (hmrPayloads w)
               | Some false, Some _ =>
                   JsMap.set "endpoint-change:middleware" MIDDLEWARE_CHANGES
                     (hmrPayloads w)
               | _, _ => hmrPayloads w
               end).
  { unfold notify.
    destruct (prevMiddleware w) as [[|]|];
      destruct (middleware entrypoints) as [endpoint|];
      try (eexists; split; [reflexivity|]; auto; fail).
    unfold bind, clearChangeSubscription, sendHmr, modify. simpl.
    destruct (JsMap.get (subscription_key "middleware" Server)
                (changeSubscriptions w));
      eexists; (split; [reflexivity|]); simpl; auto. }
  destruct N as (w1 & En & B1 & R1 & P1).
  assert (E1 : fst (notify w) = Ok tt) by now rewrite En.
  rewrite (bind_ok _ _ _ E1). rewrite En. simpl snd.
  destruct (middleware_steps_run env entrypoints w1)
    as (O & P & B & Rd & Pm).
  fold steps in O, P, B, Rd, Pm.
  repeat split; congruence.
Qed.

(** X15.  Middleware over two rounds in a row.  A round enqueues the
    [MIDDLEWARE_CHANGES] notification exactly when the snapshot before it
    had a middleware and its own has none, or the reverse; the first round
    of all enqueues none.  No round moves a unit into or out of "building"
    or "ready". *)
Theorem middleware_notified_on_flip :
  forall env first second w,
    let w1 := snd (handleEntries env first w) in
    let w2 := snd (handleEntries env second w1) in
    fst (handleEntries env second w1) = Ok tt /\
    (prevMiddleware w = None -> hmrPayloads w1 = hmrPayloads w) /\
    hmrPayloads w2 =
      (if Bool.eqb (has_middleware first) (has_middleware second)
       then hmrPayloads w1
       else
         JsMap.set
           (if has_middleware second then "endpoint-change:middleware"
            else "entrypoint-change:middleware")
           MIDDLEWARE_CHANGES (hmrPayloads w1)) /\
    buildingIds w2 = buildingIds w /\ readyIds w2 = readyIds w.
Proof.
  intros env first second w. cbv zeta.
  assert (Round : forall e w0,
            let w' := snd (handleEntries env e w0) in
            fst (handleEntries env e w0) = Ok tt /\
            prevMiddleware w' = Some (has_middleware e) /\
            buildingIds w' = buildingIds w0 /\ readyIds w' = readyIds w0 /\
            hmrPayloads w' =
              match prevMiddleware w0, middleware e with
              | Some true, None =>
                  JsMap.set "entrypoint-change:middleware" MIDDLEWARE_CHANGES
                    (hmrPayloads w0)
              | Some false, Some _ =>
                  JsMap.set "endpoint-change:middleware" MIDDLEWARE_CHANGES
                    (hmrPayloads w0)
              | _, _ => hmrPayloads w0
              end).
  { intros e w0. cbv zeta. unfold handleEntries.
    destruct (returns_rebuild_and_diff e w0) as [[] Er].
    rewrite (bind_ok _ _ _ Er).
    destruct (keeps_rebuild_and_diff e w0) as (P & _ & B & Rd & _ & Pm).
    destruct (handle_middleware_run env e (snd (rebuild_and_diff e w0)))
      as (O & Pm' & B' & Rd' & P').
    rewrite P', Pm, P. repeat split; congruence. }
  destruct (Round first w) as (_ & Pm1 & B1 & R1 & P1).
  destruct (Round second (snd (handleEntries env first w)))
    as (O2 & _ & B2 & R2 & P2).
  split; [exact O2|]. split.
  - intros PN. rewrite P1, PN. reflexivity.
  - split; [|split; congruence].
    rewrite P2, Pm1. unfold has_middleware.
    destruct (middleware first), (middleware second); reflexivity.
Qed.

Lemma middleware_notified_on_flip_witness :
  let w1 := snd (handleEntries Demo.env Demo.middleware_only initial) in
  let w2 := snd (handleEntries Demo.env Demo.no_entrypoints w1) in
  hmrPayloads w1 = [] /\
  hmrPayloads w2 = [("entrypoint-change:middleware", MIDDLEWARE_CHANGES)] /\
  buildingIds w2 = [].
Proof.
  destruct (middleware_notified_on_flip Demo.env Demo.middleware_only
              Demo.no_entrypoints initial) as (_ & P1 & P2 & B & _).
  split; [exact (P1 eq_refl)|]. split; [|exact B].
  rewrite P2, (P1 eq_refl). reflexivity.
Defined.

(** ** Manifests *)

Lemma map_has_set {V} (k k' : string) (v : V) (m : JsMap.t string V) :
  JsMap.has k (JsMap.set k' v m) = String.eqb k k' || JsMap.has k m.
Proof.
  unfold JsMap.has. destruct (String.eqb_spec k k') as [->|N].
  - now rewrite map_get_set_same.
  - now rewrite map_get_set_other by exact N.
Qed.

Lemma map_has_cons {V} (k k' : string) (v : V) (m : JsMap.t string V) :
  JsMap.has k ((k', v) :: m) = String.eqb k k' || JsMap.has k m.
Proof. unfold JsMap.has. simpl. now destruct (String.eqb k k'). Qed.

Lemma map_get_absent {V} (k : string) (m : JsMap.t string V) :
  ~ In k (JsMap.keys m) -> JsMap.get k m = None.
Proof.
  intros N. destruct (JsMap.get k m) eqn:G; [|reflexivity].
  exfalso. apply N, map_has_keys. unfold JsMap.has. now rewrite G.
Qed.

Lemma map_has_get {V} (k : string) (m : JsMap.t string V) :
  JsMap.has k m = false -> JsMap.get k m = None.
Proof. unfold JsMap.has. now destruct (JsMap.get k m). Qed.

Lemma map_set_NoDup {V} (k : string) (v : V) (m : JsMap.t string V) :
  NoDup (JsMap.keys m) -> NoDup (JsMap.keys (JsMap.set k v m)).
Proof.
  intros N. rewrite map_keys_set. destruct (JsMap.has k m) eqn:Hk; [exact N|].
  apply NoDup_app; [exact N | repeat constructor; intros [] |].
  intros x I [<-|[]]. apply map_has_keys in I. congruence.
Qed.

Lemma assign_get_absent {V} (s t : TurbopackUtils.Dict V) (k : string) :
  JsMap.get k s = None ->
  JsMap.get k (TurbopackUtils.Object_assign t s) = JsMap.get k t.
Proof.
  revert t. induction s as [|[k' v'] s IH]; intros t G; [reflexivity|].
  simpl in G. destruct (String.eqb_spec k k') as [->|N]; [discriminate|].
  unfold TurbopackUtils.Object_assign in *. simpl.
  rewrite IH by exact G. now apply map_get_set_other.
Qed.

Lemma assign_get_present {V} (s t : TurbopackUtils.Dict V) (k : string) v :
  one_entry_per_key s -> JsMap.get k s = Some v ->
  JsMap.get k (TurbopackUtils.Object_assign t s) = Some v.
Proof.
  unfold one_entry_per_key.
  revert t. induction s as [|[k' v'] s IH]; intros t N G; [discriminate|].
  simpl in N. inversion N as [|? ? Nk Ns]; subst.
  simpl in G. change (TurbopackUtils.Object_assign t ((k', v') :: s))
    with (TurbopackUtils.Object_assign (JsMap.set k' v' t) s).
  destruct (String.eqb_spec k k') as [->|Ne].
  - injection G as <-.
    rewrite assign_get_absent by now apply map_get_absent.
    apply map_get_set_same.
  - now apply IH.
Qed.

Lemma assign_has {V} (s t : TurbopackUtils.Dict V) (k : string) :
  JsMap.has k (TurbopackUtils.Object_assign t s) =
  JsMap.has k t || JsMap.has k s.
Proof.
  revert t. induction s as [|[k' v'] s IH]; intros t.
  - simpl. now rewrite orb_false_r.
  - change (TurbopackUtils.Object_assign t ((k', v') :: s))
      with (TurbopackUtils.Object_assign (JsMap.set k' v' t) s).
    rewrite IH, map_has_set, map_has_cons.
    destruct (String.eqb k k'), (JsMap.has k t), (JsMap.has k s); reflexivity.
Qed.

Lemma assign_NoDup {V} (s t : TurbopackUtils.Dict V) :
  NoDup (JsMap.keys t) ->
  NoDup (JsMap.keys (TurbopackUtils.Object_assign t s)).
Proof.
  revert t. induction s as [|[k' v'] s IH]; intros t N; [exact N|].
  apply IH. now apply map_set_NoDup.
Qed.

(** A lookup after [Object.assign]: the source wins where it has the key. *)
Lemma assign_get {V} (s t : TurbopackUtils.Dict V) (k : string) :
  one_entry_per_key s ->
  JsMap.get k (TurbopackUtils.Object_assign t s) =
  if JsMap.has k s then JsMap.get k s else JsMap.get k t.
Proof.
  intros N. destruct (JsMap.has k s) eqn:Hk.
  - unfold JsMap.has in Hk. destruct (JsMap.get k s) as [v|] eqn:G;
      [|discriminate].
    now apply assign_get_present.
  - apply assign_get_absent. now apply map_has_get.
Qed.

Lemma last_value_nil {A V} (dict : A -> TurbopackUtils.Dict V) k :
  last_value dict k [] = None.
Proof. reflexivity. Qed.

Lemma last_value_snoc {A V} (dict : A -> TurbopackUtils.Dict V) k l m :
  last_value dict k (l ++ [m]) =
  if JsMap.has k (dict m) then JsMap.get k (dict m) else last_value dict k l.
Proof.
  unfold last_value, last_with. rewrite rev_unit. simpl.
  now destruct (JsMap.has k (dict m)).
Qed.

Lemma last_with_snoc {A} (test : A -> bool) l m :
  last_with test (l ++ [m]) = if test m then Some m else last_with test l.
Proof. unfold last_with. now rewrite rev_unit. Qed.

(** A fold of [Object.assign] over one dictionary of each item. *)
Lemma merged_get {A V} (dict : A -> TurbopackUtils.Dict V) (l : list A) k :
  Forall (fun m => one_entry_per_key (dict m)) l ->
  JsMap.get k
    (fold_left (fun acc m => TurbopackUtils.Object_assign acc (dict m)) l [])
  = last_value dict k l.
Proof.
  induction l as [|m l IH] using rev_ind; intros F; [reflexivity|].
  apply Forall_app in F as [Fl Fm]. inversion Fm as [|? ? Nm _]; subst.
  rewrite fold_left_app, last_value_snoc. simpl.
  rewrite assign_get by exact Nm. now rewrite IH.
Qed.

Lemma merged_has {A V} (dict : A -> TurbopackUtils.Dict V) (l : list A) k
  (start : TurbopackUtils.Dict V) :
  JsMap.has k
    (fold_left (fun acc m => TurbopackUtils.Object_assign acc (dict m)) l
       start)
  = JsMap.has k start || existsb (fun m => JsMap.has k (dict m)) l.
Proof.
  revert start. induction l as [|m l IH]; intros start; simpl.
  - now rewrite orb_false_r.
  - now rewrite IH, assign_has, orb_assoc.
Qed.

Lemma merged_NoDup {A V} (dict : A -> TurbopackUtils.Dict V) (l : list A)
  (start : TurbopackUtils.Dict V) :
  NoDup (JsMap.keys start) ->
  NoDup (JsMap.keys
           (fold_left (fun acc m => TurbopackUtils.Object_assign acc (dict m))
              l start)).
Proof.
  revert start. induction l as [|m l IH]; intros start N; [exact N|].
  simpl. apply IH. now apply assign_NoDup.
Qed.

(** A fold that rebuilds a record around one merged dictionary reads as the
    fold of the dictionary. *)
Lemma fold_left_project {A S T} (step : S -> A -> S) (step' : T -> A -> T)
  (proj : S -> T) (l : list A) (s : S) :
  (forall s m, proj (step s m) = step' (proj s) m) ->
  proj (fold_left step l s) = fold_left step' l (proj s).
Proof.
  intros E. revert s. induction l as [|m l IH]; intros s; [reflexivity|].
  simpl. now rewrite IH, E.
Qed.

(** X16.  [mergePagesManifests], [mergeLoadableManifests] and
    [mergeAppBuildManifests]: the last manifest wins.  Under every key the
    merged manifest holds what the last manifest that has the key holds
    under it, and it lacks the keys that no manifest has. *)
Theorem merged_manifest_last_wins :
  forall (pages : list TurbopackUtils.PagesManifest)
         (V : Type) (loadable : list (TurbopackUtils.Dict V))
         (app : list TurbopackUtils.AppBuildManifest) (k : string),
    Forall one_entry_per_key pages ->
    Forall one_entry_per_key loadable ->
    Forall (fun m => one_entry_per_key (TurbopackUtils.abm_pages m)) app ->
    JsMap.get k (TurbopackUtils.mergePagesManifests pages)
    = last_value (fun m => m) k pages /\
    JsMap.get k (TurbopackUtils.mergeLoadableManifests loadable)
    = last_value (fun m => m) k loadable /\
    JsMap.get k
      (TurbopackUtils.abm_pages (TurbopackUtils.mergeAppBuildManifests app))
    = last_value TurbopackUtils.abm_pages k app.
Proof.
  intros pages V loadable app k Fp Fl Fa.
  split; [|split].
  - exact (merged_get (fun m => m) k Fp).
  - exact (merged_get (fun m => m) k Fl).
  - unfold TurbopackUtils.mergeAppBuildManifests.
    rewrite fold_left_project
      with (proj := TurbopackUtils.abm_pages)
           (step' := fun acc m =>
                       TurbopackUtils.Object_assign acc
                         (TurbopackUtils.abm_pages m))
      by reflexivity.
    exact (merged_get TurbopackUtils.abm_pages k Fa).
Qed.

Lemma merged_manifest_last_wins_witness :
  JsMap.get "/about"
    (TurbopackUtils.mergePagesManifests
       [[("/about", "pages/about.js"); ("/", "pages/index.js")];
        [("/about", "pages/about.mjs")];
        [("/blog", "pages/blog.js")]])
  = Some "pages/about.mjs".
Proof.
  apply (@merged_manifest_last_wins
           [[("/about", "pages/about.js"); ("/", "pages/index.js")];
            [("/about", "pages/about.mjs")];
            [("/blog", "pages/blog.js")]]
           nat [] [] "/about").
  - unfold one_entry_per_key.
    repeat constructor; simpl; intuition discriminate.
  - constructor.
  - constructor.
Defined.

Lemma build_pages_merged (manifests : list TurbopackUtils.BuildManifest) :
  TurbopackUtils.bm_pages (TurbopackUtils.mergeBuildManifests manifests) =
  fold_left
    (fun acc m => TurbopackUtils.Object_assign acc (TurbopackUtils.bm_pages m))
    manifests [("/_app", [])].
Proof.
  unfold TurbopackUtils.mergeBuildManifests.
  now rewrite fold_left_project
    with (proj := TurbopackUtils.bm_pages)
         (step' := fun acc m =>
                     TurbopackUtils.Object_assign acc
                       (TurbopackUtils.bm_pages m))
    by reflexivity.
Qed.

(** X17.  [mergeBuildManifests]: the pages of the merged build manifest
    are ["/_app"] and the pages of the manifests, nothing else; with no
    manifest listing it, ["/_app"] has no files. *)
Theorem build_manifest_always_has_app :
  forall (manifests : list TurbopackUtils.BuildManifest) (k : string),
    let merged := TurbopackUtils.mergeBuildManifests manifests in
    JsMap.has k (TurbopackUtils.bm_pages merged)
    = String.eqb k "/_app"
      || existsb (fun m => JsMap.has k (TurbopackUtils.bm_pages m)) manifests
    /\
    (existsb (fun m => JsMap.has "/_app" (TurbopackUtils.bm_pages m))
       manifests = false ->
     JsMap.get "/_app" (TurbopackUtils.bm_pages merged) = Some []).
Proof.
  intros manifests k. cbv zeta. rewrite build_pages_merged. split.
  - rewrite merged_has, map_has_cons. simpl.
    now rewrite orb_false_r.
  - generalize (@nil string). generalize "/_app".
    intros key files0.
    assert (G : forall start,
               JsMap.get key start = Some files0 ->
               existsb (fun m => JsMap.has key (TurbopackUtils.bm_pages m))
                 manifests = false ->
               JsMap.get key
                 (fold_left
                    (fun acc m =>
                       TurbopackUtils.Object_assign acc
                         (TurbopackUtils.bm_pages m))
                    manifests start) = Some files0).
    { induction manifests as [|m l IH]; intros start S E; [exact S|].
      simpl in E. apply orb_false_iff in E as [Em El]. simpl.
      apply IH; [|exact El].
      rewrite assign_get_absent by now apply map_has_get. exact S. }
    apply G. simpl. now rewrite String.eqb_refl.
Qed.

Lemma build_manifest_always_has_app_witness :
  JsMap.get "/_app"
    (TurbopackUtils.bm_pages (TurbopackUtils.mergeBuildManifests []))
  = Some [].
Proof.
  apply (proj2 (build_manifest_always_has_app [] "/_app")). reflexivity.
Defined.

Lemma build_fixed_fields (manifests : list TurbopackUtils.BuildManifest)
  (start : TurbopackUtils.BuildManifest) :
  let merged :=
    fold_left
      (fun manifest m =>
         {| TurbopackUtils.bm_pages :=
              TurbopackUtils.Object_assign (TurbopackUtils.bm_pages manifest)
                (TurbopackUtils.bm_pages m);
            TurbopackUtils.devFiles := TurbopackUtils.devFiles manifest;
            TurbopackUtils.ampDevFiles := TurbopackUtils.ampDevFiles manifest;
            TurbopackUtils.polyfillFiles :=
              TurbopackUtils.polyfillFiles manifest;
            TurbopackUtils.lowPriorityFiles :=
              TurbopackUtils.lowPriorityFiles manifest;
            TurbopackUtils.rootMainFiles :=
              if Nat.eqb (length (TurbopackUtils.rootMainFiles m)) 0
              then TurbopackUtils.rootMainFiles manifest
              else TurbopackUtils.rootMainFiles m;
            TurbopackUtils.ampFirstPages :=
              TurbopackUtils.ampFirstPages manifest |})
      manifests start in
  TurbopackUtils.devFiles merged = TurbopackUtils.devFiles start /\
  TurbopackUtils.ampDevFiles merged = TurbopackUtils.ampDevFiles start /\
  TurbopackUtils.polyfillFiles merged = TurbopackUtils.polyfillFiles start /\
  TurbopackUtils.lowPriorityFiles merged
  = TurbopackUtils.lowPriorityFiles start /\
  TurbopackUtils.ampFirstPages merged = TurbopackUtils.ampFirstPages start /\
  TurbopackUtils.rootMainFiles merged =
    match
      last_with
        (fun m => negb (Nat.eqb (length (TurbopackUtils.rootMainFiles m)) 0))
        manifests
    with
    | Some m => TurbopackUtils.rootMainFiles m
    | None => TurbopackUtils.rootMainFiles start
    end.
Proof.
  cbv zeta. induction manifests as [|m l IH] using rev_ind.
  - simpl. auto 10.
  - rewrite fold_left_app, last_with_snoc. simpl.
    destruct IH as (D & A & P & L & F & R).
    repeat split; try assumption.
    destruct (Nat.eqb (length (TurbopackUtils.rootMainFiles m)) 0);
      simpl; [exact R | reflexivity].
Qed.

(** X18.  [mergeBuildManifests]: the root main files of the merged
    manifest are those of the last manifest that has any, and none when no
    manifest has any; the development, polyfill and AMP lists are empty and
    the low-priority files are the two development manifests, whatever is
    merged. *)
Theorem build_manifest_root_files_of_last :
  forall manifests : list TurbopackUtils.BuildManifest,
    let merged := TurbopackUtils.mergeBuildManifests manifests in
    TurbopackUtils.rootMainFiles merged =
      match
        last_with
          (fun m =>
             negb (Nat.eqb (length (TurbopackUtils.rootMainFiles m)) 0))
          manifests
      with
      | Some m => TurbopackUtils.rootMainFiles m
      | None => []
      end /\
    TurbopackUtils.devFiles merged = [] /\
    TurbopackUtils.ampDevFiles merged = [] /\
    TurbopackUtils.polyfillFiles merged = [] /\
    TurbopackUtils.ampFirstPages merged = [] /\
    TurbopackUtils.lowPriorityFiles merged =
      ["static/development/_ssgManifest.js";
       "static/development/_buildManifest.js"].
Proof.
  intros manifests. cbv zeta. unfold TurbopackUtils.mergeBuildManifests.
  match goal with
  | |- context [fold_left _ manifests ?s] =>
      destruct (build_fixed_fields manifests s) as (D & A & P & L & F & R)
  end.
  cbv zeta in D, A, P, L, F, R.
  rewrite D, A, P, L, F, R. simpl. auto 10.
Qed.

Lemma font_flags (manifests : list TurbopackUtils.NextFontManifest)
  (start : TurbopackUtils.NextFontManifest) :
  let merged :=
    fold_left
      (fun manifest m =>
         {| TurbopackUtils.font_app :=
              TurbopackUtils.Object_assign (TurbopackUtils.font_app manifest)
                (TurbopackUtils.font_app m);
            TurbopackUtils.appUsingSizeAdjust :=
              TurbopackUtils.appUsingSizeAdjust manifest
              || TurbopackUtils.appUsingSizeAdjust m;
            TurbopackUtils.font_pages :=
              TurbopackUtils.Object_assign
                (TurbopackUtils.font_pages manifest)
                (TurbopackUtils.font_pages m);
            TurbopackUtils.pagesUsingSizeAdjust :=
              TurbopackUtils.pagesUsingSizeAdjust manifest
              || TurbopackUtils.pagesUsingSizeAdjust m |})
      manifests start in
  TurbopackUtils.appUsingSizeAdjust merged
  = TurbopackUtils.appUsingSizeAdjust start
    || existsb TurbopackUtils.appUsingSizeAdjust manifests /\
  TurbopackUtils.pagesUsingSizeAdjust merged
  = TurbopackUtils.pagesUsingSizeAdjust start
    || existsb TurbopackUtils.pagesUsingSizeAdjust manifests.
Proof.
  cbv zeta. revert start. induction manifests as [|m l IH]; intros start.
  - simpl. now rewrite !orb_false_r.
  - simpl. destruct (IH
      {| TurbopackUtils.font_app :=
           TurbopackUtils.Object_assign (TurbopackUtils.font_app start)
             (TurbopackUtils.font_app m);
         TurbopackUtils.appUsingSizeAdjust :=
           TurbopackUtils.appUsingSizeAdjust start
           || TurbopackUtils.appUsingSizeAdjust m;
         TurbopackUtils.font_pages :=
           TurbopackUtils.Object_assign (TurbopackUtils.font_pages start)
             (TurbopackUtils.font_pages m);
         TurbopackUtils.pagesUsingSizeAdjust :=
           TurbopackUtils.pagesUsingSizeAdjust start
           || TurbopackUtils.pagesUsingSizeAdjust m |}) as [Ea Ep].
    rewrite Ea, Ep. simpl. now rewrite !orb_assoc.
Qed.

(** X19.  [mergeFontManifests]: the merged manifest says that app (or
    pages) fonts use size adjustment exactly when some manifest says so,
    and it lists a font entry exactly when some manifest lists it. *)
Theorem font_manifest_flags_are_any :
  forall (manifests : list TurbopackUtils.NextFontManifest) (k : string),
    let merged := TurbopackUtils.mergeFontManifests manifests in
    TurbopackUtils.appUsingSizeAdjust merged
    = existsb TurbopackUtils.appUsingSizeAdjust manifests /\
    TurbopackUtils.pagesUsingSizeAdjust merged
    = existsb TurbopackUtils.pagesUsingSizeAdjust manifests /\
    JsMap.has k (TurbopackUtils.font_app merged)
    = existsb (fun m => JsMap.has k (TurbopackUtils.font_app m)) manifests /\
    JsMap.has k (TurbopackUtils.font_pages merged)
    = existsb (fun m => JsMap.has k (TurbopackUtils.font_pages m)) manifests.
Proof.
  intros manifests k. cbv zeta. unfold TurbopackUtils.mergeFontManifests.
  match goal with
  | |- context [fold_left _ manifests ?s] =>
      destruct (font_flags manifests s) as [Ea Ep]
  end.
  cbv zeta in Ea, Ep. rewrite Ea, Ep.
  repeat split.
  - rewrite fold_left_project
      with (proj := TurbopackUtils.font_app)
           (step' := fun acc m =>
                       TurbopackUtils.Object_assign acc
                         (TurbopackUtils.font_app m))
      by reflexivity.
    now rewrite merged_has.
  - rewrite fold_left_project
      with (proj := TurbopackUtils.font_pages)
           (step' := fun acc m =>
                       TurbopackUtils.Object_assign acc
                         (TurbopackUtils.font_pages m))
      by reflexivity.
    now rewrite merged_has.
Qed.

Lemma update_each_fold {V} (f : V -> V) (k : string) (l : list string) :
  forall acc : TurbopackUtils.Dict V,
    NoDup l ->
    let result :=
      fold_left
        (fun acc key =>
           match JsMap.get key acc with
           | Some value => JsMap.set key (f value) acc
           | None => acc
           end)
        l acc in
    JsMap.keys result = JsMap.keys acc /\
    JsMap.get k result =
      if existsb (String.eqb k) l then option_map f (JsMap.get k acc)
      else JsMap.get k acc.
Proof.
  cbv zeta. induction l as [|key l IH]; intros acc N; [now split|].
  inversion N as [|? ? Nk Nl]; subst. simpl.
  destruct (JsMap.get key acc) as [value|] eqn:G.
  - destruct (IH (JsMap.set key (f value) acc) Nl) as [K E].
    rewrite K, E. split.
    + rewrite map_keys_set. unfold JsMap.has. now rewrite G.
    + destruct (String.eqb_spec k key) as [->|Ne]; simpl.
      * rewrite map_get_set_same, G.
        destruct (existsb (String.eqb key) l) eqn:X; [|reflexivity].
        exfalso. apply Nk. apply existsb_exists in X as (x & I & Ex).
        apply String.eqb_eq in Ex. now subst.
      * now rewrite map_get_set_other by exact Ne.
  - destruct (IH acc Nl) as [K E]. rewrite K, E. split; [reflexivity|].
    destruct (String.eqb_spec k key) as [->|Ne]; simpl; [|reflexivity].
    rewrite G. simpl. now destruct (existsb (String.eqb key) l).
Qed.

Lemma update_each_keys {V} (f : V -> V) (d : TurbopackUtils.Dict V) :
  NoDup (JsMap.keys d) ->
  JsMap.keys (TurbopackUtils.update_each f d) = JsMap.keys d.
Proof.
  intros N. exact (proj1 (update_each_fold f "" d N)).
Qed.

Lemma update_each_get {V} (f : V -> V) (d : TurbopackUtils.Dict V) k :
  NoDup (JsMap.keys d) ->
  JsMap.get k (TurbopackUtils.update_each f d) = option_map f (JsMap.get k d).
Proof.
  intros N. unfold TurbopackUtils.update_each.
  rewrite (proj2 (update_each_fold f k d N)).
  destruct (existsb (String.eqb k) (JsMap.keys d)) eqn:X; [reflexivity|].
  rewrite map_get_absent; [reflexivity|].
  intros I. apply Bool.not_true_iff_false in X. apply X.
  apply existsb_exists. exists k. split; [exact I | apply String.eqb_refl].
Qed.

Lemma fill_matchers_keys p (d : TurbopackUtils.Dict _) :
  JsMap.keys (TurbopackUtils.fill_matchers p d) = JsMap.keys d.
Proof.
  unfold TurbopackUtils.fill_matchers, JsMap.keys. rewrite map_map.
  reflexivity.
Qed.

Lemma fill_matchers_get p (d : TurbopackUtils.Dict _) k :
  JsMap.get k (TurbopackUtils.fill_matchers p d) =
  option_map
    (fun f =>
       {| TurbopackUtils.files := TurbopackUtils.files f;
          TurbopackUtils.name := TurbopackUtils.name f;
          TurbopackUtils.page := TurbopackUtils.page f;
          TurbopackUtils.matchers :=
            map (TurbopackUtils.fill_regexp p) (TurbopackUtils.matchers f) |})
    (JsMap.get k d).
Proof.
  induction d as [|[k' f] d IH]; [reflexivity|].
  simpl. destruct (String.eqb k k'); [reflexivity | exact IH].
Qed.

(** What the first loop of [mergeMiddlewareManifests] leaves. *)
Lemma middleware_first_loop
  (manifests : list TurbopackUtils.TurbopackMiddlewareManifest) :
  fold_left
    (fun acc m =>
       let '(fs, mw, ins) := acc in
       (TurbopackUtils.Object_assign fs
          (TurbopackUtils.functions (TurbopackUtils.base m)),
        TurbopackUtils.Object_assign mw
          (TurbopackUtils.middleware (TurbopackUtils.base m)),
        match TurbopackUtils.instrumentation m with
        | Some i => Some i
        | None => ins
        end))
    manifests ([], [], None)
  = (fold_left
       (fun acc m =>
          TurbopackUtils.Object_assign acc
            (TurbopackUtils.functions (TurbopackUtils.base m)))
       manifests [],
     fold_left
       (fun acc m =>
          TurbopackUtils.Object_assign acc
            (TurbopackUtils.middleware (TurbopackUtils.base m)))
       manifests [],
     match
       last_with (fun m => is_some (TurbopackUtils.instrumentation m))
         manifests
     with
     | Some m => TurbopackUtils.instrumentation m
     | None => None
     end).
Proof.
  induction manifests as [|m l IH] using rev_ind; [reflexivity|].
  rewrite !fold_left_app, IH, last_with_snoc. simpl.
  destruct (TurbopackUtils.instrumentation m) eqn:E; simpl; rewrite ?E;
    reflexivity.
Qed.

Lemma last_instrumentation
  (manifests : list TurbopackUtils.TurbopackMiddlewareManifest) :
  match
    match
      last_with (fun m => is_some (TurbopackUtils.instrumentation m))
        manifests
    with
    | Some m => TurbopackUtils.instrumentation m
    | None => None
    end
  with
  | Some i => TurbopackUtils.instrumentation_files i
  | None => []
  end = last_instrumentation_files manifests.
Proof.
  unfold last_instrumentation_files.
  now destruct (last_with _ manifests).
Qed.

(** X20.  [mergeMiddlewareManifests]: [sortedMiddleware] lists each key of
    the merged [middleware] once, and a key is listed exactly when some
    manifest has a middleware under it. *)
Theorem sorted_middleware_lists_every_key_once :
  forall pathToRegexp_source
         (manifests : list TurbopackUtils.TurbopackMiddlewareManifest),
    let merged :=
      TurbopackUtils.mergeMiddlewareManifests pathToRegexp_source manifests in
    NoDup (TurbopackUtils.sortedMiddleware merged) /\
    forall k,
      (In k (TurbopackUtils.sortedMiddleware merged) <->
       JsMap.has k (TurbopackUtils.middleware merged) = true) /\
      (In k (TurbopackUtils.sortedMiddleware merged) <->
       exists m,
         In m manifests /\
         JsMap.has k (TurbopackUtils.middleware (TurbopackUtils.base m))
         = true).
Proof.
  intros p manifests. cbv zeta.
  unfold TurbopackUtils.mergeMiddlewareManifests.
  rewrite middleware_first_loop. cbn [TurbopackUtils.sortedMiddleware
                                      TurbopackUtils.middleware].
  match goal with
  | |- context [TurbopackUtils.update_each _ ?d] => set (mw := d)
  end.
  assert (N : NoDup (JsMap.keys mw)).
  { apply (merged_NoDup
             (fun m => TurbopackUtils.middleware (TurbopackUtils.base m))).
    constructor. }
  rewrite fill_matchers_keys, update_each_keys by exact N.
  split; [exact N|]. intros k. split.
  - rewrite map_has_keys, fill_matchers_keys, update_each_keys by exact N.
    reflexivity.
  - rewrite <- map_has_keys. unfold mw.
    rewrite (merged_has
               (fun m => TurbopackUtils.middleware (TurbopackUtils.base m))).
    simpl. rewrite existsb_exists. reflexivity.
Qed.

(** X21.  [mergeMiddlewareManifests]: under every key, the merged
    [functions] (and [middleware]) hold the definition of the last manifest
    that has the key, with the files of the last instrumentation put before
    its own files (none when no manifest has an instrumentation) and with
    the regular expression of each matcher that lacks one computed from its
    original source; the matchers that have one keep it. *)
Theorem middleware_entries_prefixed_and_filled :
  forall pathToRegexp_source
         (manifests : list TurbopackUtils.TurbopackMiddlewareManifest)
         (k : string),
    Forall
      (fun m =>
         one_entry_per_key
           (TurbopackUtils.functions (TurbopackUtils.base m)) /\
         one_entry_per_key
           (TurbopackUtils.middleware (TurbopackUtils.base m)))
      manifests ->
    let merged :=
      TurbopackUtils.mergeMiddlewareManifests pathToRegexp_source manifests in
    let finish f :=
      {| TurbopackUtils.files :=
           (last_instrumentation_files manifests
            ++ TurbopackUtils.files f)%list;
         TurbopackUtils.name := TurbopackUtils.name f;
         TurbopackUtils.page := TurbopackUtils.page f;
         TurbopackUtils.matchers :=
           map (TurbopackUtils.fill_regexp pathToRegexp_source)
             (TurbopackUtils.matchers f) |} in
    JsMap.get k (TurbopackUtils.functions merged)
    = option_map finish
        (last_value
           (fun m => TurbopackUtils.functions (TurbopackUtils.base m))
           k manifests) /\
    JsMap.get k (TurbopackUtils.middleware merged)
    = option_map finish
        (last_value
           (fun m => TurbopackUtils.middleware (TurbopackUtils.base m))
           k manifests).
Proof.
  intros p manifests k F. cbv zeta.
  assert (Ff : Forall
                 (fun m =>
                    one_entry_per_key
                      (TurbopackUtils.functions (TurbopackUtils.base m)))
                 manifests)
    by (eapply Forall_impl; [|exact F]; now intros m [A B]).
  assert (Fm : Forall
                 (fun m =>
                    one_entry_per_key
                      (TurbopackUtils.middleware (TurbopackUtils.base m)))
                 manifests)
    by (eapply Forall_impl; [|exact F]; now intros m [A B]).
  unfold TurbopackUtils.mergeMiddlewareManifests.
  rewrite middleware_first_loop.
  cbn [TurbopackUtils.functions TurbopackUtils.middleware].
  rewrite !fill_matchers_get.
  rewrite !update_each_get
    by (apply (merged_NoDup
                 (fun m => TurbopackUtils.functions (TurbopackUtils.base m)))
        || apply (merged_NoDup
                    (fun m =>
                       TurbopackUtils.middleware (TurbopackUtils.base m)));
        constructor).
  rewrite (merged_get
             (fun m => TurbopackUtils.functions (TurbopackUtils.base m))
             k Ff).
  rewrite (merged_get
             (fun m => TurbopackUtils.middleware (TurbopackUtils.base m))
             k Fm).
  split.
  - destruct (last_value _ k manifests) as [f|]; [|reflexivity].
    simpl. now rewrite last_instrumentation.
  - destruct (last_value
                (fun m => TurbopackUtils.middleware (TurbopackUtils.base m))
                k manifests) as [f|]; [|reflexivity].
    simpl. now rewrite last_instrumentation.
Qed.

Lemma middleware_entries_prefixed_and_filled_witness :
  let own :=
    {| TurbopackUtils.files := ["server/middleware.js"];
       TurbopackUtils.name := "middleware";
       TurbopackUtils.page := "/";
       TurbopackUtils.matchers :=
         [ {| TurbopackUtils.regexp := Some "^/kept$";
              TurbopackUtils.originalSource := "/kept" |};
           {| TurbopackUtils.regexp := None;
              TurbopackUtils.originalSource := "/a/b" |} ] |} in
  let manifests :=
    [ {| TurbopackUtils.base :=
           {| TurbopackUtils.version := 2;
              TurbopackUtils.middleware := [("/", own)];
              TurbopackUtils.sortedMiddleware := ["/"];
              TurbopackUtils.functions := [] |};
         TurbopackUtils.instrumentation := None |};
      {| TurbopackUtils.base :=
           {| TurbopackUtils.version := 2;
              TurbopackUtils.middleware := [];
              TurbopackUtils.sortedMiddleware := [];
              TurbopackUtils.functions := [] |};
         TurbopackUtils.instrumentation :=
           Some {| TurbopackUtils.instrumentation_files :=
                     ["server/instrumentation.js"] |} |} ] in
  JsMap.get "/"
    (TurbopackUtils.middleware
       (TurbopackUtils.mergeMiddlewareManifests
          (fun source => "^" ++ replaceAll "/" "\/" source ++ "$")
          manifests))
  = Some
      {| TurbopackUtils.files :=
           ["server/instrumentation.js"; "server/middleware.js"];
         TurbopackUtils.name := "middleware";
         TurbopackUtils.page := "/";
         TurbopackUtils.matchers :=
           [ {| TurbopackUtils.regexp := Some "^/kept$";
                TurbopackUtils.originalSource := "/kept" |};
             {| TurbopackUtils.regexp := Some "^/a/b$";
                TurbopackUtils.originalSource := "/a/b" |} ] |}.
Proof.
  cbv zeta.
  match goal with
  | |- JsMap.get ?k
         (TurbopackUtils.middleware
            (TurbopackUtils.mergeMiddlewareManifests ?p ?ms)) = _ =>
      rewrite (proj2 (@middleware_entries_prefixed_and_filled p ms k
                        ltac:(unfold one_entry_per_key;
                              repeat constructor; simpl;
                              intuition discriminate)))
  end.
  reflexivity.
Defined.

Lemma is_some_get {V} (k : string) (d : JsMap.t string V) :
  is_some (JsMap.get k d) = JsMap.has k d.
Proof. reflexivity. Qed.

Section ActionFields.

Variable field : TurbopackUtils.ActionEntry -> TurbopackUtils.Dict string.

Hypothesis field_merged :
  forall workers layer workers' layer',
    field
      {| TurbopackUtils.workers :=
           TurbopackUtils.Object_assign workers workers';
         TurbopackUtils.layer := TurbopackUtils.Object_assign layer layer' |}
    = TurbopackUtils.Object_assign
        (field {| TurbopackUtils.workers := workers;
                  TurbopackUtils.layer := layer |})
        (field {| TurbopackUtils.workers := workers';
                  TurbopackUtils.layer := layer' |}).

Hypothesis field_fresh :
  field {| TurbopackUtils.workers := []; TurbopackUtils.layer := [] |} = [].

Lemma action_entry_eta (a : TurbopackUtils.ActionEntry) :
  {| TurbopackUtils.workers := TurbopackUtils.workers a;
     TurbopackUtils.layer := TurbopackUtils.layer a |} = a.
Proof. now destruct a. Qed.

Lemma mergeActionIds_fold (other : TurbopackUtils.Dict _) id key
  (l : list string) :
  forall acc : TurbopackUtils.Dict TurbopackUtils.ActionEntry,
    let result :=
      fold_left
        (fun acc key =>
           match JsMap.get key other with
           | Some entry =>
               let action :=
                 match JsMap.get key acc with
                 | Some a => a
                 | None =>
                     {| TurbopackUtils.workers := [];
                        TurbopackUtils.layer := [] |}
                 end in
               JsMap.set key
                 {| TurbopackUtils.workers :=
                      TurbopackUtils.Object_assign
                        (TurbopackUtils.workers action)
                        (TurbopackUtils.workers entry);
                    TurbopackUtils.layer :=
                      TurbopackUtils.Object_assign
                        (TurbopackUtils.layer action)
                        (TurbopackUtils.layer entry) |}
                 acc
           | None => acc
           end)
        l acc in
    JsMap.has id result
    = JsMap.has id acc || (existsb (String.eqb id) l && JsMap.has id other)
    /\
    is_some (action_field field id key result)
    = is_some (action_field field id key acc)
      || (existsb (String.eqb id) l
          && is_some (action_field field id key other)).
Proof.
  cbv zeta. induction l as [|key0 l IH]; intros acc.
  - simpl. now rewrite !orb_false_r.
  - simpl. destruct (JsMap.get key0 other) as [entry|] eqn:Go.
    + match goal with
      | |- context [fold_left _ l ?a] => destruct (IH a) as [Hh Hf]
      end.
      rewrite Hh, Hf. clear Hh Hf IH.
      rewrite map_has_set. unfold action_field.
      destruct (String.eqb_spec id key0) as [->|Ne].
      * rewrite map_get_set_same, Go.
        assert (Ho : JsMap.has key0 other = true)
          by (unfold JsMap.has; now rewrite Go).
        rewrite Ho. simpl. rewrite !orb_true_r. split; [reflexivity|].
        rewrite field_merged, !action_entry_eta, !is_some_get, assign_has.
        destruct (JsMap.get key0 acc) as [a|].
        -- rewrite is_some_get.
           destruct (JsMap.has key (field a)), (JsMap.has key (field entry)),
             (existsb (String.eqb key0) l); reflexivity.
        -- rewrite field_fresh. simpl.
           destruct (JsMap.has key (field entry)),
             (existsb (String.eqb key0) l); reflexivity.
      * rewrite map_get_set_other by exact Ne. simpl. now split.
    + destruct (IH acc) as [Hh Hf]. rewrite Hh, Hf. clear Hh Hf IH.
      unfold action_field.
      destruct (String.eqb_spec id key0) as [->|Ne]; simpl; [|now split].
      assert (Ho : JsMap.has key0 other = false)
        by (unfold JsMap.has; now rewrite Go).
      rewrite Ho, Go. simpl. now rewrite !andb_false_r.
Qed.

Lemma mergeActionIds_has (acc other : TurbopackUtils.Dict _) id key :
  JsMap.has id (TurbopackUtils.mergeActionIds acc other)
  = JsMap.has id acc || JsMap.has id other
  /\
  is_some (action_field field id key (TurbopackUtils.mergeActionIds acc other))
  = is_some (action_field field id key acc)
    || is_some (action_field field id key other).
Proof.
  unfold TurbopackUtils.mergeActionIds.
  destruct (mergeActionIds_fold other id key (JsMap.keys other) acc)
    as [Hh Hf].
  cbv zeta in Hh, Hf. rewrite Hh, Hf. clear Hh Hf.
  destruct (existsb (String.eqb id) (JsMap.keys other)) eqn:X.
  - now rewrite !andb_true_l.
  - assert (G : JsMap.get id other = None).
    { apply map_get_absent. intros I.
      apply Bool.not_true_iff_false in X. apply X, existsb_exists.
      exists id. split; [exact I | apply String.eqb_refl]. }
    unfold action_field, JsMap.has. rewrite G. simpl.
    now rewrite !orb_false_r.
Qed.

Lemma merged_actions_fold
  (side : TurbopackUtils.ActionManifest -> TurbopackUtils.Dict _)
  (manifests : list TurbopackUtils.ActionManifest) id key :
  forall start : TurbopackUtils.Dict TurbopackUtils.ActionEntry,
    let result :=
      fold_left (fun acc m => TurbopackUtils.mergeActionIds acc (side m))
        manifests start in
    JsMap.has id result
    = JsMap.has id start || existsb (fun m => JsMap.has id (side m)) manifests
    /\
    is_some (action_field field id key result)
    = is_some (action_field field id key start)
      || existsb (fun m => is_some (action_field field id key (side m)))
           manifests.
Proof.
  cbv zeta. induction manifests as [|m l IH]; intros start.
  - simpl. now rewrite !orb_false_r.
  - simpl.
    destruct (IH (TurbopackUtils.mergeActionIds start (side m))) as [Hh Hf].
    destruct (mergeActionIds_has start (side m) id key) as [Sh Sf].
    rewrite Hh, Hf, Sh, Sf. now rewrite !orb_assoc.
Qed.

End ActionFields.

(** X22.  [mergeActionManifests]: on the node side and on the edge side,
    the merged manifest has an action id exactly when some manifest has it,
    and under an action id it has a worker (a layer) exactly when some
    manifest has that worker (layer) under that id; the encryption key is
    the generated one. *)
Theorem action_manifest_is_union :
  forall (generated : string)
         (manifests : list TurbopackUtils.ActionManifest)
         (id key : string),
    let merged := TurbopackUtils.mergeActionManifests generated manifests in
    let any (present : TurbopackUtils.ActionManifest -> bool) :=
      existsb present manifests in
    TurbopackUtils.encryptionKey merged = generated /\
    JsMap.has id (TurbopackUtils.node merged)
    = any (fun m => JsMap.has id (TurbopackUtils.node m)) /\
    JsMap.has id (TurbopackUtils.edge merged)
    = any (fun m => JsMap.has id (TurbopackUtils.edge m)) /\
    is_some (action_field TurbopackUtils.workers id key
               (TurbopackUtils.node merged))
    = any (fun m =>
             is_some (action_field TurbopackUtils.workers id key
                        (TurbopackUtils.node m))) /\
    is_some (action_field TurbopackUtils.layer id key
               (TurbopackUtils.node merged))
    = any (fun m =>
             is_some (action_field TurbopackUtils.layer id key
                        (TurbopackUtils.node m))) /\
    is_some (action_field TurbopackUtils.workers id key
               (TurbopackUtils.edge merged))
    = any (fun m =>
             is_some (action_field TurbopackUtils.workers id key
                        (TurbopackUtils.edge m))) /\
    is_some (action_field TurbopackUtils.layer id key
               (TurbopackUtils.edge merged))
    = any (fun m =>
             is_some (action_field TurbopackUtils.layer id key
                        (TurbopackUtils.edge m))).
Proof.
  intros generated manifests id key. cbv zeta.
  unfold TurbopackUtils.mergeActionManifests.
  assert (N : forall l start,
            TurbopackUtils.node
              (fold_left
                 (fun manifest m =>
                    {| TurbopackUtils.node :=
                         TurbopackUtils.mergeActionIds
                           (TurbopackUtils.node manifest)
                           (TurbopackUtils.node m);
                       TurbopackUtils.edge :=
                         TurbopackUtils.mergeActionIds
                           (TurbopackUtils.edge manifest)
                           (TurbopackUtils.edge m);
                       TurbopackUtils.encryptionKey :=
                         TurbopackUtils.encryptionKey manifest |})
                 l start)
            = fold_left
                (fun acc m =>
                   TurbopackUtils.mergeActionIds acc (TurbopackUtils.node m))
                l (TurbopackUtils.node start))
    by (intros l start;
        now rewrite fold_left_project
          with (proj := TurbopackUtils.node)
               (step' := fun acc m =>
                           TurbopackUtils.mergeActionIds acc
                             (TurbopackUtils.node m))
          by reflexivity).
  assert (E : forall l start,
            TurbopackUtils.edge
              (fold_left
                 (fun manifest m =>
                    {| TurbopackUtils.node :=
                         TurbopackUtils.mergeActionIds
                           (TurbopackUtils.node manifest)
                           (TurbopackUtils.node m);
                       TurbopackUtils.edge :=
                         TurbopackUtils.mergeActionIds
                           (TurbopackUtils.edge manifest)
                           (TurbopackUtils.edge m);
                       TurbopackUtils.encryptionKey :=
                         TurbopackUtils.encryptionKey manifest |})
                 l start)
            = fold_left
                (fun acc m =>
                   TurbopackUtils.mergeActionIds acc (TurbopackUtils.edge m))
                l (TurbopackUtils.edge start))
    by (intros l start;
        now rewrite fold_left_project
          with (proj := TurbopackUtils.edge)
               (step' := fun acc m =>
                           TurbopackUtils.mergeActionIds acc
                             (TurbopackUtils.edge m))
          by reflexivity).
  rewrite N, E. simpl.
  pose proof (fun field A B =>
                @merged_actions_fold field A B TurbopackUtils.node manifests
                  id key []) as Fn.
  pose proof (fun field A B =>
                @merged_actions_fold field A B TurbopackUtils.edge manifests
                  id key []) as Fe.
  cbv zeta in Fn, Fe.
  destruct (Fn TurbopackUtils.workers (fun _ _ _ _ => eq_refl) eq_refl)
    as [Hn Wn].
  destruct (Fn TurbopackUtils.layer (fun _ _ _ _ => eq_refl) eq_refl)
    as [_ Ln].
  destruct (Fe TurbopackUtils.workers (fun _ _ _ _ => eq_refl) eq_refl)
    as [He We].
  destruct (Fe TurbopackUtils.layer (fun _ _ _ _ => eq_refl) eq_refl)
    as [_ Le].
  split.
  - rewrite fold_left_project
      with (proj := TurbopackUtils.encryptionKey)
           (step' := fun acc _ => acc)
      by reflexivity.
    simpl. clear. induction manifests; simpl; auto.
  - repeat split; assumption.
Qed.

Lemma prefix_slash (p : string) :
  String.prefix "/" p = true -> exists rest, p = String "/"%char rest.
Proof.
  destruct p as [|c p]; [discriminate|].
  change (String.prefix "/" (String c p))
    with (if ascii_dec "/"%char c then String.prefix "" p else false).
  destruct (ascii_dec "/"%char c) as [E|]; [subst c | discriminate].
  intros _. now exists p.
Qed.

(** The page component of the path of a partial manifest tells pages
    apart. *)
Lemma page_component_injective (p q : string) :
  let component pageName :=
    if String.eqb pageName "/" then "index"
    else if String.eqb pageName "/index" || String.prefix "/index/" pageName
         then "/index" ++ pageName
         else pageName in
  String.prefix "/" p = true -> String.prefix "/" q = true ->
  component p = component q -> p = q.
Proof.
  cbv zeta. intros Pp Pq.
  destruct (prefix_slash p Pp) as [p' ->].
  destruct (prefix_slash q Pq) as [q' ->].
  assert (Long : forall r,
            String.eqb ("/index" ++ String "/"%char r) "/index"
            || String.prefix "/index/" ("/index" ++ String "/"%char r)
            = true).
  { intros r. apply orb_true_iff. right.
    change ("/index" ++ String "/"%char r) with ("/index/" ++ r).
    apply prefix_append. }
  destruct (String.eqb_spec (String "/"%char p') "/") as [Ep|Np];
    destruct (String.eqb_spec (String "/"%char q') "/") as [Eq|Nq].
  - congruence.
  - destruct (_ || _); [discriminate|]. discriminate.
  - destruct (_ || _); [discriminate|]. discriminate.
  - destruct (String.eqb (String "/"%char p') "/index"
              || String.prefix "/index/" (String "/"%char p')) eqn:Ip;
      destruct (String.eqb (String "/"%char q') "/index"
                || String.prefix "/index/" (String "/"%char q')) eqn:Iq.
    + intros E. now apply append_inj_l in E.
    + intros E. rewrite <- E, Long in Iq. discriminate.
    + intros E. rewrite E, Long in Ip. discriminate.
    + auto.
Qed.

(** X23.  [readPartialManifest]: for the types stored by page (pages, app,
    app-route) and page names that begin with a slash, the arguments handed
    to [posix.join] determine the directory, the manifest name, the type
    and the page; in particular ["/"] (stored as [index]) and ["/index"]
    (stored as [/index/index]) do not meet. *)
Theorem manifest_path_tells_pages_apart :
  forall distDir name pageName type distDir' name' pageName' type',
    stored_by_page type = true ->
    String.prefix "/" pageName = true ->
    String.prefix "/" pageName' = true ->
    TurbopackUtils.manifestPath_arguments distDir name pageName type
    = TurbopackUtils.manifestPath_arguments distDir' name' pageName' type' ->
    distDir = distDir' /\ name = name' /\ type = type' /\
    pageName = pageName'.
Proof.
  intros d n p t d' n' p' t' S Pp Pp' E.
  unfold TurbopackUtils.manifestPath_arguments in E.
  injection E as Ed Et Ec Es En.
  assert (T : t = t').
  { destruct t, t'; simpl in Et, Es; try discriminate; reflexivity. }
  subst t'. repeat split; try assumption.
  apply page_component_injective; try assumption.
  destruct t; try discriminate S; exact Ec.
Qed.

Lemma manifest_path_tells_pages_apart_witness :
  TurbopackUtils.manifestPath_arguments ".next" "pages-manifest.json" "/"
    TurbopackUtils.type_pages
  <>
  TurbopackUtils.manifestPath_arguments ".next" "pages-manifest.json"
    "/index" TurbopackUtils.type_pages.
Proof.
  intros E.
  destruct (@manifest_path_tells_pages_apart
              ".next" "pages-manifest.json" "/" TurbopackUtils.type_pages
              ".next" "pages-manifest.json" "/index" TurbopackUtils.type_pages
              eq_refl eq_refl eq_refl E) as (_ & _ & _ & P).
  discriminate P.
Defined.

(** ** Changes, closed clients and client messages *)

(** X24.  The change callbacks of a page.  A server-side change of a
    pages-router page deletes the page from the "ready" set and enqueues a
    [SERVER_ONLY_CHANGES] notification naming it; so does a server-side
    change of an app page, with [SERVER_COMPONENT_CHANGES], unless the
    change carries an issue of severity error: then nothing is enqueued and
    the "ready" set stays as it was.  The tracker keeps a unit under the
    pathname of its request, the callback deletes the page name: the next
    [startBuilding] for a pathname hands out a live completion handle when
    the pathname is the page name or was not ready, and the inert handle
    when it is another name that was ready. *)
Theorem server_change_reports_next_compilation :
  forall env page pathname change_issues requestUrl w,
    let pages_run :=
      on_change env page Server (PageServerChanged page) change_issues w in
    let app_run :=
      on_change env page Server (AppPageServerChanged page) change_issues w in
    let key := "endpoint-change:" ++ subscription_key page Server in
    let next_handle :=
      if negb (String.eqb pathname page) && JsSet.has pathname (readyIds w)
      then Inert
      else FinishBuilding pathname in
    fst pages_run = Ok tt /\ fst app_run = Ok tt /\
    readyIds (snd pages_run) = JsSet.delete page (readyIds w) /\
    JsMap.get key (hmrPayloads (snd pages_run))
    = Some (SERVER_ONLY_CHANGES [page]) /\
    fst (startBuilding pathname requestUrl false (snd pages_run))
    = Ok next_handle /\
    if existsb (fun issue => String.eqb (severity issue) "error")
         change_issues
    then
      readyIds (snd app_run) = readyIds w /\
      hmrPayloads (snd app_run) = hmrPayloads w
    else
      readyIds (snd app_run) = JsSet.delete page (readyIds w) /\
      JsMap.get key (hmrPayloads (snd app_run))
      = Some SERVER_COMPONENT_CHANGES /\
      fst (startBuilding pathname requestUrl false (snd app_run))
      = Ok next_handle.
Proof.
  intros env page pathname change_issues requestUrl w. cbv zeta.
  unfold on_change, makePayload.
  destruct (returns_processIssues env page change_issues w) as [[] E].
  rewrite !(bind_ok _ _ _ E).
  set (w1 := snd (processIssues env page change_issues false w)) in *.
  assert (R1 : readyIds w1 = readyIds w)
    by (unfold w1; rewrite processIssues_run; reflexivity).
  assert (P1 : hmrPayloads w1 = hmrPayloads w)
    by (unfold w1; rewrite processIssues_run; reflexivity).
  assert (Next : forall w0,
            readyIds w0 = JsSet.delete page (readyIds w) ->
            fst (startBuilding pathname requestUrl false w0)
            = Ok (if negb (String.eqb pathname page)
                     && JsSet.has pathname (readyIds w)
                  then Inert
                  else FinishBuilding pathname)).
  { intros w0 H0. unfold startBuilding. rewrite H0, set_has_delete.
    cbn [negb andb keqb EqKey_string].
    now destruct (negb (String.eqb pathname page)
                  && JsSet.has pathname (readyIds w)). }
  split; [reflexivity|]. split.
  { now destruct (existsb _ change_issues). }
  split; [unfold bind, modify, ret, sendHmr; simpl; now rewrite R1|].
  split.
  { unfold bind, modify, ret, sendHmr. simpl. apply map_get_set_same. }
  split.
  { apply Next. unfold bind, modify, ret, sendHmr. simpl. now rewrite R1. }
  destruct (existsb _ change_issues).
  - split; assumption.
  - split; [unfold bind, modify, ret, sendHmr; simpl; now rewrite R1|].
    split.
    + unfold bind, modify, ret, sendHmr. simpl. apply map_get_set_same.
    + apply Next. unfold bind, modify, ret, sendHmr. simpl. now rewrite R1.
Qed.

(** An app page built for the request [/dash] under the page name
    [/dash/page]: the change deletes [/dash/page], [/dash] stays ready and
    the next request gets the inert handle. *)
Example app_page_change_leaves_pathname_ready :
  let ready := set_build [] ["/dash"] initial in
  let changed :=
    snd (on_change Demo.env "/dash/page" Server
           (AppPageServerChanged "/dash/page") [] ready) in
  readyIds changed = ["/dash"] /\
  fst (startBuilding "/dash" None false changed) = Ok Inert.
Proof. vm_compute. auto. Qed.

Lemma set_In_delete {K} `{EqKey K} (k k' : K) (s : JsSet.t K) :
  In k (JsSet.delete k' s) <-> k <> k' /\ In k s.
Proof.
  rewrite <- !set_has_In, set_has_delete, andb_true_iff, negb_true_iff.
  now rewrite keqb_neq.
Qed.

(** X25.  A client that closes leaves the broadcast and nothing else: the
    next [send] reaches the clients that remain and not the closed one,
    while the raw subscriptions registered for the closed client stay in
    the registry. *)
Theorem closed_client_leaves_broadcast_only :
  forall client action id w,
    let w1 := snd (onClose client w) in
    let w2 := snd (send action w1) in
    effects w2
    = (effects w ++ map (fun c => ClientSend c action) (clients w1))%list /\
    ~ In (ClientSend client action)
        (map (fun c => ClientSend c action) (clients w1)) /\
    (forall c, c <> client -> (In c (clients w1) <-> In c (clients w))) /\
    clientToHmrSubscription w2 = clientToHmrSubscription w /\
    subscribed id client w2 = subscribed id client w.
Proof.
  intros client action id w. cbv zeta. unfold onClose, send, modify. simpl.
  split; [reflexivity|]. split; [|split; [|split; reflexivity]].
  - rewrite in_map_iff. intros (c & E & I). injection E as ->.
    apply set_In_delete in I. now destruct I.
  - intros c N. rewrite set_In_delete. tauto.
Qed.

Lemma is_case_app l1 l2 value :
  is_case (l1 ++ l2)%list value = is_case l1 value || is_case l2 value.
Proof.
  destruct value as [v| |]; simpl; [apply existsb_app | reflexivity..].
Qed.

Lemma is_case_truthy labels value :
  existsb (String.eqb "") labels = false ->
  is_case labels value = true -> is_truthy value = true.
Proof.
  intros N C. destruct value as [v| |]; cbn [is_case is_truthy] in *;
    try discriminate.
  destruct (String.eqb_spec v "") as [->|]; [congruence | reflexivity].
Qed.

Lemma subscribeToHmrEvents_returns env id client stream w :
  fst (subscribeToHmrEvents env id client stream w) = Ok tt.
Proof.
  unfold subscribeToHmrEvents. rewrite bind_gets.
  destruct (JsMap.get client (clientToHmrSubscription w)) as [mapping|].
  - unfold bind at 1, modify at 1.
    destruct (JsMap.has id mapping); [reflexivity|].
    unfold bind at 1, modify at 1.
    destruct stream as [|[data|] rest]; try reflexivity.
    apply hmr_loop_run.
  - unfold bind at 1, modify at 1.
    destruct (JsMap.has id JsMap.empty); [reflexivity|].
    unfold bind at 1, modify at 1.
    destruct stream as [|[data|] rest]; try reflexivity.
    apply hmr_loop_run.
Qed.

Lemma unsubscribeToHmrEvents_returns id client w :
  fst (unsubscribeToHmrEvents id client w) = Ok tt.
Proof.
  unfold unsubscribeToHmrEvents.
  destruct (JsMap.get client (clientToHmrSubscription w)) as [mapping|];
    [|reflexivity].
  now destruct (JsMap.get id mapping).
Qed.

(** X26.  The message listener of a client throws exactly on these
    messages: text that is no JSON, [null], a [span-end] or
    [client-hmr-latency] event with a time that has no integer part, a
    message that is no known Next.js event and carries no type, and a
    message whose type is neither [turbopack-subscribe] nor
    [turbopack-unsubscribe] and that carries no event.  A message it throws
    on changes nothing, and neither does a message it takes that is no
    request for a raw subscription or for its end. *)
Theorem client_message_rejected_iff_unrecognized :
  forall env client data parsed stream w,
    let run := onMessage env client data parsed stream w in
    is_throw (fst run) = unrecognized parsed /\
    (unrecognized parsed = true -> snd run = w) /\
    (unrecognized parsed = false -> is_turbopack_request parsed = false ->
     run = (Ok tt, w)).
Proof.
  intros env client data [| |[event type path start finish]] stream w;
    cbv zeta; [repeat split; discriminate..|].
  unfold onMessage, unrecognized, is_turbopack_request, msToNs.
  cbn [pd_event pd_type pd_path pd_startTime_floors pd_endTime_floors].
  rewrite is_case_app.
  change ["turbopack-subscribe"; "turbopack-unsubscribe"]
    with (["turbopack-subscribe"] ++ ["turbopack-unsubscribe"])%list.
  rewrite is_case_app.
  pose proof (is_case_truthy silent_events event eq_refl) as HS.
  pose proof (is_case_truthy traced_events event eq_refl) as HT.
  assert (HD : is_case silent_events event = true ->
               is_case traced_events event = false).
  { destruct event as [v| |]; [|reflexivity..]. cbn [is_case]. intros H.
    apply existsb_exists in H as (x & I & E).
    apply String.eqb_eq in E. subst x. simpl in I.
    repeat destruct I as [<-|I]; try reflexivity. contradiction. }
  pose proof (subscribeToHmrEvents_returns env path client stream) as Rs.
  pose proof (unsubscribeToHmrEvents_returns path client) as Ru.
  unfold bind, ret, throw.
  set (sub := subscribeToHmrEvents env path client stream) in *.
  set (unsub := unsubscribeToHmrEvents path client) in *.
  set (Si := is_case silent_events event) in *.
  set (Tr := is_case traced_events event) in *.
  set (T := is_truthy type) in *.
  set (S := is_case ["turbopack-subscribe"] type) in *.
  set (U := is_case ["turbopack-unsubscribe"] type) in *.
  set (Ev := is_truthy event) in *.
  set (m1 := Error _). set (m2 := Error _).
  clearbody sub unsub Si Tr T S U Ev m1 m2.
  destruct Si, Tr, start, finish, T, S, U, Ev;
    try (specialize (HD eq_refl); discriminate);
    try (specialize (HS eq_refl); discriminate);
    try (specialize (HT eq_refl); discriminate);
    cbn [negb andb orb fst snd is_throw];
    rewrite ?Rs, ?Ru; cbn [is_throw];
    (split; [reflexivity | split]);
    try discriminate; try reflexivity.
Qed.

Lemma client_message_rejected_iff_unrecognized_witness :
  onMessage Demo.env 1 "{}"
    (ParsedValue
       {| pd_event := JsString "ping"; pd_type := JsFalsy; pd_path := "";
          pd_startTime_floors := false; pd_endTime_floors := false |})
    [] initial
  = (Ok tt, initial).
Proof.
  apply (client_message_rejected_iff_unrecognized Demo.env 1 "{}"
           (ParsedValue
              {| pd_event := JsString "ping"; pd_type := JsFalsy;
                 pd_path := "";
                 pd_startTime_floors := false;
                 pd_endTime_floors := false |})
           [] initial); reflexivity.
Defined.

(** A [span-end] message without times: [msToNs] throws. *)
Example span_end_without_times_throws :
  onMessage Demo.env 1 "{}"
    (ParsedValue
       {| pd_event := JsString "span-end"; pd_type := JsFalsy;
          pd_path := "";
          pd_startTime_floors := false; pd_endTime_floors := false |})
    [] initial
  = (Throw RangeError, initial).
Proof. reflexivity. Qed.

(** ** The registry the code builds

    The condition of C8 on the registry holds at the start and is kept by
    whatever writes the registry: [changeSubscription] for a page name that
    is not empty, [clearChangeSubscription], a round of [handleEntries] and
    [handleRouteType] for a page name that is not empty. *)

Lemma named_step_refl w : named_step w w.
Proof. intros N. exact N. Qed.

Lemma named_step_trans a b c :
  named_step a b -> named_step b c -> named_step a c.
Proof. unfold named_step. auto. Qed.

Lemma named_of_no_new_key w w' :
  (forall key, JsMap.has key (changeSubscriptions w) = false ->
               JsMap.has key (changeSubscriptions w') = false) ->
  named_step w w'.
Proof.
  intros Keep N key H. apply N.
  destruct (JsMap.has key (changeSubscriptions w)) eqn:Hw; [reflexivity|].
  rewrite (Keep key Hw) in H. discriminate.
Qed.

Lemma named_of_kept {A} (m : M A) :
  runs registry_kept m -> runs named_step m.
Proof.
  intros K w. apply named_of_no_new_key. intros key. now rewrite (K w).
Qed.

Lemma registry_named_initial : registry_named initial.
Proof. intros key H. discriminate H. Qed.

Lemma named_changeSubscription page type includeIssues endpoint :
  page <> "" ->
  runs named_step (changeSubscription page type includeIssues endpoint).
Proof.
  intros Np w N key. unfold changeSubscription.
  destruct endpoint as [e|]; [|apply N].
  destruct (JsMap.has (subscription_key page type) (changeSubscriptions w));
    [apply N|].
  simpl. rewrite map_has_set.
  destruct (String.eqb_spec key (subscription_key page type)) as [->|Ne].
  - intros _. now exists page, type.
  - apply N.
Qed.

Lemma named_clearChangeSubscription page type :
  runs named_step (clearChangeSubscription page type).
Proof.
  intros w. apply named_of_no_new_key. intros key H.
  unfold clearChangeSubscription.
  destruct (JsMap.get (subscription_key page type) (changeSubscriptions w));
    simpl; [|exact H].
  rewrite map_has_delete, H. apply andb_false_r.
Qed.

Lemma named_rebuild_and_diff entrypoints :
  runs named_step (rebuild_and_diff entrypoints).
Proof.
  intros w. apply named_of_no_new_key. intros key H.
  rewrite rebuild_and_diff_run. simpl.
  destruct (populated_run entrypoints w) as [(S1 & _) _].
  destruct (prune_subscriptions_run
              (changeSubscriptions (populated entrypoints w))
              (populated entrypoints w)) as [_ (_ & _ & _ & K2 & _)].
  fold (subscriptions_pruned entrypoints w) in K2.
  destruct (prune_issues_run
              (JsMap.keys (issues (subscriptions_pruned entrypoints w)))
              (subscriptions_pruned entrypoints w))
    as [_ (_ & _ & S3 & _)].
  rewrite S3. apply K2. now rewrite S1.
Qed.

Ltac named_steps :=
  repeat first
    [ apply named_rebuild_and_diff
    | apply named_clearChangeSubscription
    | apply named_changeSubscription; solve [assumption | discriminate]
    | apply named_of_kept; solve [kept_steps]
    | apply (runs_ret named_step named_step_refl)
    | apply (runs_throw named_step named_step_refl)
    | apply (runs_gets named_step named_step_refl)
    | apply (runs_try_finally named_step_trans)
    | apply (runs_bind named_step_trans); [|intros ?]
    | match goal with
      | |- runs named_step (match ?x with _ => _ end) => destruct x
      | |- runs named_step (let '(_, _) := ?x in _) => destruct x
      end
    | solve [intros ?w ?N; exact N] ].

Lemma named_handleEntries env entrypoints :
  runs named_step (handleEntries env entrypoints).
Proof.
  unfold handleEntries, handle_middleware, processInstrumentation,
    processMiddleware, sendHmr, modify.
  named_steps.
Qed.

Lemma named_handleRouteType env page pathname route requestUrl :
  page <> "" ->
  runs named_step (handleRouteType env page pathname route requestUrl).
Proof.
  intros Np. unfold handleRouteType.
  destruct route as [h d|e|pages|name e|t]; named_steps.
Qed.
